(** * gopw: the encrypted password store and the password generator

    A shallow embedding of package [pw] (src/pw/pw.go) and of the command
    line program (src/main.go).

    Go strings are byte sequences, so they are modelled by [string]
    (a list of 8-bit [ascii] values).  The store shells out to the
    [scrypt] utility and relies on Go's [unicode/utf8], [unicode/utf16],
    [encoding/json], [os] and [crypto/rand], the program on [flag]; the
    parts of those that are used are modelled in the modules below, the
    package itself in module [pw] and the program in module [cmd].  A
    panic ends the program; it is carried as an outcome of its own kind
    beside the error values. *)

From Stdlib Require Import Strings.String Strings.Ascii.
From Stdlib Require Import NArith ZArith List Bool Lia.
Import ListNotations.

Local Open Scope string_scope.
Local Open Scope N_scope.

(** ** Bytes and byte strings *)

Definition byte (c : ascii) : N := N_of_ascii c.

Fixpoint bytes (l : list N) : string :=
  match l with
  | [] => EmptyString
  | b :: t => String (ascii_of_N b) (bytes t)
  end.

Fixpoint drop (n : nat) (s : string) : string :=
  match n, s with
  | O, _ => s
  | S _, EmptyString => EmptyString
  | S n', String _ t => drop n' t
  end.

Fixpoint take (n : nat) (s : string) : string :=
  match n, s with
  | O, _ => EmptyString
  | S _, EmptyString => EmptyString
  | S n', String c t => String c (take n' t)
  end.

(** The double quote, written by its code so that no literal has to
    escape it. *)
Definition dquote : ascii := "034"%char.
Definition q : string := String dquote EmptyString.

(** ** The data of package [pw]

    [PasswordEntry] is the record type of the store.  A Go slice is either
    [nil] or holds elements; the two differ in their JSON encoding. *)

Record PasswordEntry : Type := {
  Name : string;
  Username : string;
  Password : string
}.

Inductive slice (A : Type) : Type :=
| Nil
| Elems (l : list A).
Arguments Nil {A}.
Arguments Elems {A} l.

Definition elems {A : Type} (s : slice A) : list A :=
  match s with
  | Nil => []
  | Elems l => l
  end.

Inductive result (E A : Type) : Type :=
| Ok (a : A)
| Err (e : E).
Arguments Ok {E A} a.
Arguments Err {E A} e.

(** ** unicode/utf8 *)

Module utf8.

Definition RuneError : N := 0xFFFD.
Definition RuneSelf : N := 0x80.
Definition MaxRune : N := 0x10FFFF.

(** The tables [first] and [acceptRanges]: for a lead byte, the length of
    the sequence it starts and the range its second byte must lie in.
    [None] is the entry [xx] (not a lead byte). *)
Definition lead (s0 : N) : option (nat * N * N) :=
  if s0 <? 0xC2 then None
  else if s0 <? 0xE0 then Some (2%nat, 0x80, 0xBF)
  else if s0 =? 0xE0 then Some (3%nat, 0xA0, 0xBF)
  else if s0 =? 0xED then Some (3%nat, 0x80, 0x9F)
  else if s0 <? 0xF0 then Some (3%nat, 0x80, 0xBF)
  else if s0 =? 0xF0 then Some (4%nat, 0x90, 0xBF)
  else if s0 <? 0xF4 then Some (4%nat, 0x80, 0xBF)
  else if s0 =? 0xF4 then Some (4%nat, 0x80, 0x8F)
  else None.

(** A continuation byte lies in [locb, hicb] = [0x80, 0xBF]. *)
Definition cont (b : N) : bool := (0x80 <=? b) && (b <=? 0xBF).

(** [DecodeRuneInString]: the first rune of [s] and its width in bytes;
    [(RuneError, 0)] on the empty string, [(RuneError, 1)] on an invalid
    encoding.  The masks and shifts of the Go code are written as the
    arithmetic they perform: [s0 & 0x1F << 6 | s1 & 0x3F] is
    [(s0 mod 32) * 64 + s1 mod 64] and so on. *)
Definition DecodeRuneInString (s : string) : N * nat :=
  match s with
  | EmptyString => (RuneError, 0%nat)
  | String c0 t0 =>
    let s0 := byte c0 in
    if s0 <? RuneSelf then (s0, 1%nat)
    else
      match lead s0 with
      | None => (RuneError, 1%nat)
      | Some (sz, lo, hi) =>
        match t0 with
        | EmptyString => (RuneError, 1%nat)
        | String c1 t1 =>
          let s1 := byte c1 in
          if (s1 <? lo) || (hi <? s1) then (RuneError, 1%nat)
          else if (sz <=? 2)%nat then ((s0 mod 32) * 64 + s1 mod 64, 2%nat)
          else
            match t1 with
            | EmptyString => (RuneError, 1%nat)
            | String c2 t2 =>
              let s2 := byte c2 in
              if negb (cont s2) then (RuneError, 1%nat)
              else if (sz <=? 3)%nat then
                ((s0 mod 16) * 4096 + (s1 mod 64) * 64 + s2 mod 64, 3%nat)
              else
                match t2 with
                | EmptyString => (RuneError, 1%nat)
                | String c3 _ =>
                  let s3 := byte c3 in
                  if negb (cont s3) then (RuneError, 1%nat)
                  else ((s0 mod 8) * 262144 + (s1 mod 64) * 4096
                        + (s2 mod 64) * 64 + s3 mod 64, 4%nat)
                end
            end
        end
      end
  end.

(** [AppendRune]/[EncodeRune]: the UTF-8 encoding of a rune; surrogates
    and values above [MaxRune] are encoded as [RuneError]. *)
Definition enc3 (r : N) : string :=
  bytes [0xE0 + r / 4096; 0x80 + (r / 64) mod 64; 0x80 + r mod 64].

Definition EncodeRune (r : N) : string :=
  if r <=? 0x7F then bytes [r]
  else if r <=? 0x7FF then bytes [0xC0 + r / 64; 0x80 + r mod 64]
  else if (MaxRune <? r) || ((0xD800 <=? r) && (r <=? 0xDFFF)) then enc3 RuneError
  else if r <=? 0xFFFF then enc3 r
  else bytes [0xF0 + r / 262144; 0x80 + (r / 4096) mod 64;
              0x80 + (r / 64) mod 64; 0x80 + r mod 64].

(** [ValidString]: no position decodes to an invalid encoding. *)
Fixpoint valid_from (fuel : nat) (s : string) : bool :=
  match fuel with
  | O => true
  | S fuel' =>
    match s with
    | EmptyString => true
    | String c t =>
      if byte c <? RuneSelf then valid_from fuel' t
      else
        let '(r, size) := DecodeRuneInString s in
        if (size =? 1)%nat then false else valid_from fuel' (drop size s)
    end
  end.

Definition ValidString (s : string) : bool := valid_from (String.length s) s.

(** The runes of a string, as a [range] loop or the conversion
    [[]rune(s)] yields them: an invalid byte counts as one [RuneError]. *)
Fixpoint runes_from (fuel : nat) (s : string) : list N :=
  match fuel with
  | O => []
  | S fuel' =>
    match s with
    | EmptyString => []
    | String _ _ =>
      let '(r, size) := DecodeRuneInString s in
      r :: runes_from fuel' (drop size s)
    end
  end.

Definition runes (s : string) : list N := runes_from (String.length s) s.

End utf8.

(** ** unicode/utf16 *)

Module utf16.

Definition IsSurrogate (r : N) : bool := (0xD800 <=? r) && (r <? 0xE000).

(** [DecodeRune r1 r2]: the rune of a surrogate pair, [RuneError] when the
    pair is not valid. *)
Definition DecodeRune (r1 r2 : N) : N :=
  if (0xD800 <=? r1) && (r1 <? 0xDC00) && (0xDC00 <=? r2) && (r2 <? 0xE000)
  then (r1 - 0xD800) * 1024 + (r2 - 0xDC00) + 0x10000
  else utf8.RuneError.

End utf16.

(** ** encoding/json: the scanner and the string decoder

    [json.Unmarshal] first validates the whole input against the JSON
    grammar ([checkValid]) and then decodes it.  Both passes are modelled by
    one recursive-descent parser that builds the syntax tree of the input;
    it accepts exactly the inputs of the scanner and stores every string
    literal as [unquote] decodes it.  The parsers take fuel; [parse] supplies
    twice the length of the input, as a call either consumes a byte or is
    followed by one that does. *)

Module json.

#[warnings="-register-all"] Inductive Value : Type :=
| Null
| Bool (b : bool)
| Number (lit : string)
| Str (s : string)
| Array (elems : list Value)
| Object (members : list (string * Value)).

Definition maxNestingDepth : N := 10000.

Definition isSpace (c : ascii) : bool :=
  let b := byte c in (b =? 32) || (b =? 9) || (b =? 13) || (b =? 10).

Fixpoint skipSpace (s : string) : string :=
  match s with
  | String c t => if isSpace c then skipSpace t else s
  | EmptyString => s
  end.

Definition isDigit (c : ascii) : bool := (48 <=? byte c) && (byte c <=? 57).

Definition hexval (c : ascii) : option N :=
  let b := byte c in
  if (48 <=? b) && (b <=? 57) then Some (b - 48)
  else if (97 <=? b) && (b <=? 102) then Some (b - 87)
  else if (65 <=? b) && (b <=? 70) then Some (b - 55)
  else None.

(** Four hexadecimal digits and the input after them. *)
Definition hex4 (s : string) : option (N * string) :=
  match s with
  | String h1 (String h2 (String h3 (String h4 t))) =>
    match hexval h1, hexval h2, hexval h3, hexval h4 with
    | Some a, Some b, Some c, Some d => Some (((a * 16 + b) * 16 + c) * 16 + d, t)
    | _, _, _, _ => None
    end
  | _ => None
  end.

(** [getu4]: the value of a [\uXXXX] escape at the head of the input. *)
Definition getu4 (s : string) : option (N * string) :=
  match s with
  | String b (String u t) =>
    if ((b =? "\") && (u =? "u"))%char then hex4 t else None
  | _ => None
  end.

(** The one-letter escapes the scanner accepts ([stateInStringEsc]). *)
Definition escape_char (e : ascii) : option ascii :=
  if (e =? dquote)%char then Some dquote
  else if (e =? "\")%char then Some "\"%char
  else if (e =? "/")%char then Some "/"%char
  else if (e =? "b")%char then Some "008"%char
  else if (e =? "f")%char then Some "012"%char
  else if (e =? "n")%char then Some "010"%char
  else if (e =? "r")%char then Some "013"%char
  else if (e =? "t")%char then Some "009"%char
  else None.

Definition prepend (p : string) (r : option (string * string))
  : option (string * string) :=
  match r with
  | Some (u, t) => Some (p ++ u, t)
  | None => None
  end.

(** [unquote]: the body of a string literal, read from just after its
    opening quote up to and including the closing quote; the decoded bytes
    and the rest of the input.  Control characters are rejected, escapes are
    decoded (a surrogate pair of [\u] escapes to one rune, a lone surrogate
    to [RuneError]) and bytes that are not valid UTF-8 are coerced to
    [RuneError]. *)
Fixpoint unquote (fuel : nat) (s : string) : option (string * string) :=
  match fuel with
  | O => None
  | S fuel' =>
    match s with
    | EmptyString => None
    | String c t =>
      if (c =? dquote)%char then Some (EmptyString, t)
      else if (c =? "\")%char then
        match t with
        | EmptyString => None
        | String e t1 =>
          match escape_char e with
          | Some b => prepend (String b EmptyString) (unquote fuel' t1)
          | None =>
            if (e =? "u")%char then
              match hex4 t1 with
              | None => None
              | Some (rr, t2) =>
                if utf16.IsSurrogate rr then
                  match getu4 t2 with
                  | Some (rr1, t3) =>
                    let dec := utf16.DecodeRune rr rr1 in
                    if dec =? utf8.RuneError
                    then prepend (utf8.EncodeRune utf8.RuneError) (unquote fuel' t2)
                    else prepend (utf8.EncodeRune dec) (unquote fuel' t3)
                  | None => prepend (utf8.EncodeRune utf8.RuneError) (unquote fuel' t2)
                  end
                else prepend (utf8.EncodeRune rr) (unquote fuel' t2)
              end
            else None
          end
        end
      else if byte c <? 0x20 then None
      else if byte c <? utf8.RuneSelf then prepend (String c EmptyString) (unquote fuel' t)
      else
        let '(rr, size) := utf8.DecodeRuneInString s in
        prepend (utf8.EncodeRune rr) (unquote fuel' (drop size s))
    end
  end.

(** A maximal run of decimal digits and the input after it. *)
Fixpoint digits (s : string) : string * string :=
  match s with
  | String c t =>
    if isDigit c then let '(ds, r) := digits t in (String c ds, r)
    else (EmptyString, s)
  | EmptyString => (EmptyString, s)
  end.

(** A non-empty run of digits. *)
Definition digits1 (s : string) : option (string * string) :=
  match digits s with
  | (EmptyString, _) => None
  | (ds, r) => Some (ds, r)
  end.

(** The number grammar of the scanner: an optional minus sign; the integer
    part, either a single 0 or a digit from 1 to 9 followed by any digits;
    optionally a dot and one or more digits; optionally e or E, an
    optional sign and one or more digits. *)
Definition number (s : string) : option (string * string) :=
  let '(sign, s1) :=
    match s with
    | String c t => if (c =? "-")%char then ("-", t) else (EmptyString, s)
    | EmptyString => (EmptyString, s)
    end in
  let int_part :=
    match s1 with
    | String c t =>
      if (c =? "0")%char then Some ("0", t)
      else if isDigit c then let '(ds, r) := digits t in Some (String c ds, r)
      else None
    | EmptyString => None
    end in
  match int_part with
  | None => None
  | Some (i, s2) =>
    let frac_part :=
      match s2 with
      | String c t =>
        if (c =? ".")%char then
          match digits1 t with
          | Some (ds, r) => Some (String c ds, r)
          | None => None
          end
        else Some (EmptyString, s2)
      | EmptyString => Some (EmptyString, s2)
      end in
    match frac_part with
    | None => None
    | Some (f, s3) =>
      let exp_part :=
        match s3 with
        | String c t =>
          if ((c =? "e") || (c =? "E"))%char then
            let '(sg, t1) :=
              match t with
              | String d t' =>
                if ((d =? "+") || (d =? "-"))%char
                then (String d EmptyString, t') else (EmptyString, t)
              | EmptyString => (EmptyString, t)
              end in
            match digits1 t1 with
            | Some (ds, r) => Some (String c (sg ++ ds), r)
            | None => None
            end
          else Some (EmptyString, s3)
        | EmptyString => Some (EmptyString, s3)
        end in
      match exp_part with
      | None => None
      | Some (e, s4) => Some (sign ++ i ++ f ++ e, s4)
      end
    end
  end.

(** [strip p s]: [s] without its prefix [p], when it has that prefix. *)
Fixpoint strip (p s : string) : option string :=
  match p, s with
  | EmptyString, _ => Some s
  | String a p', String b s' => if (a =? b)%char then strip p' s' else None
  | String _ _, EmptyString => None
  end.

(** The value grammar.  [depth] counts the arrays and objects that enclose
    the position; opening one more than [maxNestingDepth] is an error.
    [value] expects its input to start at the value; [elements] and
    [members] read what follows the opening bracket of a non-empty array
    or object, through the closing bracket. *)
Fixpoint value (fuel : nat) (depth : N) (s : string) {struct fuel}
  : option (Value * string) :=
  match fuel with
  | O => None
  | S fuel' =>
    match s with
    | EmptyString => None
    | String c t =>
      if (c =? "[")%char then
        if maxNestingDepth <? depth + 1 then None
        else
          match skipSpace t with
          | String c1 t1 =>
            if (c1 =? "]")%char then Some (Array [], t1)
            else
              match elements fuel' (depth + 1) (String c1 t1) with
              | Some (vs, r) => Some (Array vs, r)
              | None => None
              end
          | EmptyString => None
          end
      else if (c =? "{")%char then
        if maxNestingDepth <? depth + 1 then None
        else
          match skipSpace t with
          | String c1 t1 =>
            if (c1 =? "}")%char then Some (Object [], t1)
            else
              match members fuel' (depth + 1) (String c1 t1) with
              | Some (ms, r) => Some (Object ms, r)
              | None => None
              end
          | EmptyString => None
          end
      else if (c =? dquote)%char then
        match unquote (S (String.length t)) t with
        | Some (u, r) => Some (Str u, r)
        | None => None
        end
      else if (c =? "t")%char then
        match strip "rue" t with Some r => Some (Bool true, r) | None => None end
      else if (c =? "f")%char then
        match strip "alse" t with Some r => Some (Bool false, r) | None => None end
      else if (c =? "n")%char then
        match strip "ull" t with Some r => Some (Null, r) | None => None end
      else
        match number s with
        | Some (lit, r) => Some (Number lit, r)
        | None => None
        end
    end
  end

with elements (fuel : nat) (depth : N) (s : string) {struct fuel}
  : option (list Value * string) :=
  match fuel with
  | O => None
  | S fuel' =>
    match value fuel' depth s with
    | None => None
    | Some (v, r) =>
      match skipSpace r with
      | String c t =>
        if (c =? ",")%char then
          match elements fuel' depth (skipSpace t) with
          | Some (vs, r') => Some (v :: vs, r')
          | None => None
          end
        else if (c =? "]")%char then Some ([v], t)
        else None
      | EmptyString => None
      end
    end
  end

with members (fuel : nat) (depth : N) (s : string) {struct fuel}
  : option (list (string * Value) * string) :=
  match fuel with
  | O => None
  | S fuel' =>
    match s with
    | String c t =>
      if (c =? dquote)%char then
        match unquote (S (String.length t)) t with
        | None => None
        | Some (key, r) =>
          match skipSpace r with
          | String c1 t1 =>
            if (c1 =? ":")%char then
              match value fuel' depth (skipSpace t1) with
              | None => None
              | Some (v, r1) =>
                match skipSpace r1 with
                | String c2 t2 =>
                  if (c2 =? ",")%char then
                    match members fuel' depth (skipSpace t2) with
                    | Some (ms, r2) => Some ((key, v) :: ms, r2)
                    | None => None
                    end
                  else if (c2 =? "}")%char then Some ([(key, v)], t2)
                  else None
                | EmptyString => None
                end
              end
            else None
          | EmptyString => None
          end
        end
      else None
    | EmptyString => None
    end
  end.

(** The whole input: one value between optional white space. *)
Definition parse (data : string) : option Value :=
  let s := skipSpace data in
  match value (2 * String.length s + 2) 0 s with
  | Some (v, r) =>
    match skipSpace r with
    | EmptyString => Some v
    | String _ _ => None
    end
  | None => None
  end.

(** *** The encoder, for the type [[]PasswordEntry]

    [appendString] with HTML escaping, as [Marshal] uses it: the bytes of
    [htmlSafeSet] are copied, the other ASCII bytes escaped (since Go 1.22
    backspace and form feed by their short escapes), an invalid byte
    becomes the escape of [RuneError], U+2028 and U+2029 are escaped and
    every other rune is copied. *)

Definition hexdigit (n : N) : ascii :=
  if n <? 10 then ascii_of_N (48 + n) else ascii_of_N (87 + n).

Definition htmlSafe (b : N) : bool :=
  (0x20 <=? b) && (b <? 0x80)
  && negb ((b =? 34) || (b =? 92) || (b =? 60) || (b =? 62) || (b =? 38)).

Definition escape_byte (c : ascii) : string :=
  let b := byte c in
  if (b =? 92) || (b =? 34) then String "\"%char (String c EmptyString)
  else if b =? 8 then "\b"
  else if b =? 12 then "\f"
  else if b =? 10 then "\n"
  else if b =? 13 then "\r"
  else if b =? 9 then "\t"
  else "\u00" ++ String (hexdigit (b / 16)) (String (hexdigit (b mod 16)) EmptyString).

Fixpoint appendString_from (fuel : nat) (src : string) : string :=
  match fuel with
  | O => EmptyString
  | S fuel' =>
    match src with
    | EmptyString => EmptyString
    | String c t =>
      if byte c <? utf8.RuneSelf then
        (if htmlSafe (byte c) then String c EmptyString else escape_byte c)
        ++ appendString_from fuel' t
      else
        let '(r, size) := utf8.DecodeRuneInString src in
        if (r =? utf8.RuneError) && (size =? 1)%nat then
          "\ufffd" ++ appendString_from fuel' (drop size src)
        else if (r =? 0x2028) || (r =? 0x2029) then
          "\u202" ++ String (hexdigit (r mod 16)) EmptyString
          ++ appendString_from fuel' (drop size src)
        else take size src ++ appendString_from fuel' (drop size src)
    end
  end.

Definition appendString (src : string) : string :=
  q ++ appendString_from (String.length src) src ++ q.

(** A struct is encoded as an object of its fields, in declaration order,
    under the names of the [json] tags. *)
Definition marshal_entry (e : PasswordEntry) : string :=
  "{" ++ q ++ "name" ++ q ++ ":" ++ appendString (Name e)
  ++ "," ++ q ++ "username" ++ q ++ ":" ++ appendString (Username e)
  ++ "," ++ q ++ "password" ++ q ++ ":" ++ appendString (Password e) ++ "}".

Fixpoint marshal_elems (l : list PasswordEntry) : string :=
  match l with
  | [] => EmptyString
  | [e] => marshal_entry e
  | e :: t => marshal_entry e ++ "," ++ marshal_elems t
  end.

(** [Marshal]: a nil slice is [null], any other slice an array.  It has
    no error case for this type. *)
Definition Marshal (data : slice PasswordEntry) : string :=
  match data with
  | Nil => "null"
  | Elems l => "[" ++ marshal_elems l ++ "]"
  end.

(** *** The decoder, for the type [[]PasswordEntry] *)

Inductive Error : Type :=
| SyntaxError
| UnmarshalTypeError.

Inductive field : Type := FName | FUsername | FPassword.

(** [foldName]: ASCII letters to upper case and the two runes that fold to
    an ASCII letter, U+017F (long s) and U+212A (Kelvin sign), to that
    letter.  No other rune folds to ASCII, so the other bytes are kept:
    they never match a field name. *)
Fixpoint foldName (s : string) : string :=
  match s with
  | EmptyString => EmptyString
  | String c t =>
    let b := byte c in
    if (97 <=? b) && (b <=? 122) then String (ascii_of_N (b - 32)) (foldName t)
    else
      match t with
      | String c1 t1 =>
        if (b =? 0xC5) && (byte c1 =? 0xBF) then String "S"%char (foldName t1)
        else
          match t1 with
          | String c2 t2 =>
            if (b =? 0xE2) && (byte c1 =? 0x84) && (byte c2 =? 0xAA)
            then String "K"%char (foldName t2)
            else String c (foldName t)
          | EmptyString => String c (foldName t)
          end
      | EmptyString => String c (foldName t)
      end
  end.

(** The field a key names: an exact match first, then a match under
    case folding; [None] for an unknown key, whose value is skipped. *)
Definition find_field (key : string) : option field :=
  if (key =? "name")%string then Some FName
  else if (key =? "username")%string then Some FUsername
  else if (key =? "password")%string then Some FPassword
  else
    let k := foldName key in
    if (k =? "NAME")%string then Some FName
    else if (k =? "USERNAME")%string then Some FUsername
    else if (k =? "PASSWORD")%string then Some FPassword
    else None.

Definition set_field (f : field) (s : string) (e : PasswordEntry) : PasswordEntry :=
  match f with
  | FName => {| Name := s; Username := Username e; Password := Password e |}
  | FUsername => {| Name := Name e; Username := s; Password := Password e |}
  | FPassword => {| Name := Name e; Username := Username e; Password := s |}
  end.

(** The members of an object are stored in order, so a later duplicate
    wins.  A string field takes a string, is left alone by [null] and
    rejects any other value; [None] stands for the [UnmarshalTypeError]. *)
Fixpoint decode_members (ms : list (string * Value)) (e : PasswordEntry)
  : option PasswordEntry :=
  match ms with
  | [] => Some e
  | (key, v) :: ms' =>
    match find_field key with
    | None => decode_members ms' e
    | Some f =>
      match v with
      | Str s => decode_members ms' (set_field f s e)
      | Null => decode_members ms' e
      | _ => None
      end
    end
  end.

Definition zero_entry : PasswordEntry :=
  {| Name := EmptyString; Username := EmptyString; Password := EmptyString |}.

(** An element of the array is decoded into a fresh, zero struct: an
    object sets fields, [null] leaves the struct as it is. *)
Definition decode_entry (v : Value) : option PasswordEntry :=
  match v with
  | Object ms => decode_members ms zero_entry
  | Null => Some zero_entry
  | _ => None
  end.

Fixpoint decode_entries (vs : list Value) : option (list PasswordEntry) :=
  match vs with
  | [] => Some []
  | v :: vs' =>
    match decode_entry v, decode_entries vs' with
    | Some e, Some es => Some (e :: es)
    | _, _ => None
    end
  end.

(** [null] leaves the slice nil, an array (also the empty one) makes it
    non-nil. *)
Definition decode_slice (v : Value) : option (slice PasswordEntry) :=
  match v with
  | Null => Some Nil
  | Array vs =>
    match decode_entries vs with
    | Some es => Some (Elems es)
    | None => None
    end
  | _ => None
  end.

(** [Unmarshal] into a nil [[]PasswordEntry]. *)
Definition Unmarshal (data : string) : result Error (slice PasswordEntry) :=
  match parse data with
  | None => Err SyntaxError
  | Some v =>
    match decode_slice v with
    | Some d => Ok d
    | None => Err UnmarshalTypeError
    end
  end.

End json.

(** ** The file system and the external programs

    A file system tells, for a path, what the name lookup finds at its
    last component once the components before it have led through
    directories: a regular file (its content and permission bits), a
    directory, an entry that [stat] cannot reach (it fails with an error
    other than "does not exist"), or nothing.  Paths are told apart as
    strings: that two spellings or two links may name one file is not
    part of the model. *)

Inductive node : Type :=
| File (content : string) (perm : N)
| Dir (perm : N)
| Unreachable.

Definition FS : Type := string -> option node.

Definition fs_set (fs : FS) (path : string) (n : option node) : FS :=
  fun p => if (p =? path)%string then n else fs p.

(** The directories on the way to a path: its prefixes that end before a
    slash (the empty prefix, the root directory, apart). *)
Fixpoint ancestors_from (seen rest : string) : list string :=
  match rest with
  | EmptyString => []
  | String c rest' =>
    let more := ancestors_from (seen ++ String c EmptyString) rest' in
    if (c =? "/")%char && negb (seen =? EmptyString)%string then seen :: more
    else more
  end.

Definition ancestors (path : string) : list string :=
  ancestors_from EmptyString path.

(** The walk through the directories on the way: it gets through when
    each of them is a directory, finds the way [Missing] at the first one
    that does not exist (ENOENT), and [Closed] at the first one that is
    not a directory (ENOTDIR) or cannot be reached. *)
Inductive way : Type := Open | Missing | Closed.

Fixpoint walk (fs : FS) (dirs : list string) : way :=
  match dirs with
  | [] => Open
  | d :: rest =>
    match fs d with
    | Some (Dir _) => walk fs rest
    | None => Missing
    | Some _ => Closed
    end
  end.

(** The entry a path resolves to.  The empty path resolves to nothing
    (the system calls fail on it with "no such file or directory"), and
    so does a path below a missing directory; a path below a regular
    file cannot be reached. *)
Definition entry (fs : FS) (path : string) : option node :=
  if (String.length path =? 0)%nat then None
  else
    match walk fs (ancestors path) with
    | Open => fs path
    | Missing => None
    | Closed => Some Unreachable
    end.


(** What the package cannot decide itself: the [scrypt] utility (a run
    of [scrypt dec] yields the plaintext of a file content or exits with
    an error; a run of [scrypt enc] yields a ciphertext or exits with an
    error, leaving at its output path whatever [enc_abort] says; a run
    that fails may have closed its standard input before the plaintext
    was written to it, which [enc_refuses_input] tells), the permission
    bits of a file that [scrypt enc] creates, whether the process may
    change the mode of a path, and the largest [n] for which
    [make([]byte, n)] returns (above it the run-time system ends the
    program: "makeslice: len out of range", or "out of memory"). *)
Class Platform : Type := {
  scrypt_dec : string -> option string;
  scrypt_enc : string -> option string;
  enc_abort : option node -> option node;
  enc_refuses_input : string -> bool;
  create_perm : N;
  chmod_allowed : string -> bool;
  alloc_limit : Z
}.

Module os.

Inductive FileInfo : Type :=
| StatOk (isDir : bool)
| StatNotExist
| StatError.

Definition Stat (fs : FS) (name : string) : FileInfo :=
  match entry fs name with
  | None => StatNotExist
  | Some Unreachable => StatError
  | Some (Dir _) => StatOk true
  | Some (File _ _) => StatOk false
  end.

(** [Chmod]: sets the permission bits of an existing file or directory;
    [None] when it fails. *)
Definition Chmod `{Platform} (fs : FS) (name : string) (mode : N) : option FS :=
  if chmod_allowed name then
    match entry fs name with
    | Some (File c _) => Some (fs_set fs name (Some (File c mode)))
    | Some (Dir _) => Some (fs_set fs name (Some (Dir mode)))
    | _ => None
    end
  else None.

End os.

(** The command [scrypt dec filename]: its standard output, or [None]
    when it does not exit successfully. *)
Definition run_scrypt_dec `{Platform} (fs : FS) (filename : string) : option string :=
  match entry fs filename with
  | Some (File content _) => scrypt_dec content
  | _ => None
  end.

(** How a run of [scrypt enc] ends, as the program sees it: it exits
    successfully, it exits with an error after taking its input, or the
    write to its standard input fails because it has closed it. *)
Inductive enc_exit : Type := ExitSuccess | ExitFailure | InputRefused.

(** The command [scrypt enc - filename] fed [plaintext] on its standard
    input: it cannot write to the empty path, a directory, an
    unreachable path or a path whose directories it cannot walk through;
    it overwrites a file, keeping its mode, or creates one.  The result
    is the file system it leaves and how the run ended. *)
Definition run_scrypt_enc `{Platform} (fs : FS) (filename plaintext : string)
  : FS * enc_exit :=
  let failure := if enc_refuses_input plaintext then InputRefused else ExitFailure in
  if (String.length filename =? 0)%nat then (fs, failure)
  else
  match walk fs (ancestors filename) with
  | Open =>
    match fs filename with
    | Some (Dir _) => (fs, failure)
    | Some Unreachable => (fs, failure)
    | old =>
      match scrypt_enc plaintext with
      | None => (fs_set fs filename (enc_abort old), failure)
      | Some c =>
        let perm := match old with Some (File _ p) => p | _ => create_perm end in
        (fs_set fs filename (Some (File c perm)), ExitSuccess)
      end
    end
  | _ => (fs, failure)
  end.

(** The source of randomness behind [crypto/rand.Int]: a draw below [max]
    from a state of the source yields a value or an error, and the next
    state. *)
Class RandSource (R : Type) : Type := {
  rand_Int : Z -> R -> option Z * R
}.

(** ** [crypto/rand.Int] over a reader that replays a list of bytes

    An element of the list stands for the byte of its value modulo 256;
    at the end of the list the reader fails. *)

Module rand.

(** [big.Int.BitLen] of a number that is not negative. *)
Definition BitLen (n : Z) : Z :=
  if (n <=? 0)%Z then 0%Z else (Z.log2 n + 1)%Z.

(** [big.Int.SetBytes]: the bytes as a big-endian unsigned integer. *)
Definition SetBytes (bytes : list Z) : Z :=
  fold_left (fun acc b => (acc * 256 + b)%Z) bytes 0%Z.

(** The loop of [Int]: [io.ReadFull] of [k] bytes, which fails when the
    list is shorter; the high bits of the first byte are cleared and the
    candidate is returned when it is below [max], else the loop goes
    round.  Each round takes [k >= 1] bytes, so the length of the list
    bounds the number of rounds. *)
Fixpoint Int_loop (rounds k : nat) (mask max : Z) (tape : list Z)
  : option Z * list Z :=
  match rounds with
  | O => (None, [])
  | S rounds' =>
    if (List.length tape <? k)%nat then (None, [])
    else
      match firstn k tape with
      | [] => (None, skipn k tape)
      | b0 :: more =>
        let n := SetBytes (Z.land (b0 mod 256) mask
                           :: map (fun b => (b mod 256)%Z) more) in
        if (n <? max)%Z then (Some n, skipn k tape)
        else Int_loop rounds' k mask max (skipn k tape)
      end
  end.

(** [Int] for [max > 0] (it panics otherwise): when [max] is 1 the only
    valid result is 0 and nothing is read. *)
Definition Int (max : Z) (tape : list Z) : option Z * list Z :=
  let bitLen := BitLen (max - 1) in
  if (bitLen =? 0)%Z then (Some 0%Z, tape)
  else
    let k := ((bitLen + 7) / 8)%Z in
    let b := if (bitLen mod 8 =? 0)%Z then 8%Z else (bitLen mod 8)%Z in
    Int_loop (List.length tape) (Z.to_nat k) (2 ^ b - 1) max tape.

End rand.

(** ** Package [pw] *)

Module pw.

Inductive error : Type :=
| ErrPwFileNotFound
| ErrPwFileAlreadyExists
| ErrPwNotFound
| ErrPwAlreadyExists
| ErrFilenameEmpty          (* "filename cannot be empty" *)
| ErrStat                   (* the error of os.Stat, returned as it is *)
| ErrIsDirectory            (* "%s is a directory" *)
| ErrScryptDec              (* "unable to execute scrypt dec: ..." *)
| ErrInvalidJSON (e : json.Error)   (* "invalid JSON: %w" *)
| ErrScryptEnc              (* the errors of running scrypt enc *)
| ErrChmod                  (* "unable to set filename permissions: %w" *)
| ErrLengthNotPositive      (* "length must be positive" *)
| ErrCharsetEmpty           (* "charset cannot be empty" *)
| ErrRand                   (* the error of the random source *)
| PanicIndexOutOfRange      (* a run-time panic, not an error value *)
| PanicNilDereference       (* the call of the nil [cmd.Cancel]: a panic *)
| PanicMakeslice.           (* [make] beyond what can be allocated: the
                               run-time system ends the program *)

(** The outcomes that are no error values: the program ends there. *)
Definition is_panic (e : error) : bool :=
  match e with
  | PanicIndexOutOfRange | PanicNilDereference | PanicMakeslice => true
  | _ => false
  end.

Definition mode_0600 : N := 6 * 64.

Section Store.
Context `{Platform}.

Definition read (fs : FS) (filename : string) : result error (slice PasswordEntry) :=
  match os.Stat fs filename with
  | os.StatNotExist => Err ErrPwFileNotFound
  | os.StatError => Err ErrStat
  | os.StatOk true => Err ErrIsDirectory
  | os.StatOk false =>
    match run_scrypt_dec fs filename with
    | None => Err ErrScryptDec
    | Some output =>
      match json.Unmarshal output with
      | Err e => Err (ErrInvalidJSON e)
      | Ok data => Ok data
      end
    end
  end.

(** [json.Marshal] has no error case for a slice of structs of strings,
    so the first error branch of [write] is not represented.  When the
    write to the standard input of [scrypt enc] fails, [write] calls
    [cmd.Cancel], which is nil for a command made by [exec.Command]: the
    program panics. *)
Definition write (fs : FS) (filename : string) (data : slice PasswordEntry)
  : FS * option error :=
  let jsonData := json.Marshal data in
  match run_scrypt_enc fs filename jsonData with
  | (fs1, InputRefused) => (fs1, Some PanicNilDereference)
  | (fs1, ExitFailure) => (fs1, Some ErrScryptEnc)
  | (fs1, ExitSuccess) =>
    match os.Chmod fs1 filename mode_0600 with
    | None => (fs1, Some ErrChmod)
    | Some fs2 => (fs2, None)
    end
  end.

(** [Init] creates a new empty password file. *)
Definition Init (fs : FS) (filename : string) : FS * option error :=
  if (String.length filename =? 0)%nat then (fs, Some ErrFilenameEmpty)
  else
    match os.Stat fs filename with
    | os.StatOk _ => (fs, Some ErrPwFileAlreadyExists)
    | _ => write fs filename (Elems [])
    end.

(** The loop of [Get]: the first entry of the given name. *)
Fixpoint get_loop (data : list PasswordEntry) (name : string) : option PasswordEntry :=
  match data with
  | [] => None
  | entry :: rest =>
    if (Name entry =? name)%string then Some entry else get_loop rest name
  end.

(** [Get] fetches a password entry by name. *)
Definition Get (fs : FS) (filename name : string) : result error PasswordEntry :=
  if (String.length filename =? 0)%nat then Err ErrFilenameEmpty
  else
    match read fs filename with
    | Err e => Err e
    | Ok data =>
      match get_loop (elems data) name with
      | Some entry => Ok entry
      | None => Err ErrPwNotFound
      end
    end.

(** [List] fetches all password entries. *)
Definition List (fs : FS) (filename : string) : result error (slice PasswordEntry) :=
  if (String.length filename =? 0)%nat then Err ErrFilenameEmpty
  else read fs filename.

(** The loop of [Add]: is there an entry of the given name? *)
Fixpoint exists_loop (data : list PasswordEntry) (name : string) : bool :=
  match data with
  | [] => false
  | entry :: rest =>
    if (Name entry =? name)%string then true else exists_loop rest name
  end.

(** [Add] adds a new password entry. *)
Definition Add (fs : FS) (filename : string) (newEntry : PasswordEntry)
  : FS * option error :=
  if (String.length filename =? 0)%nat then (fs, Some ErrFilenameEmpty)
  else
    match read fs filename with
    | Err e => (fs, Some e)
    | Ok data =>
      if exists_loop (elems data) (Name newEntry) then (fs, Some ErrPwAlreadyExists)
      else write fs filename (Elems (elems data ++ [newEntry])%list)
    end.

(** The loop of [Update]: the data with the first entry of the new
    entry's name overwritten, and the flag [found]. *)
Fixpoint update_loop (data : list PasswordEntry) (newEntry : PasswordEntry)
  : list PasswordEntry * bool :=
  match data with
  | [] => ([], false)
  | entry :: rest =>
    if (Name entry =? Name newEntry)%string then (newEntry :: rest, true)
    else let '(rest', found) := update_loop rest newEntry in (entry :: rest', found)
  end.

(** [Update] updates an existing password entry. *)
Definition Update (fs : FS) (filename : string) (newEntry : PasswordEntry)
  : FS * option error :=
  if (String.length filename =? 0)%nat then (fs, Some ErrFilenameEmpty)
  else
    match read fs filename with
    | Err e => (fs, Some e)
    | Ok data =>
      let '(data', found) := update_loop (elems data) newEntry in
      if negb found then (fs, Some ErrPwNotFound)
      else write fs filename (Elems data')
    end.

(** The loop of [Remove]: one step appends an entry of another name to
    [newData] and sets [found] at an entry of the given name. *)
Definition remove_step (name : string) (st : list PasswordEntry * bool)
  (entry : PasswordEntry) : list PasswordEntry * bool :=
  let '(newData, found) := st in
  if negb (Name entry =? name)%string then ((newData ++ [entry])%list, found)
  else (newData, true).

Definition remove_loop (data : list PasswordEntry) (name : string)
  : list PasswordEntry * bool :=
  fold_left (remove_step name) data ([], false).

(** [Remove] removes a password entry. *)
Definition Remove (fs : FS) (filename name : string) : FS * option error :=
  if (String.length filename =? 0)%nat then (fs, Some ErrFilenameEmpty)
  else
    match read fs filename with
    | Err e => (fs, Some e)
    | Ok data =>
      let '(newData, found) := remove_loop (elems data) name in
      if negb found then (fs, Some ErrPwNotFound)
      else write fs filename (Elems newData)
    end.

End Store.

Section Generator.
Context {R : Type} `{Platform} `{RandSource R}.

(** The loop of [GeneratePassword], [n] positions to go: each position
    takes the byte of the charset at a drawn index. *)
Fixpoint generate_loop (n : nat) (charset : string) (rng : R)
  : result error string * R :=
  match n with
  | O => (Ok EmptyString, rng)
  | S n' =>
    match rand_Int (Z.of_nat (String.length charset)) rng with
    | (None, rng1) => (Err ErrRand, rng1)
    | (Some idx, rng1) =>
      if (idx <? 0)%Z then (Err PanicIndexOutOfRange, rng1)
      else
        match String.get (Z.to_nat idx) charset with
        | None => (Err PanicIndexOutOfRange, rng1)
        | Some c =>
          match generate_loop n' charset rng1 with
          | (Ok rest, rng2) => (Ok (String c rest), rng2)
          | (Err e, rng2) => (Err e, rng2)
          end
        end
    end
  end.

(** [GeneratePassword] generates a random password of [length] characters
    from the charset.  [make([]byte, length)] comes before the first
    draw. *)
Definition GeneratePassword (length : Z) (charset : string) (rng : R)
  : result error string * R :=
  if (length <=? 0)%Z then (Err ErrLengthNotPositive, rng)
  else if (String.length charset =? 0)%nat then (Err ErrCharsetEmpty, rng)
  else if (alloc_limit <? length)%Z then (Err PanicMakeslice, rng)
  else generate_loop (Z.to_nat length) charset rng.

End Generator.

End pw.

(** ** Sample data

    A stand-in for [scrypt] that stores the plaintext as it is, an empty
    file system and a few entries, for concrete runs of the package. *)

#[local] Instance plain_scrypt : Platform := {|
  scrypt_dec := fun c => Some c;
  scrypt_enc := fun p => Some p;
  enc_abort := fun old => old;
  enc_refuses_input := fun _ => false;
  create_perm := 420;
  chmod_allowed := fun _ => true;
  alloc_limit := 2 ^ 48
|}.

Definition empty_fs : FS := fun _ => None.

Definition mk_entry (n u p : string) : PasswordEntry :=
  {| Name := n; Username := u; Password := p |}.

Definition entry_A : PasswordEntry := mk_entry "A" "alice" "pa".
Definition entry_B : PasswordEntry := mk_entry "B" "bob" "pb".
Definition entry_B' : PasswordEntry := mk_entry "B" "bob" "changed".
Definition entry_C : PasswordEntry := mk_entry "C" "carol" "pc".

(** A file system whose store at path [pw.scrypt] holds the given
    entries, with permission bits 0644. *)
Definition fs_with (l : list PasswordEntry) : FS :=
  fs_set empty_fs "pw.scrypt" (Some (File (json.Marshal (Elems l)) 420)).

Definition fs_ABC : FS := fs_with [entry_A; entry_B; entry_C].

(** [other_name name e]: the entry [e] has another name than [name]. *)
Definition other_name (name : string) (e : PasswordEntry) : bool :=
  negb (Name e =? name)%string.

(** [stored fs filename data]: the file at [filename] is an encryption of
    the encoding of [data] and has mode 0600. *)
Definition stored `{Platform} (fs : FS) (filename : string)
  (data : slice PasswordEntry) : Prop :=
  exists c, entry fs filename = Some (File c pw.mode_0600)
            /\ scrypt_enc (json.Marshal data) = Some c.

(** ** Notions used by the statements about missing files *)

(** The path does not exist: the path itself, or a directory on the way
    to it, is missing, and what comes before the first missing one are
    directories. *)
Definition nonexistent (fs : FS) (path : string) : Prop :=
  exists before p after,
    (ancestors path ++ [path])%list = (before ++ p :: after)%list
    /\ Forall (fun d => exists perm, fs d = Some (Dir perm)) before
    /\ fs p = None.

(** The path names a file or a directory that [stat] finds: the way to
    it leads through directories. *)
Definition exists_at (fs : FS) (path : string) : Prop :=
  Forall (fun d => exists perm, fs d = Some (Dir perm)) (ancestors path)
  /\ exists n, fs path = Some n /\ n <> Unreachable.

(** A file system whose only entry is the regular file [plain]. *)
Definition fs_plain : FS := fs_set empty_fs "plain" (Some (File "x" 420)).

(** ** Notions used by the statements about the codec *)

(** An entry all of whose fields are valid UTF-8. *)
Definition valid_entry (e : PasswordEntry) : bool :=
  utf8.ValidString (Name e) && utf8.ValidString (Username e)
  && utf8.ValidString (Password e).

(** The syntax tree of the encoding of an entry. *)
Definition entry_value (e : PasswordEntry) : json.Value :=
  json.Object [("name", json.Str (Name e)); ("username", json.Str (Username e));
               ("password", json.Str (Password e))].

(** The encoding of one ASCII byte inside a string literal. *)
Definition ascii_piece (c : ascii) : string :=
  if json.htmlSafe (byte c) then String c EmptyString else json.escape_byte c.

(** A key that needs no escaping is read back as it is. *)
Definition plain_key (key : string) : Prop :=
  forall X, json.unquote (S (String.length (key ++ String dquote X)))
              (key ++ String dquote X) = Some (key, X).

(** The invariant of the parser: every string of the syntax tree that the
    decoder can reach (as a value, as the value of a member of an object,
    or so inside an element of an array) is valid UTF-8. *)
Definition str_ok (v : json.Value) : Prop :=
  match v with json.Str s => utf8.ValidString s = true | _ => True end.

Definition object_ok (v : json.Value) : Prop :=
  match v with
  | json.Object ms => Forall (fun kv => str_ok (snd kv)) ms
  | _ => True
  end.

Definition array_ok (v : json.Value) : Prop :=
  match v with json.Array vs => Forall object_ok vs | _ => True end.

Definition value_ok (v : json.Value) : Prop :=
  str_ok v /\ object_ok v /\ array_ok v.

(** An entry whose password is the single byte 0xFF, which is not valid
    UTF-8, and what the codec makes of it. *)
Definition entry_bad : PasswordEntry := mk_entry "A" "alice" (bytes [0xFF]).
Definition entry_coerced : PasswordEntry :=
  mk_entry "A" "alice" (bytes [0xEF; 0xBF; 0xBD]).

(** What the decoder accepts: a member that names no field, or holds
    [null] or a string; an element that is [null] or an object of such
    members; a document that is [null] or an array of such elements. *)
Definition accepted_member (kv : string * json.Value) : Prop :=
  json.find_field (fst kv) = None \/ snd kv = json.Null
  \/ exists s, snd kv = json.Str s.

Definition accepted_element (v : json.Value) : Prop :=
  v = json.Null \/ exists ms, v = json.Object ms /\ Forall accepted_member ms.

Definition accepted_document (v : json.Value) : Prop :=
  v = json.Null \/ exists vs, v = json.Array vs /\ Forall accepted_element vs.

(** The record array in the spec's words: an array of objects with the
    string members name, username and password. *)
Definition spec_record (v : json.Value) : Prop :=
  exists n u p, v = json.Object [("name", json.Str n); ("username", json.Str u);
                                 ("password", json.Str p)].

Definition spec_record_array (b : string) : Prop :=
  exists vs, json.parse b = Some (json.Array vs) /\ Forall spec_record vs.

(** A file system whose store holds the given plaintext. *)
Definition fs_raw (plaintext : string) : FS :=
  fs_set empty_fs "pw.scrypt" (Some (File plaintext 420)).

(** ** Notions used by the statements about the generator *)

(** [crypto/rand.Int] over a reader that replays a tape of bytes.  (The
    package calls it with the length of a non-empty charset, never with a
    bound that is not positive, where [Int] panics.) *)
#[local] Instance tape_rng : RandSource (list Z) := {|
  rand_Int := fun max tape =>
    if (max <=? 0)%Z then (None, tape) else rand.Int max tape
|}.

(** The [k] bytes of a number, the most significant first. *)
Fixpoint to_bytes (k : nat) (i : Z) : list Z :=
  match k with
  | O => []
  | S k' => ((i / 256 ^ Z.of_nat k') mod 256)%Z :: to_bytes k' i
  end.

(** The bytes that make [rand.Int], for the bound [max], draw the given
    numbers one after the other. *)
Definition encode (max : Z) (draws : list nat) : list Z :=
  concat (map (fun i => to_bytes (Z.to_nat ((rand.BitLen (max - 1) + 7) / 8))
                                 (Z.of_nat i)) draws).

(** Every byte of [s] is below 0x80. *)
Fixpoint all_ascii (s : string) : bool :=
  match s with
  | EmptyString => true
  | String c t => (byte c <? 0x80) && all_ascii t
  end.

(** The guarantee of the generator in characters: the password has
    [length] characters, each a character of the charset. *)
Definition char_guarantee (length : Z) (charset s : string) : Prop :=
  Z.of_nat (List.length (utf8.runes s)) = length
  /\ Forall (fun r => In r (utf8.runes charset)) (utf8.runes s).

(** The same in bytes. *)
Definition byte_guarantee (length : Z) (charset s : string) : Prop :=
  Z.of_nat (String.length s) = length
  /\ Forall (fun c => In c (list_ascii_of_string charset)) (list_ascii_of_string s).

(** The charset of one two-byte character, U+00E9. *)
Definition charset_e_acute : string := bytes [0xC3; 0xA9].

(** Each character of [s] is a single byte: [s] has as many characters
    as bytes. *)
Definition single_byte_chars (s : string) : bool :=
  (List.length (utf8.runes s) =? String.length s)%nat.

(** The charset of the same two bytes the other way round: no valid
    UTF-8, two characters of one invalid byte each. *)
Definition charset_A9_C3 : string := bytes [0xA9; 0xC3].

(** The stand-in for [scrypt] on a machine with the given allocation
    limit. *)
Definition with_limit (limit : Z) : Platform := {|
  scrypt_dec := fun c => Some c;
  scrypt_enc := fun p => Some p;
  enc_abort := fun old => old;
  enc_refuses_input := fun _ => false;
  create_perm := 420;
  chmod_allowed := fun _ => true;
  alloc_limit := limit
|}.

(** ** Notions used by the further statements about the store *)

(** [scrypt] decrypts what it encrypted. *)
Definition faithful_scrypt `{Platform} : Prop :=
  forall p c, scrypt_enc p = Some c -> scrypt_dec c = Some p.

(** A file system with a directory at the path of the store. *)
Definition fs_dir : FS := fs_set empty_fs "pw.scrypt" (Some (Dir 493)).

(** [pick charset draws]: the bytes of the charset at the drawn
    indices. *)
Fixpoint pick (charset : string) (draws : list Z) : string :=
  match draws with
  | [] => EmptyString
  | d :: rest =>
    match String.get (Z.to_nat d) charset with
    | Some c => String c (pick charset rest)
    | None => pick charset rest
    end
  end.

(** What [rand.Int] draws from a tape of bytes for a bound of at most
    256: each byte with its high bits cleared, down to the bit length of
    the bound less one; the bytes that are then not below the bound are
    passed over. *)
Definition draws (max : Z) (tape : list Z) : list Z :=
  filter (fun v => (v <? max)%Z)
         (map (fun b => Z.land (b mod 256) (Z.ones (rand.BitLen (max - 1)))) tape).

(** A [scrypt] whose runs of [scrypt enc] fail and close their input
    before the program has written to it. *)
Definition refusing_scrypt : Platform := {|
  scrypt_dec := fun c => Some c;
  scrypt_enc := fun _ => None;
  enc_abort := fun old => old;
  enc_refuses_input := fun _ => true;
  create_perm := 420;
  chmod_allowed := fun _ => true;
  alloc_limit := 2 ^ 48
|}.

(** ** The command line (src/main.go)

    The state a run of the program acts on: the file system, the source of
    randomness, the clipboard and what the program (and, in a panic, the
    run-time system) writes to the standard output and the standard
    error.  The [scrypt] command writes its own messages to the same
    standard error; they are not recorded. *)

Record World (R : Type) : Type := {
  w_fs : FS;
  w_rng : R;
  w_clip : option string;
  w_stdout : string;
  w_stderr : string
}.
Arguments w_fs {R} w.
Arguments w_rng {R} w.
Arguments w_clip {R} w.
Arguments w_stdout {R} w.
Arguments w_stderr {R} w.

(** What the program takes from its surroundings: whether
    [clipboard.WriteAll] of a text succeeds and the text of its error, the
    text of an error value ([err.Error()]), the name the program was
    started under, what [flag.PrintDefaults] prints, the report of a
    run-time panic, the default of the flag [-file]
    ([filepath.Join(os.Getenv("HOME"), "pw.scrypt")]), the number that
    [strconv.ParseInt(s, 0, strconv.IntSize)] reads or the text of its
    error, and a string as the verb [%q] prints it. *)
Class Console : Type := {
  clip_ok : string -> bool;
  clip_error : string;
  error_text : pw.error -> string;
  argv0 : string;
  flag_defaults : string;
  panic_text : pw.error -> string;
  home_file : string;
  ParseInt : string -> result string Z;
  quoted : string -> string
}.

Definition nl : string := String "010"%char EmptyString.

(** ** Package [flag], for the three flags of the program

    [flag.Parse] with the error handling [ExitOnError]: it returns with
    the values of the flags and the arguments that follow them, or ends
    the program after writing to the standard error. *)

Module flag.

Record Flags : Type := {
  file : string;
  password_length : Z;
  password_charset : string
}.

Inductive Parsed : Type :=
| Args (fl : Flags) (args : list string)
| Exit (text : string) (code : Z).

Section Parse.
Context `{Console}.

(** [flag.Usage]. *)
Definition Usage : string := "Usage of " ++ argv0 ++ ":" ++ nl ++ flag_defaults.

(** [failf]: the message, the usage, and the exit with status 2. *)
Definition failf (msg : string) : Parsed := Exit (msg ++ nl ++ Usage) 2%Z.

(** The text before and after the first equals sign. *)
Fixpoint cut_equals (s : string) : option (string * string) :=
  match s with
  | EmptyString => None
  | String c t =>
    if (c =? "=")%char then Some (EmptyString, t)
    else match cut_equals t with
         | Some (a, b) => Some (String c a, b)
         | None => None
         end
  end.

(** The name of a flag and its value, when an equals sign follows the
    first byte of the name. *)
Definition name_value (name : string) : string * option string :=
  match name with
  | EmptyString => (EmptyString, None)
  | String c t =>
    match cut_equals t with
    | Some (a, b) => (String c a, Some b)
    | None => (name, None)
    end
  end.

(** The flags that the program defines. *)
Definition defined (name : string) : bool :=
  (name =? "file")%string || (name =? "password-length")%string
  || (name =? "password-charset")%string.

(** [flag.Value.Set] of a defined flag. *)
Definition set (fl : Flags) (name value : string) : Flags + Parsed :=
  if (name =? "file")%string then
    inl {| file := value; password_length := password_length fl;
           password_charset := password_charset fl |}
  else if (name =? "password-length")%string then
    match ParseInt value with
    | Ok v => inl {| file := file fl; password_length := v;
                     password_charset := password_charset fl |}
    | Err e => inr (failf ("invalid value " ++ quoted value ++ " for flag -" ++ name
                           ++ ": " ++ e))
    end
  else
    inl {| file := file fl; password_length := password_length fl;
           password_charset := value |}.

(** [Parse]: the loop over [parseOne]. *)
Fixpoint Parse (fl : Flags) (arguments : list string) : Parsed :=
  match arguments with
  | [] => Args fl []
  | s :: rest =>
    match s with
    | String c0 (String c1 t) =>
      if negb (c0 =? "-")%char then Args fl arguments
      else if (c1 =? "-")%char && (t =? EmptyString)%string then Args fl rest
      else
        let name := if (c1 =? "-")%char then t else String c1 t in
        match name with
        | EmptyString => failf ("bad flag syntax: " ++ s)
        | String n0 _ =>
          if (n0 =? "-")%char || (n0 =? "=")%char then failf ("bad flag syntax: " ++ s)
          else
            let '(name', value) := name_value name in
            if negb (defined name') then
              if (name' =? "help")%string || (name' =? "h")%string then Exit Usage 0%Z
              else failf ("flag provided but not defined: -" ++ name')
            else
              match value, rest with
              | Some v, _ =>
                match set fl name' v with
                | inl fl' => Parse fl' rest
                | inr stop => stop
                end
              | None, v :: rest' =>
                match set fl name' v with
                | inl fl' => Parse fl' rest'
                | inr stop => stop
                end
              | None, [] => failf ("flag needs an argument: -" ++ name')
              end
        end
    | _ => Args fl arguments
    end
  end.

(** The defaults of the three flags. *)
Definition defaults : Flags := {|
  file := home_file;
  password_length := 16;
  password_charset := "abcdefghijklmnopqrstuvwxyzABCDEFGHIJKLMNOPQRSTUVWXYZ0123456789-"
|}.

End Parse.

End flag.

Module cmd.

Section Commands.
Context {R : Type} `{Platform} `{RandSource R} `{Console}.

Definition set_fs (w : World R) (fs : FS) : World R :=
  {| w_fs := fs; w_rng := w_rng w; w_clip := w_clip w;
     w_stdout := w_stdout w; w_stderr := w_stderr w |}.

Definition set_rng (w : World R) (rng : R) : World R :=
  {| w_fs := w_fs w; w_rng := rng; w_clip := w_clip w;
     w_stdout := w_stdout w; w_stderr := w_stderr w |}.

Definition set_clip (w : World R) (text : string) : World R :=
  {| w_fs := w_fs w; w_rng := w_rng w; w_clip := Some text;
     w_stdout := w_stdout w; w_stderr := w_stderr w |}.

(** [fmt.Print...] to the standard output. *)
Definition print (w : World R) (text : string) : World R :=
  {| w_fs := w_fs w; w_rng := w_rng w; w_clip := w_clip w;
     w_stdout := w_stdout w ++ text; w_stderr := w_stderr w |}.

(** [fmt.Fprint...(os.Stderr, ...)] followed by [os.Exit(1)]. *)
Definition die (w : World R) (text : string) : World R * Z :=
  ({| w_fs := w_fs w; w_rng := w_rng w; w_clip := w_clip w;
      w_stdout := w_stdout w; w_stderr := w_stderr w ++ text |}, 1%Z).

(** The block [if err != nil] of every command: the error is printed as
    [Error: %v] and the program exits with status 1; a panic ends the
    program with status 2. *)
Definition fail (w : World R) (e : pw.error) : World R * Z :=
  if pw.is_panic e then
    ({| w_fs := w_fs w; w_rng := w_rng w; w_clip := w_clip w;
        w_stdout := w_stdout w; w_stderr := w_stderr w ++ panic_text e |}, 2%Z)
  else die w ("Error: " ++ error_text e ++ nl).

(** The block [if err = clipboard.WriteAll(...); err != nil], the last
    statement of the commands that hand out a password; a failed write
    leaves the clipboard as it was. *)
Definition to_clipboard (w : World R) (text : string) : World R * Z :=
  if clip_ok text then (set_clip w text, 0%Z)
  else die w ("Error: unable to access clipboard: " ++ clip_error ++ nl).

Definition initCmd (filename : string) (w : World R) : World R * Z :=
  match pw.Init (w_fs w) filename with
  | (fs', Some e) => fail (set_fs w fs') e
  | (fs', None) => (print (set_fs w fs') (filename ++ " initialized" ++ nl), 0%Z)
  end.

Definition getCmd (filename name : string) (w : World R) : World R * Z :=
  match pw.Get (w_fs w) filename name with
  | Err e => fail w e
  | Ok entry =>
    let w1 := if negb (Username entry =? EmptyString)%string
              then print w (Username entry ++ nl) else w in
    to_clipboard w1 (Password entry)
  end.

Definition listCmd (filename : string) (w : World R) : World R * Z :=
  match pw.List (w_fs w) filename with
  | Err e => fail w e
  | Ok entries =>
    (fold_left (fun w1 entry => print w1 (Name entry ++ ": " ++ Username entry ++ nl))
               (elems entries) w, 0%Z)
  end.

Definition addCmd (passwordLength : Z) (passwordChars filename name username : string)
  (w : World R) : World R * Z :=
  match pw.GeneratePassword passwordLength passwordChars (w_rng w) with
  | (Err e, rng') => fail (set_rng w rng') e
  | (Ok password, rng') =>
    let w1 := set_rng w rng' in
    match pw.Add (w_fs w1) filename
            {| Name := name; Username := username; Password := password |} with
    | (fs', Some e) => fail (set_fs w1 fs') e
    | (fs', None) => to_clipboard (set_fs w1 fs') password
    end
  end.

Definition updateCmd (passwordLength : Z) (passwordChars filename name username : string)
  (w : World R) : World R * Z :=
  match pw.GeneratePassword passwordLength passwordChars (w_rng w) with
  | (Err e, rng') => fail (set_rng w rng') e
  | (Ok password, rng') =>
    let w1 := set_rng w rng' in
    match pw.Update (w_fs w1) filename
            {| Name := name; Username := username; Password := password |} with
    | (fs', Some e) => fail (set_fs w1 fs') e
    | (fs', None) => to_clipboard (set_fs w1 fs') password
    end
  end.

Definition removeCmd (filename name : string) (w : World R) : World R * Z :=
  match pw.Remove (w_fs w) filename name with
  | (fs', Some e) => fail (set_fs w fs') e
  | (fs', None) => (set_fs w fs', 0%Z)
  end.

Definition generateCmd (passwordLength : Z) (passwordChars : string)
  (w : World R) : World R * Z :=
  match pw.GeneratePassword passwordLength passwordChars (w_rng w) with
  | (Err e, rng') => fail (set_rng w rng') e
  | (Ok password, rng') => to_clipboard (set_rng w rng') password
  end.

(** The text printed when no command is given. *)
Definition usage : string :=
  "Usage of " ++ argv0 ++ ":" ++ nl
  ++ nl
  ++ "Commands:" ++ nl
  ++ "  init      Create an empty encrypted passwords file" ++ nl
  ++ "  get       Lookup a password" ++ nl
  ++ "  list      List all passwords" ++ nl
  ++ "  add       Add a password" ++ nl
  ++ "  update    Update a password" ++ nl
  ++ "  remove    Remove a password" ++ nl
  ++ "  generate  Generates a password without storing it" ++ nl
  ++ nl
  ++ "Options:" ++ nl
  ++ flag_defaults.

(** [main], from the values of the flags [-file], [-password-length] and
    [-password-charset] and the arguments that follow the flags; the
    result is the world it leaves and the exit status. *)
Definition main (filename : string) (passwordLength : Z) (passwordChars : string)
  (args : list string) (w : World R) : World R * Z :=
  match args with
  | [] => die w usage
  | command :: operands =>
    if (command =? "init")%string then initCmd filename w
    else if (command =? "get")%string then
      match operands with
      | name :: _ => getCmd filename name w
      | [] => die w ("Name required" ++ nl)
      end
    else if (command =? "list")%string then listCmd filename w
    else if (command =? "add")%string then
      match operands with
      | name :: username :: _ =>
        addCmd passwordLength passwordChars filename name username w
      | _ => die w ("Name and username required" ++ nl)
      end
    else if (command =? "update")%string then
      match operands with
      | name :: username :: _ =>
        updateCmd passwordLength passwordChars filename name username w
      | _ => die w ("Name and username required" ++ nl)
      end
    else if (command =? "remove")%string then
      match operands with
      | name :: _ => removeCmd filename name w
      | [] => die w ("Name required" ++ nl)
      end
    else if (command =? "generate")%string then
      generateCmd passwordLength passwordChars w
    else (print w ("Unknown command: " ++ command ++ nl), 1%Z)
  end.

(** The program, from the arguments it is started with
    ([os.Args[1:]]). *)
Definition run (arguments : list string) (w : World R) : World R * Z :=
  match flag.Parse flag.defaults arguments with
  | flag.Exit text code =>
    ({| w_fs := w_fs w; w_rng := w_rng w; w_clip := w_clip w;
        w_stdout := w_stdout w; w_stderr := w_stderr w ++ text |}, code)
  | flag.Args fl args =>
    main (flag.file fl) (flag.password_length fl) (flag.password_charset fl) args w
  end.

End Commands.

End cmd.

(** A console whose clipboard accepts every text. *)
#[local] Instance plain_console : Console := {|
  clip_ok := fun _ => true;
  clip_error := "clipboard unavailable";
  error_text := fun _ => "error";
  argv0 := "gopw";
  flag_defaults := EmptyString;
  panic_text := fun _ => "panic";
  home_file := "pw.scrypt";
  ParseInt := fun s => if (s =? "4")%string then Ok 4%Z else Err "parse error";
  quoted := fun s => s
|}.

(** A world with the given file system and tape of random bytes, an
    empty clipboard and no output yet. *)
Definition world_of (fs : FS) (tape : list Z) : World (list Z) :=
  {| w_fs := fs; w_rng := tape; w_clip := None;
     w_stdout := EmptyString; w_stderr := EmptyString |}.

(** ** Notions used by the statements about the command line *)

(** How a run may end: with status 0 and nothing on the standard error,
    with status 1 and a message on the standard error, or, after a
    panic, with status 2. *)
Definition ends_well {R : Type} `{Console} (w w' : World R) (code : Z) : Prop :=
  (code = 0%Z /\ w_stderr w' = w_stderr w)
  \/ (code = 1%Z /\ exists msg, msg <> EmptyString /\ w_stderr w' = w_stderr w ++ msg)
  \/ (code = 2%Z /\ exists e, pw.is_panic e = true
                            /\ w_stderr w' = w_stderr w ++ panic_text e).

(** A run that has touched neither the file system nor the random
    source, the clipboard or the standard output. *)
Definition untouched {R : Type} (w w' : World R) : Prop :=
  w_fs w' = w_fs w /\ w_rng w' = w_rng w /\ w_clip w' = w_clip w
  /\ w_stdout w' = w_stdout w.

(** The names of the commands. *)
Definition is_command (c : string) : bool :=
  existsb (String.eqb c) ["init"; "get"; "list"; "add"; "update"; "remove"; "generate"].

(** An invocation that is rejected before any command runs: no command,
    an unknown command, or a command without its operands. *)
Definition rejected (args : list string) : bool :=
  match args with
  | [] => true
  | c :: operands =>
    if (c =? "get")%string || (c =? "remove")%string then (List.length operands <? 1)%nat
    else if (c =? "add")%string || (c =? "update")%string
         then (List.length operands <? 2)%nat
    else negb (is_command c)
  end.

(** A world whose store holds the entries A, B and C. *)
Definition world_ABC : World (list Z) := world_of fs_ABC [0; 1; 2; 3; 4; 5; 6; 7]%Z.

(** * The store operations *)

Section StoreFacts.
Context `{Platform}.

Lemma length_eqb_0 (s : string) :
  (String.length s =? 0)%nat = true <-> s = EmptyString.
Proof.
  destruct s; simpl; split; intro E; try reflexivity; discriminate.
Qed.

Lemma length_append (a b : string) :
  String.length (a ++ b) = (String.length a + String.length b)%nat.
Proof. induction a as [|x a IH]; simpl; [reflexivity | rewrite IH; reflexivity]. Qed.

(** A directory on the way to a path is a shorter path. *)
Lemma ancestors_from_longer (rest seen d : string) :
  In d (ancestors_from seen rest) ->
  (String.length seen <= String.length d
   /\ String.length d < String.length seen + String.length rest)%nat.
Proof.
  revert seen. induction rest as [|c rest IH]; intros seen Hd; simpl in Hd; [contradiction|].
  assert (Hmore : In d (ancestors_from (seen ++ String c EmptyString) rest) ->
                  (String.length seen <= String.length d
                   /\ String.length d < String.length seen + String.length (String c rest))%nat).
  { intro Hin. apply IH in Hin. rewrite length_append in Hin. simpl in *. lia. }
  destruct ((c =? "/")%char && negb (seen =? EmptyString)%string); [|auto].
  destruct Hd as [<-|Hd]; [simpl; lia | auto].
Qed.

Lemma ancestors_other (f d : string) : In d (ancestors f) -> d <> f.
Proof.
  intros Hd E. apply ancestors_from_longer in Hd. subst d. simpl in Hd. lia.
Qed.

(** The walk to a path does not look at the path itself. *)
Lemma walk_fs_set (fs : FS) (f : string) (n : option node) (dirs : list string) :
  (forall d, In d dirs -> d <> f) -> walk (fs_set fs f n) dirs = walk fs dirs.
Proof.
  induction dirs as [|d dirs IH]; intro Hd; simpl; [reflexivity|].
  unfold fs_set at 1. destruct (String.eqb_spec d f) as [E|_].
  - exfalso. apply (Hd d); [left; reflexivity | exact E].
  - rewrite IH by (intros d' Hd'; apply Hd; right; exact Hd'). reflexivity.
Qed.

Lemma entry_fs_set_same (fs : FS) (f : string) (n : option node) :
  (String.length f =? 0)%nat = false -> walk fs (ancestors f) = Open ->
  entry (fs_set fs f n) f = n.
Proof.
  intros E Hw. unfold entry. rewrite E, (walk_fs_set fs f n _ (ancestors_other f)), Hw.
  unfold fs_set. rewrite String.eqb_refl. reflexivity.
Qed.

Lemma read_some_path (fs : FS) (f : string) (data : slice PasswordEntry) :
  pw.read fs f = Ok data -> (String.length f =? 0)%nat = false.
Proof.
  unfold pw.read, os.Stat, entry.
  destruct (String.length f =? 0)%nat; [discriminate | reflexivity].
Qed.

(** [write] fails only with its own two errors, or panics. *)
Lemma write_errors (fs fs' : FS) (f : string) (d : slice PasswordEntry) (e : pw.error) :
  pw.write fs f d = (fs', Some e) ->
  e = pw.ErrScryptEnc \/ e = pw.ErrChmod \/ e = pw.PanicNilDereference.
Proof.
  unfold pw.write.
  destruct (run_scrypt_enc fs f (json.Marshal d)) as [fs1 [| |]].
  - destruct (os.Chmod fs1 f pw.mode_0600); intro E; inversion E; auto.
  - intro E; inversion E; auto.
  - intro E; inversion E; auto.
Qed.

(** A successful [write] leaves an encryption of the encoded data in a
    regular file of mode 0600 and touches no other path. *)
Lemma write_ok (fs fs' : FS) (f : string) (d : slice PasswordEntry) :
  pw.write fs f d = (fs', None) ->
  stored fs' f d /\ forall p, p <> f -> fs' p = fs p.
Proof.
  unfold pw.write, run_scrypt_enc, os.Chmod.
  destruct (String.length f =? 0)%nat eqn:Ef;
    [destruct (enc_refuses_input _); discriminate|].
  destruct (walk fs (ancestors f)) eqn:Hw;
    try (destruct (enc_refuses_input _); discriminate).
  destruct (fs f) as [[c0 p0|p0|]|] eqn:Eold;
    try (destruct (enc_refuses_input _); discriminate);
    (destruct (scrypt_enc (json.Marshal d)) as [c|] eqn:Eenc;
     [|destruct (enc_refuses_input _); discriminate]);
    destruct (chmod_allowed f); try discriminate;
    rewrite entry_fs_set_same by assumption; intro E; inversion E; subst; clear E;
    (split;
     [ exists c; rewrite entry_fs_set_same;
       [auto | exact Ef
        | rewrite (walk_fs_set fs f _ _ (ancestors_other f)); exact Hw]
     | intros p Hp; unfold fs_set;
       destruct (String.eqb_spec p f); [contradiction | reflexivity] ]).
Qed.

Lemma update_loop_none (data : list PasswordEntry) (R : PasswordEntry) :
  Forall (fun e => Name e <> Name R) data -> pw.update_loop data R = (data, false).
Proof.
  induction 1 as [|e l He _ IH]; simpl; [reflexivity|].
  destruct (String.eqb_spec (Name e) (Name R)); [contradiction|].
  rewrite IH. reflexivity.
Qed.


Lemma remove_fold (name : string) (data acc : list PasswordEntry) (found : bool) :
  fold_left (pw.remove_step name) data (acc, found)
  = ((acc ++ filter (other_name name) data)%list,
     found || existsb (fun e => (Name e =? name)%string) data).
Proof.
  revert acc found. induction data as [|e l IH]; intros acc found; simpl.
  - rewrite app_nil_r, orb_false_r. reflexivity.
  - unfold other_name at 1. destruct (Name e =? name)%string; simpl; rewrite IH.
    + rewrite orb_true_r. reflexivity.
    + rewrite <- app_assoc. reflexivity.
Qed.

Lemma remove_loop_spec (name : string) (data : list PasswordEntry) :
  pw.remove_loop data name
  = (filter (other_name name) data, existsb (fun e => (Name e =? name)%string) data).
Proof. unfold pw.remove_loop. rewrite remove_fold. reflexivity. Qed.

Lemma existsb_name_false (name : string) (data : list PasswordEntry) :
  Forall (fun e => Name e <> name) data ->
  existsb (fun e => (Name e =? name)%string) data = false.
Proof.
  induction 1 as [|e l He _ IH]; simpl; [reflexivity|].
  destruct (String.eqb_spec (Name e) name); [contradiction | exact IH].
Qed.

Lemma existsb_name_true (name : string) (data : list PasswordEntry) :
  Exists (fun e => Name e = name) data ->
  existsb (fun e => (Name e =? name)%string) data = true.
Proof.
  induction 1 as [e l He|e l _ IH]; simpl.
  - rewrite He, String.eqb_refl. reflexivity.
  - rewrite IH. apply orb_true_r.
Qed.

Lemma exists_loop_existsb (name : string) (data : list PasswordEntry) :
  pw.exists_loop data name = existsb (fun e => (Name e =? name)%string) data.
Proof.
  induction data as [|e l IH]; simpl; [reflexivity|].
  destruct (Name e =? name)%string; [reflexivity | exact IH].
Qed.



End StoreFacts.

Section StoreInvariants.
Context `{Platform}.



(** C5.  An operation that fails with a domain error (Add with
    [ErrPwAlreadyExists], Update or Remove with [ErrPwNotFound]) has
    written nothing: the file system is the one it started from. *)
Theorem domain_error_no_write (fs fs' : FS) (filename name : string)
  (R : PasswordEntry) :
  pw.Add fs filename R = (fs', Some pw.ErrPwAlreadyExists)
  \/ pw.Update fs filename R = (fs', Some pw.ErrPwNotFound)
  \/ pw.Remove fs filename name = (fs', Some pw.ErrPwNotFound) ->
  fs' = fs.
Proof.
  assert (W : forall d e, pw.write fs filename d = (fs', Some e) ->
                          e <> pw.ErrPwAlreadyExists /\ e <> pw.ErrPwNotFound).
  { intros d e Hw. destruct (write_errors _ _ _ _ _ Hw) as [-> | [-> | ->]];
      split; discriminate. }
  assert (Rd : forall e, pw.read fs filename = Err e ->
                         e <> pw.ErrPwAlreadyExists /\ e <> pw.ErrPwNotFound).
  { intro e. unfold pw.read.
    destruct (os.Stat fs filename) as [[|]| |]; try (intro E; inversion E; split; discriminate).
    destruct (run_scrypt_dec fs filename); [|intro E; inversion E; split; discriminate].
    destruct (json.Unmarshal s); intro E; inversion E; split; discriminate. }
  unfold pw.Add, pw.Update, pw.Remove.
  destruct (String.length filename =? 0)%nat; [intuition congruence|].
  destruct (pw.read fs filename) as [d|e] eqn:Hread.
  - intros [E|[E|E]].
    + destruct (pw.exists_loop (elems d) (Name R)); [congruence|].
      destruct (W _ _ E) as [C _]. contradiction.
    + destruct (pw.update_loop (elems d) R) as [d' [|]]; simpl in E; [|congruence].
      destruct (W _ _ E) as [_ C]. contradiction.
    + destruct (pw.remove_loop (elems d) name) as [d' [|]]; simpl in E; [|congruence].
      destruct (W _ _ E) as [_ C]. contradiction.
  - intros [E|[E|E]]; inversion E; reflexivity.
Qed.

(** The walk gets through directories. *)
Lemma walk_through (fs : FS) (before rest : list string) :
  Forall (fun d => exists perm, fs d = Some (Dir perm)) before ->
  walk fs (before ++ rest) = walk fs rest.
Proof.
  induction 1 as [|d l [perm Hd] _ IH]; simpl; [reflexivity|].
  rewrite Hd. exact IH.
Qed.

(** [stat] reports that a path does not exist exactly when a component
    of it is missing behind directories. *)
Lemma nonexistent_entry (fs : FS) (path : string) :
  nonexistent fs path -> entry fs path = None.
Proof.
  intros (before & p & after & Hsplit & Hdirs & Hp). unfold entry.
  destruct (String.length path =? 0)%nat; [reflexivity|].
  destruct (exists_last (l := p :: after)) as (mid & z & Hlast); [discriminate|].
  rewrite Hlast, app_assoc in Hsplit. apply app_inj_tail in Hsplit.
  destruct Hsplit as [Hanc <-]. rewrite Hanc.
  destruct mid as [|m mid]; simpl in Hlast.
  - inversion Hlast; subst. rewrite app_nil_r, <- (app_nil_r before).
    rewrite (walk_through fs before [] Hdirs). simpl. exact Hp.
  - inversion Hlast; subst. rewrite (walk_through fs before _ Hdirs).
    simpl. rewrite Hp. reflexivity.
Qed.

(** C9, amended.  On a non-empty path that does not exist (the path, or
    a directory on the way to it, is missing behind directories), Get,
    List, Add, Update and Remove fail with [ErrPwFileNotFound], which
    differs from the errors of a missing entry and of a collision; Init
    on a path that names a file or a directory fails with
    [ErrPwFileAlreadyExists]. *)
Theorem missing_file_errors (fs : FS) (filename name : string)
  (R : PasswordEntry) :
  filename <> EmptyString ->
  (nonexistent fs filename ->
     pw.Get fs filename name = Err pw.ErrPwFileNotFound
     /\ pw.List fs filename = Err pw.ErrPwFileNotFound
     /\ pw.Add fs filename R = (fs, Some pw.ErrPwFileNotFound)
     /\ pw.Update fs filename R = (fs, Some pw.ErrPwFileNotFound)
     /\ pw.Remove fs filename name = (fs, Some pw.ErrPwFileNotFound))
  /\ (exists_at fs filename ->
        pw.Init fs filename = (fs, Some pw.ErrPwFileAlreadyExists))
  /\ pw.ErrPwFileNotFound <> pw.ErrPwNotFound
  /\ pw.ErrPwFileNotFound <> pw.ErrPwAlreadyExists
  /\ pw.ErrPwFileNotFound <> pw.ErrPwFileAlreadyExists.
Proof.
  intro Hne.
  assert (Ef : (String.length filename =? 0)%nat = false).
  { destruct (String.length filename =? 0)%nat eqn:E; [|reflexivity].
    apply length_eqb_0 in E. contradiction. }
  split; [|split; [|repeat split; discriminate]].
  - intro Hnone.
    assert (Hr : pw.read fs filename = Err pw.ErrPwFileNotFound).
    { unfold pw.read, os.Stat. rewrite (nonexistent_entry _ _ Hnone). reflexivity. }
    unfold pw.Get, pw.List, pw.Add, pw.Update, pw.Remove.
    rewrite Ef, Hr. repeat split; reflexivity.
  - intros [Hdirs (n & Hn & Hreach)]. unfold pw.Init, os.Stat, entry. rewrite Ef.
    rewrite <- (app_nil_r (ancestors filename)), (walk_through fs _ [] Hdirs).
    simpl. rewrite Hn.
    destruct n; [reflexivity | reflexivity | contradiction].
Qed.

End StoreInvariants.

(** C9 as stated fails below a regular file: nothing is at the path
    [plain/x] when [plain] is a regular file, yet [stat] fails there with
    "not a directory", which is not "does not exist", and every operation
    returns that error as it is instead of [ErrPwFileNotFound]. *)
Lemma missing_file_below_file :
  (forall p, p <> "plain" -> fs_plain p = None)
  /\ pw.Get fs_plain "plain/x" "A" = Err pw.ErrStat
  /\ pw.List fs_plain "plain/x" = Err pw.ErrStat
  /\ pw.Add fs_plain "plain/x" entry_A = (fs_plain, Some pw.ErrStat)
  /\ pw.Update fs_plain "plain/x" entry_A = (fs_plain, Some pw.ErrStat)
  /\ pw.Remove fs_plain "plain/x" "A" = (fs_plain, Some pw.ErrStat)
  /\ pw.ErrStat <> pw.ErrPwFileNotFound.
Proof.
  split; [|repeat split; discriminate].
  intros p Hp. unfold fs_plain, fs_set, empty_fs.
  destruct (String.eqb_spec p "plain"); [contradiction | reflexivity].
Qed.

Lemma missing_file_errors_witness :
  pw.Get empty_fs "pw.scrypt" "A" = Err pw.ErrPwFileNotFound
  /\ pw.Get fs_ABC "home/pw.scrypt" "A" = Err pw.ErrPwFileNotFound
  /\ pw.Init fs_ABC "pw.scrypt" = (fs_ABC, Some pw.ErrPwFileAlreadyExists).
Proof.
  assert (Hne : "pw.scrypt" <> EmptyString) by discriminate.
  assert (Hne' : "home/pw.scrypt" <> EmptyString) by discriminate.
  split; [|split].
  - apply (proj1 (missing_file_errors empty_fs "pw.scrypt" "A" entry_A Hne)).
    exists [], "pw.scrypt", []. repeat split. constructor.
  - apply (proj1 (missing_file_errors fs_ABC "home/pw.scrypt" "A" entry_A Hne')).
    exists [], "home", ["home/pw.scrypt"]. repeat split. constructor.
  - apply (proj1 (proj2 (missing_file_errors fs_ABC "pw.scrypt" "A" entry_A Hne))).
    split; [constructor|].
    exists (File (json.Marshal (Elems [entry_A; entry_B; entry_C])) 420).
    split; [reflexivity | discriminate].
Defined.




Lemma domain_error_no_write_witness :
  fst (pw.Add fs_ABC "pw.scrypt" entry_B') = fs_ABC.
Proof.
  apply (domain_error_no_write fs_ABC _ "pw.scrypt" "B" entry_B').
  left. vm_compute. reflexivity.
Defined.

(** * UTF-8: decoding and encoding agree *)

(* a = k*m + (a - k*m) *)
Lemma mod_window (a m k : N) :
  k * m <= a -> a < k * m + m -> a mod m = a - k * m.
Proof.
  intros H1 H2. symmetry. apply (N.mod_unique a m k); lia.
Qed.

Lemma div_window (a m k : N) :
  k * m <= a -> a < k * m + m -> a / m = k.
Proof.
  intros H1 H2. symmetry. apply (N.div_unique a m k (a - k * m)); lia.
Qed.

Lemma two_byte_arith (a b : N) :
  0xC2 <= a -> a < 0xE0 -> 0x80 <= b -> b <= 0xBF ->
  let r := (a mod 32) * 64 + b mod 64 in
  0x80 <= r /\ r <= 0x7FF /\ 0xC0 + r / 64 = a /\ 0x80 + r mod 64 = b.
Proof.
  intros Ha1 Ha2 Hb1 Hb2.
  rewrite (mod_window a 32 6), (mod_window b 64 2) by lia.
  intro r.
  assert (Hd : r / 64 = a - 192) by (apply div_window; subst r; lia).
  assert (Hm : r mod 64 = b - 128) by (rewrite (mod_window r 64 (a - 192)); subst r; lia).
  rewrite Hd, Hm. subst r. lia.
Qed.

Lemma three_byte_arith (a b c : N) :
  0xE0 <= a -> a < 0xF0 -> 0x80 <= b -> b <= 0xBF -> 0x80 <= c -> c <= 0xBF ->
  (a = 0xE0 -> 0xA0 <= b) -> (a = 0xED -> b <= 0x9F) ->
  let r := (a mod 16) * 4096 + (b mod 64) * 64 + c mod 64 in
  0x800 <= r /\ r <= 0xFFFF /\ (r < 0xD800 \/ 0xDFFF < r)
  /\ 0xE0 + r / 4096 = a /\ 0x80 + (r / 64) mod 64 = b /\ 0x80 + r mod 64 = c.
Proof.
  intros Ha1 Ha2 Hb1 Hb2 Hc1 Hc2 HE0 HED.
  rewrite (mod_window a 16 14), (mod_window b 64 2), (mod_window c 64 2) by lia.
  intro r.
  assert (H1 : r / 4096 = a - 224) by (apply div_window; subst r; lia).
  assert (H2 : r / 64 = (a - 224) * 64 + (b - 128)) by (apply div_window; subst r; lia).
  assert (H3 : (r / 64) mod 64 = b - 128)
    by (rewrite H2; rewrite (mod_window _ 64 (a - 224)); lia).
  assert (H4 : r mod 64 = c - 128)
    by (rewrite (mod_window r 64 ((a - 224) * 64 + (b - 128))); subst r; lia).
  rewrite H1, H3, H4. subst r. lia.
Qed.

Lemma four_byte_arith (a b c d : N) :
  0xF0 <= a -> a <= 0xF4 -> 0x80 <= b -> b <= 0xBF -> 0x80 <= c -> c <= 0xBF ->
  0x80 <= d -> d <= 0xBF ->
  (a = 0xF0 -> 0x90 <= b) -> (a = 0xF4 -> b <= 0x8F) ->
  let r := (a mod 8) * 262144 + (b mod 64) * 4096 + (c mod 64) * 64 + d mod 64 in
  0x10000 <= r /\ r <= 0x10FFFF
  /\ 0xF0 + r / 262144 = a /\ 0x80 + (r / 4096) mod 64 = b
  /\ 0x80 + (r / 64) mod 64 = c /\ 0x80 + r mod 64 = d.
Proof.
  intros Ha1 Ha2 Hb1 Hb2 Hc1 Hc2 Hd1 Hd2 HF0 HF4.
  rewrite (mod_window a 8 30), (mod_window b 64 2), (mod_window c 64 2),
    (mod_window d 64 2) by lia.
  intro r.
  assert (H1 : r / 262144 = a - 240) by (apply div_window; subst r; lia).
  assert (H2 : r / 4096 = (a - 240) * 64 + (b - 128)) by (apply div_window; subst r; lia).
  assert (H3 : r / 64 = ((a - 240) * 64 + (b - 128)) * 64 + (c - 128))
    by (apply div_window; subst r; lia).
  assert (H4 : (r / 4096) mod 64 = b - 128)
    by (rewrite H2; rewrite (mod_window _ 64 (a - 240)); lia).
  assert (H5 : (r / 64) mod 64 = c - 128)
    by (rewrite H3; rewrite (mod_window _ 64 ((a - 240) * 64 + (b - 128))); lia).
  assert (H6 : r mod 64 = d - 128)
    by (rewrite (mod_window r 64 (((a - 240) * 64 + (b - 128)) * 64 + (c - 128)));
        subst r; lia).
  rewrite H1, H4, H5, H6. subst r. lia.
Qed.

Lemma byte_lt_256 (c : ascii) : byte c < 256.
Proof. apply N_ascii_bounded. Qed.

Lemma ascii_of_byte (c : ascii) : ascii_of_N (byte c) = c.
Proof. apply ascii_N_embedding. Qed.

Lemma lead_spec (a : N) (sz : nat) (lo hi : N) :
  utf8.lead a = Some (sz, lo, hi) ->
  0x80 <= lo /\ hi <= 0xBF /\
  ((sz = 2%nat /\ 0xC2 <= a /\ a < 0xE0)
   \/ (sz = 3%nat /\ 0xE0 <= a /\ a < 0xF0
       /\ (a = 0xE0 -> 0xA0 <= lo) /\ (a = 0xED -> hi <= 0x9F))
   \/ (sz = 4%nat /\ 0xF0 <= a /\ a <= 0xF4
       /\ (a = 0xF0 -> 0x90 <= lo) /\ (a = 0xF4 -> hi <= 0x8F))).
Proof.
  unfold utf8.lead.
  repeat match goal with
         | |- context [if ?b then _ else _] => destruct b eqn:?
         end;
    intro E; inversion E; subst; clear E;
    repeat match goal with
           | H : (_ <? _) = true |- _ => apply N.ltb_lt in H
           | H : (_ <? _) = false |- _ => apply N.ltb_ge in H
           | H : (_ =? _) = true |- _ => apply N.eqb_eq in H
           | H : (_ =? _) = false |- _ => apply N.eqb_neq in H
           end;
    lia.
Qed.

Ltac bool_to_prop :=
  repeat match goal with
         | H : (_ || _) = false |- _ => apply orb_false_iff in H; destruct H
         | H : (_ && _) = true |- _ => apply andb_true_iff in H; destruct H
         | H : negb _ = false |- _ => apply negb_false_iff in H
         | H : (_ <? _) = true |- _ => apply N.ltb_lt in H
         | H : (_ <? _) = false |- _ => apply N.ltb_ge in H
         | H : (_ <=? _) = true |- _ => apply N.leb_le in H
         | H : (_ <=? _) = false |- _ => apply N.leb_gt in H
         | H : (_ =? _) = true |- _ => apply N.eqb_eq in H
         | H : (_ =? _) = false |- _ => apply N.eqb_neq in H
         end.

Lemma encode_two (a b : N) :
  0xC2 <= a -> a < 0xE0 -> 0x80 <= b -> b <= 0xBF ->
  utf8.EncodeRune ((a mod 32) * 64 + b mod 64) = bytes [a; b].
Proof.
  intros. destruct (two_byte_arith a b) as (R1 & R2 & E1 & E2); try assumption.
  unfold utf8.EncodeRune.
  replace (_ <=? 0x7F) with false by (symmetry; apply N.leb_gt; lia).
  replace (_ <=? 0x7FF) with true by (symmetry; apply N.leb_le; lia).
  rewrite E1, E2. reflexivity.
Qed.

Lemma encode_three (a b c : N) :
  0xE0 <= a -> a < 0xF0 -> 0x80 <= b -> b <= 0xBF -> 0x80 <= c -> c <= 0xBF ->
  (a = 0xE0 -> 0xA0 <= b) -> (a = 0xED -> b <= 0x9F) ->
  utf8.EncodeRune ((a mod 16) * 4096 + (b mod 64) * 64 + c mod 64) = bytes [a; b; c].
Proof.
  intros. destruct (three_byte_arith a b c) as (R1 & R2 & R3 & E1 & E2 & E3); try assumption.
  unfold utf8.EncodeRune, utf8.MaxRune, utf8.enc3.
  replace (_ <=? 0x7F) with false by (symmetry; apply N.leb_gt; lia).
  replace (_ <=? 0x7FF) with false by (symmetry; apply N.leb_gt; lia).
  replace (0x10FFFF <? _) with false by (symmetry; apply N.ltb_ge; lia).
  replace (_ <=? 0xFFFF) with true by (symmetry; apply N.leb_le; lia).
  replace ((0xD800 <=? _) && (_ <=? 0xDFFF)) with false.
  2:{ symmetry. apply andb_false_iff. destruct R3; [left; apply N.leb_gt | right; apply N.leb_gt]; lia. }
  simpl orb. cbv iota. rewrite E1, E2, E3. reflexivity.
Qed.

Lemma encode_four (a b c d : N) :
  0xF0 <= a -> a <= 0xF4 -> 0x80 <= b -> b <= 0xBF -> 0x80 <= c -> c <= 0xBF ->
  0x80 <= d -> d <= 0xBF ->
  (a = 0xF0 -> 0x90 <= b) -> (a = 0xF4 -> b <= 0x8F) ->
  utf8.EncodeRune ((a mod 8) * 262144 + (b mod 64) * 4096 + (c mod 64) * 64 + d mod 64)
  = bytes [a; b; c; d].
Proof.
  intros. destruct (four_byte_arith a b c d) as (R1 & R2 & E1 & E2 & E3 & E4); try assumption.
  unfold utf8.EncodeRune, utf8.MaxRune.
  replace (_ <=? 0x7F) with false by (symmetry; apply N.leb_gt; lia).
  replace (_ <=? 0x7FF) with false by (symmetry; apply N.leb_gt; lia).
  replace (0x10FFFF <? _) with false by (symmetry; apply N.ltb_ge; lia).
  replace (_ <=? 0xFFFF) with false by (symmetry; apply N.leb_gt; lia).
  replace ((0xD800 <=? _) && (_ <=? 0xDFFF)) with false.
  2:{ symmetry. apply andb_false_iff. right. apply N.leb_gt. lia. }
  simpl orb. cbv iota. rewrite E1, E2, E3, E4. reflexivity.
Qed.

(** A multi-byte decode: the input starts with the encoding of the rune,
    and the decode only depends on that prefix. *)
Lemma decode_multi (s : string) (r : N) (size : nat) :
  utf8.DecodeRuneInString s = (r, size) -> (2 <= size)%nat ->
  exists pre t, s = pre ++ t /\ String.length pre = size
    /\ utf8.EncodeRune r = pre
    /\ (forall c0 t0, pre = String c0 t0 -> 0x80 <= byte c0)
    /\ forall Y, utf8.DecodeRuneInString (pre ++ Y) = (r, size).
Proof.
  intros HD Hsize.
  destruct s as [|c0 t0]; [inversion HD; subst; lia|].
  unfold utf8.DecodeRuneInString in HD.
  destruct (byte c0 <? utf8.RuneSelf) eqn:E0; [inversion HD; subst; lia|].
  destruct (utf8.lead (byte c0)) as [[[sz lo] hi]|] eqn:EL; [|inversion HD; subst; lia].
  destruct t0 as [|c1 t1]; [inversion HD; subst; lia|].
  destruct ((byte c1 <? lo) || (hi <? byte c1)) eqn:E1; [inversion HD; subst; lia|].
  pose proof (lead_spec _ _ _ _ EL) as (Hlo & Hhi & Hcases).
  unfold utf8.RuneSelf in E0. bool_to_prop.
  destruct Hcases as [(-> & A1 & A2) | [(-> & A1 & A2 & A3 & A4) | (-> & A1 & A2 & A3 & A4)]].
  - simpl in HD. inversion HD; subst; clear HD.
    exists (String c0 (String c1 EmptyString)), t1.
    split; [reflexivity|]. split; [reflexivity|]. split.
    { rewrite encode_two by lia. simpl. rewrite !ascii_of_byte. reflexivity. }
    split. { intros c t E; inversion E; subst; lia. }
    intro Y. simpl.
    unfold utf8.RuneSelf.
    replace (byte c0 <? 128) with false by (symmetry; apply N.ltb_ge; lia).
    rewrite EL.
    replace ((byte c1 <? lo) || (hi <? byte c1)) with false; [reflexivity|].
    symmetry. apply orb_false_iff. split; apply N.ltb_ge; lia.
  - simpl in HD.
    destruct t1 as [|c2 t2]; [inversion HD; subst; lia|].
    destruct (negb (utf8.cont (byte c2))) eqn:E2; [inversion HD; subst; lia|].
    inversion HD; subst; clear HD.
    pose proof E2 as E2'. unfold utf8.cont in E2. bool_to_prop.
    exists (String c0 (String c1 (String c2 EmptyString))), t2.
    split; [reflexivity|]. split; [reflexivity|]. split.
    { rewrite encode_three by lia. simpl. rewrite !ascii_of_byte. reflexivity. }
    split. { intros c t E; inversion E; subst; lia. }
    intro Y. simpl.
    unfold utf8.RuneSelf.
    replace (byte c0 <? 128) with false by (symmetry; apply N.ltb_ge; lia).
    rewrite EL.
    replace ((byte c1 <? lo) || (hi <? byte c1)) with false.
    2:{ symmetry. apply orb_false_iff. split; apply N.ltb_ge; lia. }
    rewrite E2'. reflexivity.
  - simpl in HD.
    destruct t1 as [|c2 t2]; [inversion HD; subst; lia|].
    destruct (negb (utf8.cont (byte c2))) eqn:E2; [inversion HD; subst; lia|].
    destruct t2 as [|c3 t3]; [inversion HD; subst; lia|].
    destruct (negb (utf8.cont (byte c3))) eqn:E3; [inversion HD; subst; lia|].
    inversion HD; subst; clear HD.
    pose proof E2 as E2'. pose proof E3 as E3'.
    unfold utf8.cont in E2, E3. bool_to_prop.
    exists (String c0 (String c1 (String c2 (String c3 EmptyString)))), t3.
    split; [reflexivity|]. split; [reflexivity|]. split.
    { rewrite encode_four by lia. simpl. rewrite !ascii_of_byte. reflexivity. }
    split. { intros c t E; inversion E; subst; lia. }
    intro Y. simpl.
    unfold utf8.RuneSelf.
    replace (byte c0 <? 128) with false by (symmetry; apply N.ltb_ge; lia).
    rewrite EL.
    replace ((byte c1 <? lo) || (hi <? byte c1)) with false.
    2:{ symmetry. apply orb_false_iff. split; apply N.ltb_ge; lia. }
    rewrite E2', E3'. reflexivity.
Qed.

(** * The string literals of the codec *)

Lemma append_assoc (a b c : string) : (a ++ b) ++ c = a ++ (b ++ c).
Proof. induction a as [|x a IH]; simpl; [reflexivity | rewrite IH; reflexivity]. Qed.

Lemma append_nil_r (a : string) : a ++ EmptyString = a.
Proof. induction a as [|x a IH]; simpl; [reflexivity | rewrite IH; reflexivity]. Qed.

Lemma drop_append (a b : string) : drop (String.length a) (a ++ b) = b.
Proof. induction a as [|x a IH]; simpl; [destruct b; reflexivity | exact IH]. Qed.

Lemma take_append (a b : string) : take (String.length a) (a ++ b) = a.
Proof. induction a as [|x a IH]; simpl; [destruct b; reflexivity | rewrite IH; reflexivity]. Qed.

Lemma char_eqb_byte (c d : ascii) : (c =? d)%char = (byte c =? byte d).
Proof.
  destruct (Ascii.eqb_spec c d) as [->|Hne].
  - symmetry. apply N.eqb_refl.
  - symmetry. apply N.eqb_neq. intro E. apply Hne.
    rewrite <- (ascii_of_byte c), <- (ascii_of_byte d), E. reflexivity.
Qed.

Lemma unquote_ascii_piece (c : ascii) (m : nat) (X : string) :
  byte c < 0x80 ->
  json.unquote (S m) (ascii_piece c ++ X)
  = json.prepend (String c EmptyString) (json.unquote m X).
Proof.
  destruct c as [b0 b1 b2 b3 b4 b5 b6 b7].
  destruct b7.
  - intro Hc. exfalso. destruct b0, b1, b2, b3, b4, b5, b6; vm_compute in Hc; discriminate.
  - intros _. destruct b0, b1, b2, b3, b4, b5, b6; reflexivity.
Qed.

Lemma ascii_piece_length (c : ascii) : (1 <= String.length (ascii_piece c))%nat.
Proof.
  unfold ascii_piece, json.escape_byte.
  repeat match goal with
         | |- context [if ?b then _ else _] => destruct b
         end; simpl; lia.
Qed.

Lemma decode_size_pos (c : ascii) (t : string) (r : N) (size : nat) :
  utf8.DecodeRuneInString (String c t) = (r, size) -> (1 <= size)%nat.
Proof.
  unfold utf8.DecodeRuneInString.
  repeat match goal with
         | |- context [if ?b then _ else _] => destruct b
         | |- context [match ?x with _ => _ end] => destruct x
         end; intro E; inversion E; lia.
Qed.

(** Decoding a string literal whose first rune is a multi-byte one. *)
Lemma unquote_multi (pre Y : string) (r : N) (size m : nat) :
  String.length pre = size ->
  (forall c0 t0, pre = String c0 t0 -> 0x80 <= byte c0) ->
  (forall Z, utf8.DecodeRuneInString (pre ++ Z) = (r, size)) ->
  (1 <= size)%nat ->
  json.unquote (S m) (pre ++ Y)
  = json.prepend (utf8.EncodeRune r) (json.unquote m Y).
Proof.
  intros Hlen Hhi HD Hsize.
  destruct pre as [|c0 t0]; [simpl in Hlen; lia|].
  specialize (Hhi c0 t0 eq_refl). specialize (HD Y).
  change (String c0 t0 ++ Y) with (String c0 (t0 ++ Y)) in *.
  cbn [json.unquote].
  rewrite !char_eqb_byte.
  replace (byte c0 =? byte dquote) with false
    by (symmetry; apply N.eqb_neq; change (byte dquote) with 34; lia).
  replace (byte c0 =? byte "\") with false
    by (symmetry; apply N.eqb_neq; change (byte "\") with 92; lia).
  replace (byte c0 <? 32) with false by (symmetry; apply N.ltb_ge; lia).
  unfold utf8.RuneSelf.
  replace (byte c0 <? 128) with false by (symmetry; apply N.ltb_ge; lia).
  rewrite HD.
  change (String c0 (t0 ++ Y)) with (String c0 t0 ++ Y).
  rewrite <- Hlen, drop_append. reflexivity.
Qed.

Lemma length_drop_le (n : nat) (s : string) :
  (String.length (drop n s) <= String.length s)%nat.
Proof.
  revert s. induction n as [|n IH]; intros [|c t]; simpl; try lia.
  specialize (IH t). lia.
Qed.

Lemma unquote_appendString_from (n : nat) :
  forall (s rest : string) (m : nat),
    (String.length s <= n)%nat ->
    utf8.valid_from n s = true ->
    (String.length (json.appendString_from n s) < m)%nat ->
    json.unquote m (json.appendString_from n s ++ String dquote rest) = Some (s, rest).
Proof.
  induction n as [|n IH]; intros s rest m Hlen Hvalid Hm.
  - destruct s; [|simpl in Hlen; lia].
    destruct m; [simpl in Hm; lia|]. reflexivity.
  - destruct s as [|c t].
    { destruct m; [simpl in Hm; lia|]. reflexivity. }
    simpl in Hlen.
    cbn [utf8.valid_from] in Hvalid. cbn [json.appendString_from] in Hm |- *.
    destruct (byte c <? utf8.RuneSelf) eqn:Ec.
    + fold (ascii_piece c) in Hm |- *.
      rewrite length_append in Hm. pose proof (ascii_piece_length c).
      destruct m as [|m]; [lia|].
      rewrite append_assoc, unquote_ascii_piece
        by (apply N.ltb_lt in Ec; exact Ec).
      rewrite IH by (try assumption; lia). reflexivity.
    + destruct (utf8.DecodeRuneInString (String c t)) as [r size] eqn:HD.
      destruct (size =? 1)%nat eqn:E1; [discriminate|].
      apply Nat.eqb_neq in E1.
      pose proof (decode_size_pos _ _ _ _ HD) as Hpos.
      destruct (decode_multi _ _ _ HD ltac:(lia)) as (pre & t' & Hs & Hpre & Henc & Hhi & HDY).
      rewrite Hs in Hvalid, Hm |- *. rewrite <- Hpre in Hvalid, Hm |- *.
      rewrite drop_append in Hvalid, Hm |- *. rewrite take_append in Hm |- *.
      assert (Ht' : (String.length t' <= n)%nat).
      { assert (L : String.length (String c t) = String.length (pre ++ t')) by (rewrite Hs; reflexivity).
        rewrite length_append in L. simpl in L. lia. }
      rewrite andb_false_r in Hm |- *.
      destruct ((r =? 0x2028) || (r =? 0x2029)) eqn:Eu.
      * assert (Hpiece : forall X k,
          json.unquote (S k) (("\u202" ++ String (json.hexdigit (r mod 16)) EmptyString ++ X))
          = json.prepend (utf8.EncodeRune r) (json.unquote k X)).
        { intros X k. apply orb_true_iff in Eu.
          destruct Eu as [Eu|Eu]; apply N.eqb_eq in Eu; subst r; reflexivity. }
        rewrite !length_append in Hm. simpl in Hm.
        destruct m as [|m]; [lia|].
        rewrite !append_assoc. rewrite Hpiece, Henc.
        rewrite IH by (try assumption; lia). reflexivity.
      * rewrite length_append in Hm.
        destruct m as [|m]; [lia|].
        rewrite append_assoc.
        rewrite (unquote_multi pre _ r size m) by (try assumption; lia).
        rewrite Henc. rewrite IH by (try assumption; lia). reflexivity.
Qed.

(** [appendString] followed by [unquote] is the identity on valid UTF-8. *)
Lemma unquote_appendString (s rest : string) :
  utf8.ValidString s = true ->
  forall t, t = json.appendString_from (String.length s) s ++ String dquote rest ->
  json.unquote (S (String.length t)) t = Some (s, rest).
Proof.
  intros Hv t ->. apply unquote_appendString_from; [lia | exact Hv |].
  rewrite length_append. simpl. lia.
Qed.

(** * The codec on entries and sequences *)

Lemma appendString_head (s X : string) :
  json.appendString s ++ X
  = String dquote (json.appendString_from (String.length s) s ++ String dquote X).
Proof.
  unfold json.appendString, q. rewrite !append_assoc. reflexivity.
Qed.

Lemma value_string (fuel : nat) (depth : N) (s rest : string) :
  utf8.ValidString s = true ->
  json.value (S fuel) depth (json.appendString s ++ rest) = Some (json.Str s, rest).
Proof.
  intro Hv. rewrite appendString_head.
  cbn [json.value].
  change ((dquote =? "[")%char) with false.
  change ((dquote =? "{")%char) with false.
  change ((dquote =? dquote)%char) with true. cbv iota.
  rewrite (unquote_appendString s rest Hv) by reflexivity.
  reflexivity.
Qed.

Lemma plain_name : plain_key "name".
Proof. intro X. reflexivity. Qed.
Lemma plain_username : plain_key "username".
Proof. intro X. reflexivity. Qed.
Lemma plain_password : plain_key "password".
Proof. intro X. reflexivity. Qed.

Lemma members_unfold (f : nat) (d : N) (t : string) :
  json.members (S f) d (String dquote t)
  = match json.unquote (S (String.length t)) t with
    | None => None
    | Some (key, r) =>
      match json.skipSpace r with
      | String c1 t1 =>
        if (c1 =? ":")%char then
          match json.value f d (json.skipSpace t1) with
          | None => None
          | Some (v, r1) =>
            match json.skipSpace r1 with
            | String c2 t2 =>
              if (c2 =? ",")%char then
                match json.members f d (json.skipSpace t2) with
                | Some (ms, r2) => Some ((key, v) :: ms, r2)
                | None => None
                end
              else if (c2 =? "}")%char then Some ([(key, v)], t2)
              else None
            | EmptyString => None
            end
          end
        else None
      | EmptyString => None
      end
    end.
Proof. reflexivity. Qed.

Lemma skipSpace_appendString (s X : string) :
  json.skipSpace (json.appendString s ++ X) = json.appendString s ++ X.
Proof. rewrite appendString_head. reflexivity. Qed.

(** One member [key:string] of an object that is followed by another. *)
Lemma members_comma (f : nat) (d : N) (key s Y : string) :
  plain_key key -> utf8.ValidString s = true ->
  json.members (S (S f)) d
    (String dquote (key ++ String dquote (String ":"
       (json.appendString s ++ String "," (String dquote Y)))))
  = match json.members (S f) d (String dquote Y) with
    | Some (ms, r2) => Some ((key, json.Str s) :: ms, r2)
    | None => None
    end.
Proof.
  intros Hkey Hv. rewrite members_unfold, Hkey.
  change (json.skipSpace (String ":" ?x)) with (String ":" x).
  change ((":" =? ":")%char) with true. cbv iota.
  rewrite skipSpace_appendString, (value_string f d s _ Hv).
  reflexivity.
Qed.

(** The last member of an object. *)
Lemma members_last (f : nat) (d : N) (key s rest : string) :
  plain_key key -> utf8.ValidString s = true ->
  json.members (S (S f)) d
    (String dquote (key ++ String dquote (String ":"
       (json.appendString s ++ String "}" rest))))
  = Some ([(key, json.Str s)], rest).
Proof.
  intros Hkey Hv. rewrite members_unfold, Hkey.
  change (json.skipSpace (String ":" ?x)) with (String ":" x).
  change ((":" =? ":")%char) with true. cbv iota.
  rewrite skipSpace_appendString, (value_string f d s _ Hv).
  reflexivity.
Qed.

Lemma marshal_entry_shape (e : PasswordEntry) (rest : string) :
  json.marshal_entry e ++ rest
  = String "{" (String dquote ("name" ++ String dquote (String ":"
      (json.appendString (Name e) ++ String "," (String dquote
        ("username" ++ String dquote (String ":"
          (json.appendString (Username e) ++ String "," (String dquote
            ("password" ++ String dquote (String ":"
              (json.appendString (Password e) ++ String "}" rest)))))))))))).
Proof.
  unfold json.marshal_entry, q. rewrite !append_assoc. reflexivity.
Qed.

Lemma value_entry (fuel : nat) (depth : N) (e : PasswordEntry) (rest : string) :
  valid_entry e = true -> depth < json.maxNestingDepth ->
  json.value (S (S (S (S (S fuel))))) depth (json.marshal_entry e ++ rest)
  = Some (entry_value e, rest).
Proof.
  intros Hv Hd. unfold valid_entry in Hv.
  apply andb_true_iff in Hv. destruct Hv as [Hv Hp].
  apply andb_true_iff in Hv. destruct Hv as [Hn Hu].
  rewrite marshal_entry_shape.
  assert (E : forall f t,
    json.value (S f) depth (String "{" (String dquote t))
    = if json.maxNestingDepth <? depth + 1 then None
      else match json.members f (depth + 1) (String dquote t) with
           | Some (ms, r) => Some (json.Object ms, r)
           | None => None
           end) by reflexivity.
  rewrite E.
  replace (json.maxNestingDepth <? depth + 1) with false
    by (symmetry; apply N.ltb_ge; lia).
  rewrite (members_comma _ _ "name" _ _ plain_name Hn).
  rewrite (members_comma _ _ "username" _ _ plain_username Hu).
  rewrite (members_last _ _ "password" _ _ plain_password Hp).
  reflexivity.
Qed.

Lemma elements_unfold (f : nat) (d : N) (s : string) :
  json.elements (S f) d s
  = match json.value f d s with
    | None => None
    | Some (v, r) =>
      match json.skipSpace r with
      | String c t =>
        if (c =? ",")%char then
          match json.elements f d (json.skipSpace t) with
          | Some (vs, r') => Some (v :: vs, r')
          | None => None
          end
        else if (c =? "]")%char then Some ([v], t)
        else None
      | EmptyString => None
      end
    end.
Proof. reflexivity. Qed.

Lemma marshal_elems_cons (e : PasswordEntry) (l : list PasswordEntry) (Z : string) :
  exists t, json.marshal_elems (e :: l) ++ Z = String "{" t.
Proof.
  destruct l as [|e' l]; cbn [json.marshal_elems];
    [|rewrite append_assoc]; rewrite marshal_entry_shape; eexists; reflexivity.
Qed.

Lemma elements_entries (l : list PasswordEntry) :
  forall (e : PasswordEntry) (rest : string) (f : nat) (d : N),
    valid_entry e = true -> forallb valid_entry l = true ->
    d < json.maxNestingDepth -> (List.length l + 6 <= f)%nat ->
    json.elements f d (json.marshal_elems (e :: l) ++ String "]" rest)
    = Some (map entry_value (e :: l), rest).
Proof.
  induction l as [|e' l IH]; intros e rest f d He Hl Hd Hf.
  - do 6 (destruct f as [|f]; [simpl in Hf; lia|]).
    cbn [json.marshal_elems]. rewrite elements_unfold, (value_entry _ _ _ _ He Hd).
    reflexivity.
  - simpl in Hl. apply andb_true_iff in Hl. destruct Hl as [He' Hl].
    do 6 (destruct f as [|f]; [simpl in Hf; lia|]).
    change (json.marshal_elems (e :: e' :: l))
      with (json.marshal_entry e ++ "," ++ json.marshal_elems (e' :: l)).
    rewrite !append_assoc.
    rewrite elements_unfold, (value_entry _ _ _ _ He Hd).
    change (json.skipSpace ("," ++ ?x)) with (String "," x).
    change (("," =? ",")%char) with true. cbv iota.
    destruct (marshal_elems_cons e' l (String "]" rest)) as [t Ht].
    rewrite Ht. change (json.skipSpace (String "{" t)) with (String "{" t).
    rewrite <- Ht.
    rewrite (IH e' rest _ d He' Hl Hd) by (simpl in Hf |- *; lia).
    reflexivity.
Qed.

Lemma marshal_elems_length (l : list PasswordEntry) :
  (List.length l <= String.length (json.marshal_elems l))%nat.
Proof.
  induction l as [|e l IH]; [simpl; lia|].
  assert (He : (2 <= String.length (json.marshal_entry e))%nat).
  { pose proof (marshal_entry_shape e EmptyString) as Hs.
    rewrite append_nil_r in Hs. rewrite Hs. simpl. lia. }
  destruct l as [|e' l].
  - simpl List.length. cbn [json.marshal_elems]. lia.
  - change (json.marshal_elems (e :: e' :: l))
      with (json.marshal_entry e ++ "," ++ json.marshal_elems (e' :: l)).
    rewrite !length_append. change (String.length ",") with 1%nat.
    simpl List.length in *. lia.
Qed.

Lemma decode_entry_value (e : PasswordEntry) :
  json.decode_entry (entry_value e) = Some e.
Proof. destruct e. reflexivity. Qed.

Lemma decode_entries_values (l : list PasswordEntry) :
  json.decode_entries (map entry_value l) = Some l.
Proof.
  induction l as [|e l IH]; [reflexivity|].
  cbn [map json.decode_entries]. rewrite decode_entry_value, IH. reflexivity.
Qed.

Lemma parse_marshal_elems (l : list PasswordEntry) :
  forallb valid_entry l = true ->
  json.parse (json.Marshal (Elems l)) = Some (json.Array (map entry_value l)).
Proof.
  intro Hl. destruct l as [|e l]; [reflexivity|].
  simpl in Hl. apply andb_true_iff in Hl. destruct Hl as [He Hl].
  unfold json.Marshal, json.parse.
  change ("[" ++ json.marshal_elems (e :: l) ++ "]")
    with (String "[" (json.marshal_elems (e :: l) ++ String "]" EmptyString)).
  change (json.skipSpace (String "[" ?x)) with (String "[" x).
  set (X := json.marshal_elems (e :: l) ++ String "]" EmptyString).
  assert (HX : (List.length l + 2 <= String.length X)%nat).
  { subst X. rewrite length_append. pose proof (marshal_elems_length (e :: l)) as L.
    simpl List.length in L.
    change (String.length (String "]" EmptyString)) with 1%nat. lia. }
  destruct (marshal_elems_cons e l (String "]" EmptyString)) as [t Ht].
  fold X in Ht.
  replace (2 * String.length (String "[" X) + 2)%nat
    with (S (S (2 * String.length X + 2))) by (simpl; lia).
  assert (E : forall f,
    json.value (S f) 0 (String "[" (String "{" t))
    = match json.elements f 1 (String "{" t) with
      | Some (vs, r) => Some (json.Array vs, r)
      | None => None
      end) by reflexivity.
  rewrite Ht, E, <- Ht. subst X.
  rewrite (elements_entries l e EmptyString _ 1 He Hl)
    by (try reflexivity; lia).
  reflexivity.
Qed.

(** The round trip of the codec on valid UTF-8. *)
Lemma Unmarshal_Marshal (data : slice PasswordEntry) :
  forallb valid_entry (elems data) = true ->
  json.Unmarshal (json.Marshal data) = Ok data.
Proof.
  destruct data as [|l]; [reflexivity|]. intro Hl.
  unfold json.Unmarshal. rewrite (parse_marshal_elems l Hl).
  cbn [json.decode_slice]. rewrite decode_entries_values. reflexivity.
Qed.

(** * What the decoder yields is valid UTF-8 *)

Lemma valid_from_fuel (n : nat) :
  forall (m : nat) (s : string),
    (String.length s <= n)%nat -> (String.length s <= m)%nat ->
    utf8.valid_from n s = utf8.valid_from m s.
Proof.
  induction n as [|n IH]; intros m s Hn Hm.
  - destruct s; [|simpl in Hn; lia]. destruct m; reflexivity.
  - destruct s as [|c t]; [destruct m; reflexivity|].
    destruct m as [|m]; [simpl in Hm; lia|].
    simpl in Hn, Hm. cbn [utf8.valid_from].
    destruct (byte c <? utf8.RuneSelf); [apply IH; lia|].
    destruct (utf8.DecodeRuneInString (String c t)) as [r size] eqn:HD.
    destruct (size =? 1)%nat; [reflexivity|].
    pose proof (decode_size_pos _ _ _ _ HD).
    destruct size as [|size]; [lia|]. cbn [drop].
    pose proof (length_drop_le size t).
    apply IH; lia.
Qed.

Lemma ValidString_ascii (c : ascii) (u : string) :
  byte c < 0x80 -> utf8.ValidString (String c u) = utf8.ValidString u.
Proof.
  intro Hc. unfold utf8.ValidString. cbn [String.length utf8.valid_from].
  unfold utf8.RuneSelf. apply N.ltb_lt in Hc. rewrite Hc. reflexivity.
Qed.

Lemma ValidString_multi (pre u : string) (r : N) :
  (2 <= String.length pre)%nat ->
  (forall c0 t0, pre = String c0 t0 -> 0x80 <= byte c0) ->
  utf8.DecodeRuneInString (pre ++ u) = (r, String.length pre) ->
  utf8.ValidString (pre ++ u) = utf8.ValidString u.
Proof.
  intros Hlen Hhi HD. unfold utf8.ValidString.
  destruct pre as [|c0 t0]; [simpl in Hlen; lia|].
  specialize (Hhi c0 t0 eq_refl).
  change (String c0 t0 ++ u) with (String c0 (t0 ++ u)) in *.
  cbn [String.length utf8.valid_from]. unfold utf8.RuneSelf.
  replace (byte c0 <? 128) with false by (symmetry; apply N.ltb_ge; lia).
  rewrite HD.
  replace (String.length (String c0 t0) =? 1)%nat with false
    by (symmetry; apply Nat.eqb_neq; lia).
  change (String c0 (t0 ++ u)) with (String c0 t0 ++ u).
  rewrite drop_append. apply valid_from_fuel; [|lia].
  rewrite length_append. simpl in Hlen. lia.
Qed.

Lemma byte_of_N (n : N) : n < 256 -> byte (ascii_of_N n) = n.
Proof. apply N_ascii_embedding. Qed.

(** The digits of a rune in base 64. *)
Lemma split_rune (r : N) :
  exists a b c d,
    r = ((a * 64 + b) * 64 + c) * 64 + d /\ b < 64 /\ c < 64 /\ d < 64
    /\ r mod 64 = d /\ (r / 64) mod 64 = c /\ (r / 4096) mod 64 = b
    /\ r / 64 = (a * 64 + b) * 64 + c /\ r / 4096 = a * 64 + b /\ r / 262144 = a.
Proof.
  exists (r / 262144), ((r / 4096) mod 64), ((r / 64) mod 64), (r mod 64).
  assert (E1 : r / 4096 = r / 64 / 64) by (rewrite N.Div0.div_div; reflexivity).
  assert (E2 : r / 262144 = r / 4096 / 64) by (rewrite N.Div0.div_div; reflexivity).
  pose proof (N.Div0.div_mod r 64) as D1.
  pose proof (N.Div0.div_mod (r / 64) 64) as D2.
  pose proof (N.Div0.div_mod (r / 4096) 64) as D3.
  pose proof (N.mod_lt r 64 ltac:(lia)).
  pose proof (N.mod_lt (r / 64) 64 ltac:(lia)).
  pose proof (N.mod_lt (r / 4096) 64 ltac:(lia)).
  rewrite <- E1 in D2. rewrite <- E2 in D3.
  repeat split; try assumption; try lia.
Qed.

Ltac decide_tests :=
  repeat match goal with
         | |- context [?a <? ?b] =>
           first [ replace (a <? b) with true by (symmetry; apply N.ltb_lt; lia)
                 | replace (a <? b) with false by (symmetry; apply N.ltb_ge; lia) ]
         | |- context [?a <=? ?b] =>
           first [ replace (a <=? b) with true by (symmetry; apply N.leb_le; lia)
                 | replace (a <=? b) with false by (symmetry; apply N.leb_gt; lia) ]
         | |- context [?a =? ?b] =>
           first [ replace (a =? b) with true by (symmetry; apply N.eqb_eq; lia)
                 | replace (a =? b) with false by (symmetry; apply N.eqb_neq; lia) ]
         end.

Lemma lead_two (a : N) :
  0xC2 <= a -> a < 0xE0 -> utf8.lead a = Some (2%nat, 0x80, 0xBF).
Proof. intros. unfold utf8.lead. decide_tests. reflexivity. Qed.

Lemma lead_three (a : N) :
  0xE0 <= a -> a < 0xF0 ->
  utf8.lead a = Some (3%nat, if a =? 0xE0 then 0xA0 else 0x80,
                      if a =? 0xED then 0x9F else 0xBF).
Proof.
  intros. unfold utf8.lead.
  destruct (N.eqb_spec a 0xE0); [subst; reflexivity|].
  destruct (N.eqb_spec a 0xED); [subst; reflexivity|].
  decide_tests. reflexivity.
Qed.

Lemma lead_four (a : N) :
  0xF0 <= a -> a <= 0xF4 ->
  utf8.lead a = Some (4%nat, if a =? 0xF0 then 0x90 else 0x80,
                      if a =? 0xF4 then 0x8F else 0xBF).
Proof.
  intros. unfold utf8.lead.
  destruct (N.eqb_spec a 0xF0); [subst; reflexivity|].
  destruct (N.eqb_spec a 0xF4); [subst; reflexivity|].
  decide_tests. reflexivity.
Qed.

Lemma decode_two (a b : N) (u : string) :
  0xC2 <= a -> a < 0xE0 -> 0x80 <= b -> b <= 0xBF ->
  snd (utf8.DecodeRuneInString (bytes [a; b] ++ u)) = 2%nat.
Proof.
  intros. cbn [bytes append utf8.DecodeRuneInString].
  rewrite !byte_of_N by lia. unfold utf8.RuneSelf.
  rewrite lead_two by lia. decide_tests. reflexivity.
Qed.

Lemma decode_three (a b c : N) (u : string) :
  0xE0 <= a -> a < 0xF0 -> 0x80 <= b -> b <= 0xBF -> 0x80 <= c -> c <= 0xBF ->
  (a = 0xE0 -> 0xA0 <= b) -> (a = 0xED -> b <= 0x9F) ->
  snd (utf8.DecodeRuneInString (bytes [a; b; c] ++ u)) = 3%nat.
Proof.
  intros. cbn [bytes append utf8.DecodeRuneInString].
  rewrite !byte_of_N by lia. unfold utf8.RuneSelf, utf8.cont.
  rewrite lead_three by lia.
  destruct (N.eqb_spec a 0xE0); destruct (N.eqb_spec a 0xED);
    try (exfalso; lia); decide_tests; reflexivity.
Qed.

Lemma decode_four (a b c d : N) (u : string) :
  0xF0 <= a -> a <= 0xF4 -> 0x80 <= b -> b <= 0xBF -> 0x80 <= c -> c <= 0xBF ->
  0x80 <= d -> d <= 0xBF ->
  (a = 0xF0 -> 0x90 <= b) -> (a = 0xF4 -> b <= 0x8F) ->
  snd (utf8.DecodeRuneInString (bytes [a; b; c; d] ++ u)) = 4%nat.
Proof.
  intros. cbn [bytes append utf8.DecodeRuneInString].
  rewrite !byte_of_N by lia. unfold utf8.RuneSelf, utf8.cont.
  rewrite lead_four by lia.
  destruct (N.eqb_spec a 0xF0); destruct (N.eqb_spec a 0xF4);
    try (exfalso; lia); decide_tests; reflexivity.
Qed.

Lemma ValidString_bytes (l : list N) (u : string) :
  (2 <= List.length l)%nat ->
  0x80 <= hd 0 l -> hd 0 l < 256 ->
  snd (utf8.DecodeRuneInString (bytes l ++ u)) = List.length l ->
  utf8.ValidString (bytes l ++ u) = utf8.ValidString u.
Proof.
  intros Hlen Hhi Hlt HD.
  assert (L : String.length (bytes l) = List.length l).
  { clear. induction l; simpl; congruence. }
  destruct (utf8.DecodeRuneInString (bytes l ++ u)) as [r size] eqn:E.
  simpl in HD. subst size.
  apply (ValidString_multi _ _ r); rewrite ?L; try assumption.
  intros c0 t0 E0. destruct l as [|a t]; [discriminate|].
  cbn [hd] in Hhi, Hlt. simpl in E0. inversion E0. rewrite byte_of_N; lia.
Qed.

(** What [EncodeRune] yields is valid UTF-8. *)
Lemma ValidString_EncodeRune (r : N) (u : string) :
  utf8.ValidString (utf8.EncodeRune r ++ u) = utf8.ValidString u.
Proof.
  destruct (split_rune r) as (a & b & c & d & Hr & Hb & Hc & Hd & E1 & E2 & E3 & E4 & E5 & E6).
  unfold utf8.EncodeRune, utf8.enc3, utf8.MaxRune.
  destruct (N.leb_spec r 0x7F).
  { cbn [bytes append]. apply ValidString_ascii. rewrite byte_of_N; lia. }
  destruct (N.leb_spec r 0x7FF).
  { rewrite E1, E4. apply ValidString_bytes; cbn [hd]; [simpl; lia | lia | lia |].
    - apply decode_two; lia. }
  destruct ((0x10FFFF <? r) || ((0xD800 <=? r) && (r <=? 0xDFFF))) eqn:Es.
  { change (bytes [0xE0 + utf8.RuneError / 4096; 0x80 + (utf8.RuneError / 64) mod 64;
                     0x80 + utf8.RuneError mod 64]) with (bytes [0xEF; 0xBF; 0xBD]).
    apply ValidString_bytes; cbn [hd]; [simpl; lia | lia | lia |].
    apply decode_three; lia. }
  apply orb_false_iff in Es. destruct Es as [Em Es].
  apply N.ltb_ge in Em.
  assert (Hs : r < 0xD800 \/ 0xDFFF < r).
  { apply andb_false_iff in Es. destruct Es as [Es|Es]; apply N.leb_gt in Es; lia. }
  destruct (N.leb_spec r 0xFFFF).
  { rewrite E1, E2, E5. apply ValidString_bytes; cbn [hd]; [simpl; lia | lia | lia |].
    - apply decode_three; lia. }
  rewrite E1, E2, E3, E6. apply ValidString_bytes; cbn [hd]; [simpl; lia | lia | lia |].
  - apply decode_four; lia.
Qed.

Lemma prepend_inv (p u r : string) (o : option (string * string)) :
  json.prepend p o = Some (u, r) ->
  exists u', o = Some (u', r) /\ u = p ++ u'.
Proof.
  destruct o as [[u' r']|]; simpl; intro E; [|discriminate].
  inversion E; subst. eauto.
Qed.

Lemma escape_char_ascii (e b : ascii) :
  json.escape_char e = Some b -> byte b < 0x80.
Proof.
  unfold json.escape_char.
  repeat match goal with
         | |- context [if ?c then _ else _] => destruct c
         end; intro E; inversion E; subst; reflexivity.
Qed.

Lemma unquote_valid (fuel : nat) :
  forall s u r, json.unquote fuel s = Some (u, r) -> utf8.ValidString u = true.
Proof.
  induction fuel as [|fuel IH]; intros s u r H; [discriminate|].
  cbn [json.unquote] in H.
  destruct s as [|c t]; [discriminate|].
  destruct (c =? dquote)%char; [inversion H; reflexivity|].
  destruct (c =? "\")%char.
  - destruct t as [|e t1]; [discriminate|].
    destruct (json.escape_char e) as [b|] eqn:Ee.
    + apply prepend_inv in H. destruct H as (u' & H & ->).
      change (String b EmptyString ++ u') with (String b u').
      rewrite ValidString_ascii by (eapply escape_char_ascii; eassumption). eauto.
    + destruct (e =? "u")%char; [|discriminate].
      destruct (json.hex4 t1) as [[rr t2]|]; [|discriminate].
      destruct (utf16.IsSurrogate rr).
      * destruct (json.getu4 t2) as [[rr1 t3]|].
        -- destruct (utf16.DecodeRune rr rr1 =? utf8.RuneError);
             apply prepend_inv in H; destruct H as (u' & H & ->);
             rewrite ValidString_EncodeRune; eauto.
        -- apply prepend_inv in H; destruct H as (u' & H & ->).
           rewrite ValidString_EncodeRune; eauto.
      * apply prepend_inv in H; destruct H as (u' & H & ->).
        rewrite ValidString_EncodeRune; eauto.
  - destruct (byte c <? 32); [discriminate|].
    destruct (byte c <? utf8.RuneSelf) eqn:Ec.
    + apply prepend_inv in H. destruct H as (u' & H & ->).
      change (String c EmptyString ++ u') with (String c u').
      rewrite ValidString_ascii by (apply N.ltb_lt; exact Ec). eauto.
    + destruct (utf8.DecodeRuneInString (String c t)) as [rr size].
      apply prepend_inv in H; destruct H as (u' & H & ->).
      rewrite ValidString_EncodeRune; eauto.
Qed.

Ltac break_match H :=
  repeat match type of H with
         | context [if ?b then _ else _] => destruct b eqn:?
         | context [match ?x with _ => _ end] => destruct x eqn:?
         end.

Lemma parser_ok (fuel : nat) :
  (forall d s v r, json.value fuel d s = Some (v, r) -> value_ok v)
  /\ (forall d s vs r, json.elements fuel d s = Some (vs, r) -> Forall value_ok vs)
  /\ (forall d s ms r, json.members fuel d s = Some (ms, r) ->
        Forall (fun kv => value_ok (snd kv)) ms).
Proof.
  induction fuel as [|fuel (IHv & IHe & IHm)].
  - repeat split; intros; discriminate.
  - split; [|split].
    + intros d s v r H. cbn [json.value] in H.
      break_match H; try discriminate; inversion H; subst; clear H;
        repeat split; try exact I; cbn [array_ok object_ok str_ok];
        solve [ constructor
              | eapply Forall_impl; [|eapply IHe; eassumption];
                intros x Hx; apply Hx
              | eapply Forall_impl; [|eapply IHm; eassumption];
                intros x Hx; apply Hx
              | eapply unquote_valid; eassumption ].
    + intros d s vs r H. cbn [json.elements] in H.
      break_match H; try discriminate; inversion H; subst; clear H.
      * constructor; eauto.
      * constructor; eauto.
    + intros d s ms r H. cbn [json.members] in H.
      break_match H; try discriminate; inversion H; subst; clear H.
      * constructor; [cbn [snd]; eauto | eauto].
      * constructor; [cbn [snd]; eauto | constructor].
Qed.

Lemma set_field_valid (f : json.field) (s : string) (e : PasswordEntry) :
  utf8.ValidString s = true -> valid_entry e = true ->
  valid_entry (json.set_field f s e) = true.
Proof.
  unfold valid_entry. intros Hs He.
  apply andb_true_iff in He. destruct He as [He Hp].
  apply andb_true_iff in He. destruct He as [Hn Hu].
  destruct f; cbn [json.set_field Name Username Password];
    rewrite ?Hs, ?Hn, ?Hu, ?Hp; reflexivity.
Qed.

Lemma decode_members_valid (ms : list (string * json.Value)) :
  Forall (fun kv => str_ok (snd kv)) ms ->
  forall e e', valid_entry e = true -> json.decode_members ms e = Some e' ->
               valid_entry e' = true.
Proof.
  induction 1 as [|[key v] ms Hv _ IH]; intros e e' He H.
  - inversion H; subst; exact He.
  - cbn [json.decode_members] in H. cbn [snd] in Hv.
    destruct (json.find_field key) as [f|]; [|eauto].
    destruct v; try discriminate; [eauto|].
    eapply IH; [|exact H]. apply set_field_valid; assumption.
Qed.

Lemma decode_entries_valid (vs : list json.Value) :
  Forall object_ok vs ->
  forall es, json.decode_entries vs = Some es -> forallb valid_entry es = true.
Proof.
  induction 1 as [|v vs Hv _ IH]; intros es H.
  - inversion H; reflexivity.
  - cbn [json.decode_entries] in H.
    destruct (json.decode_entry v) as [e|] eqn:Ee; [|discriminate].
    destruct (json.decode_entries vs) as [es'|]; [|discriminate].
    inversion H; subst; clear H. cbn [forallb].
    rewrite (IH es' eq_refl), andb_true_r.
    destruct v; try discriminate; cbn [json.decode_entry] in Ee.
    + inversion Ee; reflexivity.
    + eapply (decode_members_valid _ Hv json.zero_entry); [reflexivity | exact Ee].
Qed.

(** Whatever [Unmarshal] yields is valid UTF-8. *)
Lemma Unmarshal_valid (b : string) (d : slice PasswordEntry) :
  json.Unmarshal b = Ok d -> forallb valid_entry (elems d) = true.
Proof.
  unfold json.Unmarshal, json.parse.
  destruct (json.value _ 0 (json.skipSpace b)) as [[v r]|] eqn:Ev; [|discriminate].
  destruct (json.skipSpace r); [|discriminate].
  destruct (json.decode_slice v) as [d'|] eqn:Ed; [|discriminate].
  intro E; inversion E; subst; clear E.
  destruct (parser_ok (2 * String.length (json.skipSpace b) + 2)) as (Pv & _ & _).
  destruct (Pv _ _ _ _ Ev) as (_ & _ & Ha).
  destruct v as [| | | |vs|]; try discriminate; cbn [json.decode_slice] in Ed.
  - inversion Ed; reflexivity.
  - destruct (json.decode_entries vs) as [es|] eqn:Ees; [|discriminate].
    inversion Ed; subst. cbn [elems].
    eapply decode_entries_valid; [exact Ha | exact Ees].
Qed.

Section AddFacts.
Context `{Platform}.

Lemma read_valid (fs : FS) (f : string) (data : slice PasswordEntry) :
  pw.read fs f = Ok data -> forallb valid_entry (elems data) = true.
Proof.
  unfold pw.read.
  destruct (os.Stat fs f) as [[|]| |]; try discriminate.
  destruct (run_scrypt_dec fs f) as [out|]; [|discriminate].
  destruct (json.Unmarshal out) as [d|e] eqn:Eu; [|discriminate].
  intro E; inversion E; subst. eapply Unmarshal_valid; eassumption.
Qed.

Lemma read_stored (fs : FS) (f : string) (data : slice PasswordEntry) :
  (forall p c, scrypt_enc p = Some c -> scrypt_dec c = Some p) ->
  stored fs f data -> forallb valid_entry (elems data) = true ->
  pw.read fs f = Ok data.
Proof.
  intros Hde (c & Hc & Henc) Hv.
  unfold pw.read, os.Stat, run_scrypt_dec. rewrite Hc, (Hde _ _ Henc).
  rewrite (Unmarshal_Marshal data Hv). reflexivity.
Qed.

Lemma get_loop_last (data : list PasswordEntry) (R : PasswordEntry) :
  Forall (fun e => Name e <> Name R) data ->
  pw.get_loop (data ++ [R]) (Name R) = Some R.
Proof.
  induction 1 as [|e l He _ IH]; simpl.
  - rewrite String.eqb_refl. reflexivity.
  - destruct (String.eqb_spec (Name e) (Name R)); [contradiction | exact IH].
Qed.

Lemma forallb_app_one (data : list PasswordEntry) (R : PasswordEntry) :
  forallb valid_entry data = true -> valid_entry R = true ->
  forallb valid_entry (data ++ [R]) = true.
Proof.
  intros Hd HR. rewrite forallb_app, Hd. simpl. rewrite HR. reflexivity.
Qed.

(** C1, amended.  Add fails with [ErrPwAlreadyExists] when an entry has
    the new entry's name; otherwise it appends the entry and writes the
    sequence.  When the write succeeds, the fields of the entry are valid
    UTF-8 and [scrypt] decrypts what it encrypted, Get of the entry's name
    then returns the entry. *)
Theorem Add_contract (fs : FS) (filename : string)
  (data : slice PasswordEntry) (R : PasswordEntry) :
  pw.read fs filename = Ok data ->
  (Exists (fun e => Name e = Name R) (elems data) ->
     pw.Add fs filename R = (fs, Some pw.ErrPwAlreadyExists))
  /\ (Forall (fun e => Name e <> Name R) (elems data) ->
      pw.Add fs filename R = pw.write fs filename (Elems (elems data ++ [R])%list)
      /\ forall fs', pw.Add fs filename R = (fs', None) ->
           stored fs' filename (Elems (elems data ++ [R])%list)
           /\ (valid_entry R = true ->
               (forall p c, scrypt_enc p = Some c -> scrypt_dec c = Some p) ->
               pw.Get fs' filename (Name R) = Ok R)).
Proof.
  intro Hread. pose proof (read_some_path _ _ _ Hread) as Ef.
  split.
  - intro Hex. unfold pw.Add.
    rewrite Ef, Hread, exists_loop_existsb, (existsb_name_true _ _ Hex).
    reflexivity.
  - intro Hnone.
    assert (E : pw.Add fs filename R
                = pw.write fs filename (Elems (elems data ++ [R])%list)).
    { unfold pw.Add.
      rewrite Ef, Hread, exists_loop_existsb, (existsb_name_false _ _ Hnone).
      reflexivity. }
    split; [exact E|]. intros fs' Ha. rewrite E in Ha.
    destruct (write_ok _ _ _ _ Ha) as [Hst _].
    split; [exact Hst|]. intros HR Hde.
    unfold pw.Get. rewrite Ef.
    rewrite (read_stored fs' filename _ Hde Hst)
      by (apply forallb_app_one; [eapply read_valid; eassumption | exact HR]).
    cbn [elems]. rewrite (get_loop_last _ _ Hnone). reflexivity.
Qed.

End AddFacts.

(** C1 as stated fails for such an entry: Add succeeds and Get then
    returns an entry with another password. *)
Lemma Add_Get_invalid_utf8 :
  snd (pw.Add (fs_with []) "pw.scrypt" entry_bad) = None
  /\ pw.Get (fst (pw.Add (fs_with []) "pw.scrypt" entry_bad)) "pw.scrypt" (Name entry_bad)
     = Ok entry_coerced
  /\ pw.Get (fst (pw.Add (fs_with []) "pw.scrypt" entry_bad)) "pw.scrypt" (Name entry_bad)
     <> Ok entry_bad.
Proof.
  assert (E : pw.Get (fst (pw.Add (fs_with []) "pw.scrypt" entry_bad)) "pw.scrypt"
                (Name entry_bad) = Ok entry_coerced) by (vm_compute; reflexivity).
  split; [vm_compute; reflexivity|]. split; [exact E|].
  rewrite E. intro C. inversion C.
Qed.

Lemma Add_contract_witness :
  pw.Get (fst (pw.Add (fs_with [entry_A]) "pw.scrypt" entry_B)) "pw.scrypt" "B"
  = Ok entry_B.
Proof.
  assert (Hread : pw.read (fs_with [entry_A]) "pw.scrypt" = Ok (Elems [entry_A]))
    by (vm_compute; reflexivity).
  assert (Hnone : Forall (fun e => Name e <> Name entry_B) (elems (Elems [entry_A])))
    by (repeat constructor; discriminate).
  apply (proj2 (proj2 (Add_contract (fs_with [entry_A]) "pw.scrypt" _ entry_B Hread)
                  Hnone) _).
  - vm_compute. reflexivity.
  - reflexivity.
  - intros p c E. simpl in *. symmetry. exact E.
Defined.

(** * The claims about the codec *)

(** C6, amended.  Encoding a sequence whose fields are valid UTF-8 and
    decoding the bytes yields the sequence, also for the empty and the
    nil sequence. *)
Theorem codec_round_trip (data : slice PasswordEntry) :
  forallb valid_entry (elems data) = true ->
  json.Unmarshal (json.Marshal data) = Ok data.
Proof. apply Unmarshal_Marshal. Qed.

Lemma codec_round_trip_witness :
  json.Unmarshal (json.Marshal (Elems [entry_A; entry_B; entry_C]))
  = Ok (Elems [entry_A; entry_B; entry_C])
  /\ json.Unmarshal (json.Marshal (Elems [])) = Ok (Elems []).
Proof.
  split.
  - apply (codec_round_trip (Elems [entry_A; entry_B; entry_C])). reflexivity.
  - apply (codec_round_trip (Elems [])). reflexivity.
Defined.

(** C6 as stated fails on a field that is not valid UTF-8: the encoder
    replaces the byte 0xFF by the escape of U+FFFD, which decodes to the
    three bytes EF BF BD. *)
Lemma codec_round_trip_invalid_utf8 :
  json.Unmarshal (json.Marshal (Elems [entry_bad])) = Ok (Elems [entry_coerced])
  /\ json.Unmarshal (json.Marshal (Elems [entry_bad])) <> Ok (Elems [entry_bad]).
Proof.
  assert (E : json.Unmarshal (json.Marshal (Elems [entry_bad]))
              = Ok (Elems [entry_coerced])) by (vm_compute; reflexivity).
  split; [exact E|]. rewrite E. intro C. inversion C.
Qed.

Lemma decode_members_accepts (ms : list (string * json.Value)) :
  forall e e', json.decode_members ms e = Some e' -> Forall accepted_member ms.
Proof.
  induction ms as [|[key v] ms IH]; intros e e' H; [constructor|].
  cbn [json.decode_members] in H.
  destruct (json.find_field key) as [f|] eqn:Ef.
  - destruct v; try discriminate; (constructor; [|eapply IH; exact H]);
      unfold accepted_member; cbn [fst snd]; eauto.
  - constructor; [left; exact Ef | eapply IH; exact H].
Qed.

Lemma decode_members_total (ms : list (string * json.Value)) :
  Forall accepted_member ms -> forall e, exists e', json.decode_members ms e = Some e'.
Proof.
  induction 1 as [|[key v] ms Hm _ IH]; intro e; [exists e; reflexivity|].
  cbn [json.decode_members]. unfold accepted_member in Hm. cbn [fst snd] in Hm.
  destruct (json.find_field key) as [f|]; [|apply IH].
  destruct Hm as [C|[->|[s ->]]]; [discriminate | apply IH | apply IH].
Qed.

Lemma decode_entry_accepts (v : json.Value) :
  (exists e, json.decode_entry v = Some e) <-> accepted_element v.
Proof.
  split.
  - intros [e He]. destruct v as [| | | | |ms]; try discriminate.
    + left; reflexivity.
    + right. exists ms. split; [reflexivity|]. eapply decode_members_accepts; exact He.
  - intros [->|(ms & -> & Hms)]; [eexists; reflexivity|].
    apply (decode_members_total ms Hms).
Qed.

Lemma decode_entries_accepts (vs : list json.Value) :
  (exists es, json.decode_entries vs = Some es) <-> Forall accepted_element vs.
Proof.
  induction vs as [|v vs IH].
  - split; [constructor | eexists; reflexivity].
  - cbn [json.decode_entries]. split.
    + intros [es H].
      destruct (json.decode_entry v) as [e|] eqn:Ee; [|discriminate].
      destruct (json.decode_entries vs) as [es'|]; [|discriminate].
      constructor; [apply decode_entry_accepts; eauto | apply IH; eauto].
    + intro Hall. inversion Hall as [|? ? Hv Hvs]; subst.
      apply decode_entry_accepts in Hv. destruct Hv as [e ->].
      apply IH in Hvs. destruct Hvs as [es ->]. eexists; reflexivity.
Qed.

Lemma decode_slice_accepts (v : json.Value) :
  (exists d, json.decode_slice v = Some d) <-> accepted_document v.
Proof.
  split.
  - intros [d Hd]. destruct v as [| | | |vs|]; try discriminate.
    + left; reflexivity.
    + right. exists vs. split; [reflexivity|]. apply decode_entries_accepts.
      cbn [json.decode_slice] in Hd.
      destruct (json.decode_entries vs); [eauto | discriminate].
  - intros [->|(vs & -> & Hvs)]; [eexists; reflexivity|].
    apply decode_entries_accepts in Hvs. destruct Hvs as [es Hes].
    cbn [json.decode_slice]. rewrite Hes. eexists; reflexivity.
Qed.

Lemma decode_entries_nil (vs : list json.Value) :
  json.decode_entries vs = Some [] -> vs = [].
Proof.
  destruct vs as [|v vs]; [reflexivity|]. cbn [json.decode_entries].
  destruct (json.decode_entry v); [|discriminate].
  destruct (json.decode_entries vs); discriminate.
Qed.

Section Decoding.
Context `{Platform}.

(** C7, amended.  Bytes decode without error exactly when they are JSON
    text whose value is [null] or an array of elements that are [null] or
    objects whose members under the field names hold strings or [null];
    any other bytes make [read] fail with the error of invalid JSON.  The
    only texts read as a store without entries are [null], as the nil
    sequence, and the empty array, as the empty sequence that is not nil. *)
Theorem decoding_discipline :
  (forall b, (exists d, json.Unmarshal b = Ok d)
             <-> (exists v, json.parse b = Some v /\ accepted_document v))
  /\ (forall b, (forall d, json.Unmarshal b <> Ok d) ->
        exists e, json.Unmarshal b = Err e
          /\ forall fs f, os.Stat fs f = os.StatOk false ->
               run_scrypt_dec fs f = Some b ->
               pw.read fs f = Err (pw.ErrInvalidJSON e))
  /\ (forall b d, json.Unmarshal b = Ok d -> elems d = [] ->
        (json.parse b = Some json.Null /\ d = Nil)
        \/ (json.parse b = Some (json.Array []) /\ d = Elems []))
  /\ json.Marshal (Elems []) = "[]"
  /\ json.Unmarshal "[]" = Ok (Elems [])
  /\ Elems (@nil PasswordEntry) <> Nil.
Proof.
  split; [|split; [|split; [|repeat split; discriminate]]].
  - intro b. unfold json.Unmarshal. split.
    + intros [d Hd]. destruct (json.parse b) as [v|]; [|discriminate].
      exists v. split; [reflexivity|]. apply decode_slice_accepts.
      destruct (json.decode_slice v) as [d'|]; [eauto | discriminate].
    + intros (v & -> & Hv). apply decode_slice_accepts in Hv.
      destruct Hv as [d ->]. eauto.
  - intros b Hno. destruct (json.Unmarshal b) as [d|e] eqn:Eu.
    + exfalso. apply (Hno d). reflexivity.
    + exists e. split; [reflexivity|]. intros fs f Hstat Hdec.
      unfold pw.read. rewrite Hstat, Hdec, Eu. reflexivity.
  - intros b d Hd Hempty. unfold json.Unmarshal in Hd.
    destruct (json.parse b) as [v|]; [|discriminate].
    destruct (json.decode_slice v) as [d'|] eqn:Ed; [|discriminate].
    inversion Hd; subst d'; clear Hd.
    destruct v as [| | | |vs|]; try discriminate; cbn [json.decode_slice] in Ed.
    + inversion Ed. left. split; reflexivity.
    + destruct (json.decode_entries vs) as [es|] eqn:Ees; [|discriminate].
      inversion Ed; subst d. cbn [elems] in Hempty. subst es.
      apply decode_entries_nil in Ees. subst vs. right. split; reflexivity.
Qed.

End Decoding.

(** C7 as stated fails on the text [null]: it is not an array of
    records, yet it decodes without error and List returns it as a store
    without entries. *)
Lemma null_read_as_empty_store :
  ~ spec_record_array "null"
  /\ json.Unmarshal "null" = Ok Nil
  /\ pw.List (fs_raw "null") "pw.scrypt" = Ok Nil.
Proof.
  split; [|split; reflexivity].
  intros (vs & Hp & _). vm_compute in Hp. discriminate.
Qed.

(** * The password generator *)

Lemma get_In (cs : string) :
  forall i c, String.get i cs = Some c -> In c (list_ascii_of_string cs).
Proof.
  induction cs as [|x cs IH]; intros i c H; [destruct i; discriminate|].
  destruct i as [|i]; simpl in H |- *.
  - inversion H; auto.
  - right. eapply IH; eassumption.
Qed.

Section GeneratorFacts.
Context {R : Type} `{RandSource R}.

Lemma generate_loop_bytes (charset : string) (n : nat) :
  forall rng s rng',
    pw.generate_loop n charset rng = (Ok s, rng') ->
    String.length s = n
    /\ Forall (fun c => In c (list_ascii_of_string charset)) (list_ascii_of_string s).
Proof.
  induction n as [|n IH]; intros rng s rng' Hg; cbn [pw.generate_loop] in Hg.
  - inversion Hg; subst. split; [reflexivity | constructor].
  - destruct (rand_Int (Z.of_nat (String.length charset)) rng) as [[idx|] rng1];
      [|discriminate].
    destruct (idx <? 0)%Z; [discriminate|].
    destruct (String.get (Z.to_nat idx) charset) as [c|] eqn:Ec; [|discriminate].
    destruct (pw.generate_loop n charset rng1) as [[rest|e] rng2] eqn:Er;
      [|discriminate].
    inversion Hg; subst; clear Hg.
    destruct (IH _ _ _ Er) as [Hl Hall].
    split; [simpl; congruence|].
    simpl. constructor; [eapply get_In; eassumption | exact Hall].
Qed.

Lemma get_some (cs : string) :
  forall i, (i < String.length cs)%nat -> exists c, String.get i cs = Some c.
Proof.
  induction cs as [|x cs IH]; intros i Hi; [simpl in Hi; lia|].
  destruct i as [|i]; simpl; [eauto|]. apply IH. simpl in Hi. lia.
Qed.

(** With a source that keeps its contract, the loop fails only with the
    error of the source. *)
Lemma generate_loop_errors (charset : string) (n : nat) :
  (forall max rng v rng', (0 < max)%Z -> rand_Int max rng = (Some v, rng') ->
                          (0 <= v < max)%Z) ->
  charset <> EmptyString ->
  forall rng e rng', pw.generate_loop n charset rng = (Err e, rng') -> e = pw.ErrRand.
Proof.
  intros Hrange Hne.
  assert (Hlen : (0 < Z.of_nat (String.length charset))%Z)
    by (destruct charset; [contradiction | simpl; lia]).
  induction n as [|n IH]; intros rng e rng' Hg; cbn [pw.generate_loop] in Hg;
    [discriminate|].
  destruct (rand_Int (Z.of_nat (String.length charset)) rng) as [[idx|] rng1] eqn:Ei;
    [|inversion Hg; reflexivity].
  pose proof (Hrange _ _ _ _ Hlen Ei) as Hidx.
  replace (idx <? 0)%Z with false in Hg by (symmetry; apply Z.ltb_ge; lia).
  destruct (get_some charset (Z.to_nat idx) ltac:(lia)) as [c Hc].
  rewrite Hc in Hg.
  destruct (pw.generate_loop n charset rng1) as [[rest|e1] rng2] eqn:Er;
    [discriminate|].
  inversion Hg; subst. eapply IH; eassumption.
Qed.

End GeneratorFacts.

Lemma runes_from_nil (n : nat) : utf8.runes_from n EmptyString = [].
Proof. destruct n; reflexivity. Qed.

Lemma runes_ascii (x : string) :
  all_ascii x = true -> utf8.runes x = map byte (list_ascii_of_string x).
Proof.
  unfold utf8.runes. induction x as [|c t IH]; intro Ha; [reflexivity|].
  simpl in Ha. apply andb_true_iff in Ha. destruct Ha as [Hc Ht].
  cbn [String.length utf8.runes_from utf8.DecodeRuneInString].
  unfold utf8.RuneSelf. rewrite Hc. cbn [drop list_ascii_of_string map].
  rewrite (IH Ht). reflexivity.
Qed.

Lemma all_ascii_Forall (x : string) :
  all_ascii x = true <-> Forall (fun c => byte c < 0x80) (list_ascii_of_string x).
Proof.
  induction x as [|c t IH]; simpl.
  - split; [constructor | reflexivity].
  - rewrite andb_true_iff, N.ltb_lt, IH. split.
    + intros [? ?]; constructor; assumption.
    + intro F; inversion F; auto.
Qed.

Lemma length_list_ascii (x : string) :
  List.length (list_ascii_of_string x) = String.length x.
Proof. induction x; simpl; congruence. Qed.

(** On an ASCII charset the bytes are the characters. *)
Lemma byte_guarantee_ascii (length : Z) (charset s : string) :
  all_ascii charset = true -> byte_guarantee length charset s ->
  char_guarantee length charset s.
Proof.
  intros Hcs [Hlen Hall].
  assert (Hs : all_ascii s = true).
  { apply all_ascii_Forall. apply all_ascii_Forall in Hcs.
    rewrite Forall_forall in *. intros c Hc. apply Hcs, Hall, Hc. }
  unfold char_guarantee. rewrite (runes_ascii s Hs), (runes_ascii charset Hcs).
  split.
  - rewrite length_map, length_list_ascii. exact Hlen.
  - rewrite Forall_forall in *. intros r Hr.
    apply in_map_iff in Hr. destruct Hr as (c & <- & Hc).
    apply in_map, Hall, Hc.
Qed.

Lemma runes_single (pre : string) (r : N) :
  (1 <= String.length pre)%nat ->
  utf8.DecodeRuneInString pre = (r, String.length pre) ->
  utf8.runes pre = [r].
Proof.
  intros Hlen HD. unfold utf8.runes.
  destruct pre as [|c p]; [simpl in Hlen; lia|].
  cbn [String.length utf8.runes_from].
  change (S (String.length p)) with (String.length (String c p)) in HD.
  rewrite HD.
  rewrite <- (append_nil_r (String c p)) at 2.
  rewrite drop_append, runes_from_nil. reflexivity.
Qed.

(** A valid charset that is not ASCII holds a multi-byte character. *)
Lemma find_multibyte (cs : string) :
  utf8.ValidString cs = true -> all_ascii cs = false ->
  exists a pre t r,
    cs = a ++ pre ++ t /\ (2 <= String.length pre)%nat
    /\ utf8.DecodeRuneInString pre = (r, String.length pre).
Proof.
  induction cs as [|c t IH]; intros Hv Ha; [discriminate|].
  simpl in Ha. destruct (byte c <? 0x80) eqn:Ec.
  - rewrite ValidString_ascii in Hv by (apply N.ltb_lt; exact Ec).
    destruct (IH Hv Ha) as (a & pre & t' & r & -> & Hlen & HD).
    exists (String c a), pre, t', r. repeat split; assumption.
  - clear IH Ha. unfold utf8.ValidString in Hv.
    cbn [String.length utf8.valid_from] in Hv.
    unfold utf8.RuneSelf in Hv. rewrite Ec in Hv.
    destruct (utf8.DecodeRuneInString (String c t)) as [r size] eqn:HD.
    destruct (size =? 1)%nat eqn:E1; [discriminate|]. apply Nat.eqb_neq in E1.
    pose proof (decode_size_pos _ _ _ _ HD).
    destruct (decode_multi _ _ _ HD ltac:(lia)) as (pre & t' & Hs & Hpre & _ & _ & HDY).
    exists EmptyString, pre, t', r. subst size. repeat split.
    + exact Hs.
    + lia.
    + specialize (HDY EmptyString). rewrite append_nil_r in HDY. exact HDY.
Qed.

Lemma get_append_here (a : string) (c : ascii) (t : string) :
  String.get (String.length a) (a ++ String c t) = Some c.
Proof. induction a as [|x a IH]; simpl; [reflexivity | exact IH]. Qed.

(** A successful run yields [length] bytes of the charset. *)
Lemma GeneratePassword_ok_bytes {R : Type} `{Platform} `{RandSource R}
  (length : Z) (charset : string) (rng rng' : R) (s : string) :
  pw.GeneratePassword length charset rng = (Ok s, rng') ->
  byte_guarantee length charset s.
Proof.
  unfold pw.GeneratePassword.
  destruct (length <=? 0)%Z eqn:El; [discriminate|]. apply Z.leb_gt in El.
  destruct (String.length charset =? 0)%nat; [discriminate|].
  destruct (alloc_limit <? length)%Z; [discriminate|].
  intro Hg. destruct (generate_loop_bytes _ _ _ _ _ Hg) as [Hlen Hall].
  split; [rewrite Hlen; lia | exact Hall].
Qed.

(** [rand.Int] keeps its contract: what it returns is below the bound. *)
Lemma SetBytes_from (l : list Z) (acc : Z) :
  Forall (fun b => (0 <= b)%Z) l -> (0 <= acc)%Z ->
  (0 <= fold_left (fun a b => (a * 256 + b)%Z) l acc)%Z.
Proof.
  intro Hl. revert acc. induction Hl as [|b l Hb _ IH]; intros acc Hacc; simpl;
    [exact Hacc | apply IH; lia].
Qed.

Lemma Int_loop_range (k : nat) (mask max : Z) (rounds : nat) :
  forall tape v tape',
    rand.Int_loop rounds k mask max tape = (Some v, tape') -> (0 <= v < max)%Z.
Proof.
  induction rounds as [|rounds IH]; intros tape v tape' E; simpl in E; [discriminate|].
  destruct (List.length tape <? k)%nat; [discriminate|].
  destruct (firstn k tape) as [|b0 more]; [discriminate|].
  match type of E with (if (?n <? max)%Z then _ else _) = _ =>
    destruct (Z.ltb_spec n max) as [Hlt|Hge]; [|eapply IH; exact E];
    assert (Hn : (0 <= n)%Z) end.
  { apply SetBytes_from; [|lia]. constructor.
    - apply Z.land_nonneg. left. apply Z.mod_pos_bound. lia.
    - apply Forall_forall. intros b Hb. apply in_map_iff in Hb.
      destruct Hb as (x & <- & _). apply Z.mod_pos_bound. lia. }
  inversion E; subst. lia.
Qed.

Lemma tape_rng_range :
  forall (max : Z) (r : list Z) (v : Z) (r' : list Z),
    (0 < max)%Z -> rand_Int max r = (Some v, r') -> (0 <= v < max)%Z.
Proof.
  intros max r v r' Hmax E. cbn [rand_Int tape_rng] in E.
  replace (max <=? 0)%Z with false in E by (symmetry; apply Z.leb_gt; lia).
  unfold rand.Int in E.
  destruct (rand.BitLen (max - 1) =? 0)%Z.
  - inversion E; subst. lia.
  - eapply Int_loop_range; exact E.
Qed.

Lemma length_drop (n : nat) (s : string) :
  String.length (drop n s) = (String.length s - n)%nat.
Proof.
  revert s. induction n as [|n IH]; intros [|c t]; simpl; try lia. apply IH.
Qed.

(** A string has at most as many characters as bytes; a valid one has as
    many only when all its bytes are ASCII. *)
Lemma runes_count (fuel : nat) :
  forall s, (String.length s <= fuel)%nat ->
    (List.length (utf8.runes_from fuel s) <= String.length s)%nat
    /\ (utf8.valid_from fuel s = true ->
        List.length (utf8.runes_from fuel s) = String.length s ->
        all_ascii s = true).
Proof.
  induction fuel as [|fuel IH]; intros s Hs.
  - destruct s; simpl in *; [split; auto | lia].
  - destruct s as [|c t]; [simpl; split; auto|].
    cbn [utf8.runes_from utf8.valid_from].
    destruct (utf8.DecodeRuneInString (String c t)) as [r size] eqn:HD.
    pose proof (decode_size_pos _ _ _ _ HD) as Hpos.
    assert (Hd : (String.length (drop size (String c t)) <= fuel)%nat).
    { rewrite length_drop. cbn [String.length] in *. lia. }
    destruct (IH _ Hd) as [Hle Hall].
    rewrite length_drop in Hle. cbn [List.length].
    split; [cbn [String.length] in *; lia|].
    unfold utf8.RuneSelf. destruct (byte c <? 0x80) eqn:Ec.
    + assert (E1 : size = 1%nat).
      { cbn [utf8.DecodeRuneInString] in HD. unfold utf8.RuneSelf in HD.
        rewrite Ec in HD. inversion HD. reflexivity. }
      subst size. cbn [drop] in *. intros Hv Hlen. cbn [all_ascii]. rewrite Ec.
      cbn [andb]. apply Hall; [exact Hv | cbn [String.length] in Hlen; lia].
    + destruct (size =? 1)%nat eqn:E1; [discriminate|]. apply Nat.eqb_neq in E1.
      intros _ Hlen. exfalso.
      destruct (decode_multi _ _ _ HD ltac:(lia)) as (pre & u & Hsplit & Hpre & _).
      assert (Hsz : (size <= String.length (String c t))%nat).
      { rewrite Hsplit, length_append. lia. }
      cbn [String.length] in *. lia.
Qed.

(** In a valid string every character is a single byte exactly when
    every byte is ASCII. *)
Lemma single_byte_ascii (s : string) :
  utf8.ValidString s = true ->
  (single_byte_chars s = true <-> all_ascii s = true).
Proof.
  intro Hv. unfold single_byte_chars. rewrite Nat.eqb_eq. split.
  - intro Hlen. apply (proj2 (runes_count _ s (Nat.le_refl _)) Hv Hlen).
  - intro Ha. rewrite (runes_ascii s Ha), length_map. apply length_list_ascii.
Qed.

(** ** [rand.Int] reads what was written for it *)

Lemma to_bytes_length (k : nat) (i : Z) : List.length (to_bytes k i) = k.
Proof. induction k as [|k IH]; simpl; [reflexivity | rewrite IH; reflexivity]. Qed.

Lemma to_bytes_small (k : nat) (i : Z) :
  map (fun b => (b mod 256)%Z) (to_bytes k i) = to_bytes k i.
Proof.
  induction k as [|k IH]; [reflexivity|]. cbn [to_bytes map]. rewrite IH.
  rewrite Z.mod_mod by lia. reflexivity.
Qed.

Lemma fold_bytes (l : list Z) (acc : Z) :
  fold_left (fun a b => (a * 256 + b)%Z) l acc
  = (acc * 256 ^ Z.of_nat (List.length l) + rand.SetBytes l)%Z.
Proof.
  unfold rand.SetBytes. revert acc.
  induction l as [|b l IH]; intro acc; [simpl; lia|].
  cbn [fold_left List.length]. rewrite IH, (IH (0 * 256 + b)%Z).
  rewrite Nat2Z.inj_succ, Z.pow_succ_r by lia. ring.
Qed.

Lemma SetBytes_to_bytes (k : nat) (i : Z) :
  (0 <= i)%Z -> rand.SetBytes (to_bytes k i) = (i mod 256 ^ Z.of_nat k)%Z.
Proof.
  intro Hi. induction k as [|k IH].
  - simpl. rewrite Z.mod_1_r. reflexivity.
  - cbn [to_bytes]. unfold rand.SetBytes. cbn [fold_left].
    rewrite fold_bytes, to_bytes_length, IH.
    rewrite Nat2Z.inj_succ, Z.pow_succ_r by lia.
    rewrite (Z.mul_comm 256), Z.rem_mul_r by lia. ring.
Qed.

(** The bit length bounds the number, and splits into whole bytes and the
    bits of the first byte. *)
Lemma BitLen_spec (n : Z) :
  (1 <= n)%Z ->
  let L := rand.BitLen n in
  let k := ((L + 7) / 8)%Z in
  let b := (if (L mod 8 =? 0)%Z then 8 else L mod 8)%Z in
  (n < 2 ^ L)%Z /\ (1 <= L)%Z /\ (1 <= k)%Z /\ (1 <= b <= 8)%Z
  /\ L = (8 * (k - 1) + b)%Z.
Proof.
  intros Hn L k b. subst L k b. unfold rand.BitLen.
  replace (n <=? 0)%Z with false by (symmetry; apply Z.leb_gt; lia).
  pose proof (Z.log2_nonneg n) as H0.
  pose proof (Z.log2_spec n ltac:(lia)) as [_ Hup].
  replace (Z.succ (Z.log2 n)) with (Z.log2 n + 1)%Z in Hup by lia.
  split; [exact Hup|]. split; [lia|].
  set (L := (Z.log2 n + 1)%Z) in *.
  assert (HL : (1 <= L)%Z) by (subst L; lia).
  pose proof (Z.div_mod (L + 7) 8 ltac:(lia)) as Hd.
  pose proof (Z.mod_pos_bound (L + 7) 8 ltac:(lia)) as Hm.
  pose proof (Z.div_mod L 8 ltac:(lia)) as Hd'.
  pose proof (Z.mod_pos_bound L 8 ltac:(lia)) as Hm'.
  destruct (Z.eqb_spec (L mod 8) 0) as [E|E]; lia.
Qed.

Lemma firstn_exact {A : Type} (l rest : list A) :
  firstn (List.length l) (l ++ rest) = l.
Proof. induction l as [|x l IH]; simpl; [reflexivity | rewrite IH; reflexivity]. Qed.

Lemma skipn_exact {A : Type} (l rest : list A) :
  skipn (List.length l) (l ++ rest) = rest.
Proof. induction l as [|x l IH]; simpl; [reflexivity | exact IH]. Qed.

(** One round of the loop on a tape that starts with the [k] bytes read. *)
Lemma Int_loop_round (rounds : nat) (mask max b0 : Z) (more rest : list Z) :
  (1 <= rounds)%nat ->
  rand.Int_loop rounds (List.length (b0 :: more)) mask max ((b0 :: more) ++ rest)
  = let n := rand.SetBytes (Z.land (b0 mod 256) mask
                            :: map (fun b => (b mod 256)%Z) more) in
    if (n <? max)%Z then (Some n, rest)
    else rand.Int_loop (rounds - 1) (List.length (b0 :: more)) mask max rest.
Proof.
  intro Hr. destruct rounds as [|rounds]; [lia|].
  cbn [rand.Int_loop].
  replace (List.length ((b0 :: more) ++ rest) <? List.length (b0 :: more))%nat
    with false by (symmetry; apply Nat.ltb_ge; rewrite length_app; lia).
  rewrite firstn_exact, skipn_exact.
  replace (S rounds - 1)%nat with rounds by lia. reflexivity.
Qed.

(** [rand.Int] reads back a number below the bound from its bytes. *)
Lemma Int_encode (max i : Z) (rest : list Z) :
  (2 <= max)%Z -> (0 <= i < max)%Z ->
  rand.Int max
    (to_bytes (Z.to_nat ((rand.BitLen (max - 1) + 7) / 8)) i ++ rest)%list
  = (Some i, rest).
Proof.
  intros Hmax Hi. unfold rand.Int.
  destruct (BitLen_spec (max - 1) ltac:(lia)) as (Hup & HL & Hk & Hb & Hsplit).
  set (L := rand.BitLen (max - 1)) in *.
  set (k := ((L + 7) / 8)%Z) in *.
  set (b := (if (L mod 8 =? 0)%Z then 8 else L mod 8)%Z) in *.
  replace (L =? 0)%Z with false by (symmetry; apply Z.eqb_neq; lia).
  assert (Hkn : Z.to_nat k = S (Z.to_nat (k - 1))) by lia.
  assert (Hpow : (2 ^ L = 256 ^ (k - 1) * 2 ^ b)%Z).
  { rewrite Hsplit, Z.pow_add_r, Z.pow_mul_r by lia. reflexivity. }
  assert (Hlow : (0 < 256 ^ (k - 1))%Z) by (apply Z.pow_pos_nonneg; lia).
  assert (Htop : (0 <= i / 256 ^ (k - 1) < 2 ^ b)%Z).
  { split; [apply Z.div_pos; lia|]. apply Z.div_lt_upper_bound; lia. }
  assert (Hb256 : (2 ^ b <= 256)%Z).
  { change 256%Z with (2 ^ 8)%Z. apply Z.pow_le_mono_r; lia. }
  assert (Hbytes : to_bytes (Z.to_nat k) i
                   = (i / 256 ^ (k - 1))%Z :: to_bytes (Z.to_nat (k - 1)) i).
  { rewrite Hkn. cbn [to_bytes]. rewrite Z2Nat.id by lia.
    rewrite (Z.mod_small (i / 256 ^ (k - 1)) 256) by lia. reflexivity. }
  assert (Hval : rand.SetBytes ((i / 256 ^ (k - 1))%Z :: to_bytes (Z.to_nat (k - 1)) i) = i).
  { rewrite <- Hbytes, SetBytes_to_bytes by lia.
    apply Z.mod_small. rewrite Z2Nat.id by lia.
    split; [lia|].
    assert (H256 : (256 ^ k = 256 ^ (k - 1) * 256)%Z).
    { replace k with (k - 1 + 1)%Z at 1 by lia. rewrite Z.pow_add_r by lia. lia. }
    nia. }
  assert (Hlen : Z.to_nat k
                 = List.length ((i / 256 ^ (k - 1))%Z :: to_bytes (Z.to_nat (k - 1)) i)).
  { cbn [List.length]. rewrite to_bytes_length. exact Hkn. }
  rewrite Hbytes, Hlen.
  rewrite Int_loop_round by (rewrite length_app; cbn [List.length]; lia). cbv zeta.
  rewrite (Z.mod_small (i / 256 ^ (k - 1)) 256) by lia.
  replace (2 ^ b - 1)%Z with (Z.ones b) by (rewrite Z.ones_equiv; lia).
  rewrite Z.land_ones by lia. rewrite (Z.mod_small _ (2 ^ b)) by lia.
  rewrite to_bytes_small, Hval.
  replace (i <? max)%Z with true by (symmetry; apply Z.ltb_lt; lia).
  reflexivity.
Qed.

(** Drawing the positions of a substring, in order, yields it. *)
Lemma generate_encoded (cs : string) (pre : string) :
  (2 <= String.length cs)%nat ->
  forall a t rest,
    cs = a ++ pre ++ t ->
    pw.generate_loop (String.length pre) cs
      (encode (Z.of_nat (String.length cs))
              (seq (String.length a) (String.length pre)) ++ rest)%list
    = (Ok pre, rest).
Proof.
  intro Hcs2.
  induction pre as [|c pre IH]; intros a t rest Hcs; [reflexivity|].
  assert (Hlt : (String.length a < String.length cs)%nat).
  { rewrite Hcs, !length_append. simpl. lia. }
  cbn [String.length seq pw.generate_loop]. unfold encode. cbn [map concat].
  rewrite <- app_assoc. cbn [rand_Int tape_rng].
  replace (Z.of_nat (String.length cs) <=? 0)%Z with false
    by (symmetry; apply Z.leb_gt; lia).
  rewrite Int_encode by lia.
  replace (Z.of_nat (String.length a) <? 0)%Z with false
    by (symmetry; apply Z.ltb_ge; lia).
  rewrite Nat2Z.id.
  rewrite Hcs at 1. change (String c pre ++ t) with (String c (pre ++ t)).
  rewrite get_append_here.
  assert (Hcs' : cs = (a ++ String c EmptyString) ++ pre ++ t).
  { rewrite Hcs, append_assoc. reflexivity. }
  specialize (IH (a ++ String c EmptyString) t rest Hcs').
  rewrite length_append in IH. simpl in IH.
  replace (String.length a + 1)%nat with (S (String.length a)) in IH by lia.
  unfold encode in IH. rewrite IH. reflexivity.
Qed.

(** C10, amended.  For a non-empty charset and a positive length that
    [make] can allocate, a run of GeneratePassword over a source that
    keeps the contract of [rand.Int] ends with the error of the source or
    with a string of [length] bytes, each a byte of the charset; beyond
    what [make] can allocate the program ends in [make], before any draw.
    So, for a charset that is valid UTF-8: when each character of the
    charset is a single byte, every password, whatever the source, has
    [length] characters, all characters of the charset; and when the
    passwords that [rand.Int] yields from the bytes of a reader all do,
    each character of the charset is a single byte. *)
Theorem GeneratePassword_bytes (charset : string) :
  charset <> EmptyString ->
  (forall (R : Type) (P : Platform) (RS : RandSource R) (length : Z) (rng : R),
     (forall max r v r', (0 < max)%Z -> rand_Int max r = (Some v, r') ->
                         (0 <= v < max)%Z) ->
     (0 < length)%Z ->
     ((length <= alloc_limit)%Z ->
      (exists rng', pw.GeneratePassword length charset rng = (Err pw.ErrRand, rng'))
      \/ (exists s rng', pw.GeneratePassword length charset rng = (Ok s, rng')
                         /\ byte_guarantee length charset s))
     /\ ((alloc_limit < length)%Z ->
         pw.GeneratePassword length charset rng = (Err pw.PanicMakeslice, rng)))
  /\ (utf8.ValidString charset = true ->
      (single_byte_chars charset = true ->
       forall (R : Type) (P : Platform) (RS : RandSource R)
              (length : Z) (rng rng' : R) (s : string),
         pw.GeneratePassword length charset rng = (Ok s, rng') ->
         char_guarantee length charset s)
      /\ ((forall (P : Platform) (length : Z) (tape tape' : list Z) (s : string),
             @pw.GeneratePassword (list Z) P tape_rng length charset tape
             = (Ok s, tape') ->
             char_guarantee length charset s) ->
          single_byte_chars charset = true)).
Proof.
  intro Hne.
  assert (E0 : (String.length charset =? 0)%nat = false).
  { destruct (String.length charset =? 0)%nat eqn:E0; [|reflexivity].
    apply length_eqb_0 in E0. contradiction. }
  split.
  - intros R P RS length rng Hrange Hlen. split.
    + intro Hroom.
      destruct (pw.GeneratePassword length charset rng) as [[s|e] rng'] eqn:Hg.
      * right. exists s, rng'. split; [reflexivity|].
        eapply GeneratePassword_ok_bytes; exact Hg.
      * left. exists rng'. unfold pw.GeneratePassword in Hg.
        replace (length <=? 0)%Z with false in Hg by (symmetry; apply Z.leb_gt; lia).
        rewrite E0 in Hg.
        replace (alloc_limit <? length)%Z with false in Hg
          by (symmetry; apply Z.ltb_ge; lia).
        rewrite (generate_loop_errors charset _ Hrange Hne _ _ _ Hg). reflexivity.
    + intro Hbig. unfold pw.GeneratePassword.
      replace (length <=? 0)%Z with false by (symmetry; apply Z.leb_gt; lia).
      rewrite E0.
      replace (alloc_limit <? length)%Z with true by (symmetry; apply Z.ltb_lt; lia).
      reflexivity.
  - intro Hvalid. rewrite (single_byte_ascii charset Hvalid). split.
    + intros Hascii R P RS length rng rng' s Hg.
      apply byte_guarantee_ascii; [exact Hascii|].
      eapply GeneratePassword_ok_bytes; exact Hg.
    + intro Hall. destruct (all_ascii charset) eqn:Ha; [reflexivity|]. exfalso.
      destruct (find_multibyte charset Hvalid Ha) as (a & pre & t & r & Hcs & Hlen & HD).
      assert (Hcs2 : (2 <= String.length charset)%nat).
      { rewrite Hcs, !length_append. lia. }
      assert (Hg : @pw.GeneratePassword (list Z)
                     (with_limit (Z.of_nat (String.length pre))) tape_rng
                     (Z.of_nat (String.length pre)) charset
                     (encode (Z.of_nat (String.length charset))
                             (seq (String.length a) (String.length pre)) ++ [])%list
                   = (Ok pre, [])).
      { unfold pw.GeneratePassword.
        replace (Z.of_nat (String.length pre) <=? 0)%Z with false
          by (symmetry; apply Z.leb_gt; lia).
        rewrite E0. cbn [alloc_limit with_limit]. rewrite Z.ltb_irrefl.
        rewrite Nat2Z.id. apply (generate_encoded charset pre Hcs2 a t [] Hcs). }
      destruct (Hall _ _ _ _ _ Hg) as [Hcount _].
      rewrite (runes_single pre r ltac:(lia) HD) in Hcount. simpl in Hcount. lia.
Qed.

(** C10 as stated fails at a charset that is no valid UTF-8: each of the
    two characters of the charset A9 C3 is a single (invalid) byte, yet
    the draws 1, 0 yield the bytes C3 A9, one character where two were
    asked for.  And no string is returned for a length that [make]
    cannot allocate. *)
Lemma GeneratePassword_bytes_invalid_charset :
  utf8.runes charset_A9_C3 = [utf8.RuneError; utf8.RuneError]
  /\ single_byte_chars charset_A9_C3 = true
  /\ pw.GeneratePassword 2 charset_A9_C3 [1; 0]%Z = (Ok charset_e_acute, [])
  /\ utf8.runes charset_e_acute = [0xE9]
  /\ ~ char_guarantee 2 charset_A9_C3 charset_e_acute
  /\ pw.GeneratePassword (2 ^ 48 + 1) "ab" [1; 0]%Z
     = (Err pw.PanicMakeslice, [1; 0]%Z).
Proof.
  repeat split; try (vm_compute; reflexivity).
  intros [Hc _]. vm_compute in Hc. discriminate.
Qed.

Lemma GeneratePassword_bytes_witness :
  (exists rng', pw.GeneratePassword 10 "ab" [0; 1; 1; 0; 1; 0; 0; 1; 1; 1]%Z
                = (Err pw.ErrRand, rng'))
  \/ (exists s rng', pw.GeneratePassword 10 "ab" [0; 1; 1; 0; 1; 0; 0; 1; 1; 1]%Z
                     = (Ok s, rng')
                     /\ byte_guarantee 10 "ab" s).
Proof.
  assert (Hne : "ab" <> EmptyString) by discriminate.
  apply (proj1 (proj1 (GeneratePassword_bytes "ab" Hne) (list Z) plain_scrypt tape_rng
                  10%Z [0; 1; 1; 0; 1; 0; 0; 1; 1; 1]%Z tape_rng_range ltac:(lia))).
  vm_compute. discriminate.
Defined.

Lemma GeneratePassword_ab {R : Type} `{Platform} `{RandSource R}
  (rng rng' : R) (s : string) :
  pw.GeneratePassword 10 "ab" rng = (Ok s, rng') ->
  char_guarantee 10 "ab" s.
Proof.
  intro Hg. apply byte_guarantee_ascii; [reflexivity|].
  eapply GeneratePassword_ok_bytes; exact Hg.
Qed.

(** C8 at a charset of one two-byte character: the draws 0, 1 yield one
    character where two were asked for, and the draws 0, 0 yield two
    characters that are not in the charset. *)
Lemma GeneratePassword_multibyte_charset :
  pw.GeneratePassword 2 charset_e_acute [0; 1]%Z = (Ok charset_e_acute, [])
  /\ utf8.runes charset_e_acute = [0xE9]
  /\ ~ char_guarantee 2 charset_e_acute charset_e_acute
  /\ pw.GeneratePassword 2 charset_e_acute [0; 0]%Z = (Ok (bytes [0xC3; 0xC3]), [])
  /\ utf8.runes (bytes [0xC3; 0xC3]) = [utf8.RuneError; utf8.RuneError]
  /\ ~ char_guarantee 2 charset_e_acute (bytes [0xC3; 0xC3]).
Proof.
  repeat split; try (vm_compute; reflexivity).
  - intros [Hc _]. vm_compute in Hc. discriminate.
  - intros [_ Hall]. inversion Hall as [|x l Hx _]; subst.
    vm_compute in Hx. destruct Hx as [Hx|[]]. discriminate.
Qed.

(** * Further properties of the store *)

Section MoreStoreFacts.
Context `{Platform}.

Lemma get_loop_none (data : list PasswordEntry) (name : string) :
  Forall (fun e => Name e <> name) data -> pw.get_loop data name = None.
Proof.
  induction 1 as [|e l He _ IH]; simpl; [reflexivity|].
  destruct (String.eqb_spec (Name e) name); [contradiction | exact IH].
Qed.

Lemma get_loop_first (l1 l2 : list PasswordEntry) (x : PasswordEntry) (name : string) :
  Forall (fun e => Name e <> name) l1 -> Name x = name ->
  pw.get_loop (l1 ++ x :: l2) name = Some x.
Proof.
  intros Hl Hx. induction Hl as [|e l He _ IH]; simpl.
  - rewrite Hx, String.eqb_refl. reflexivity.
  - destruct (String.eqb_spec (Name e) name); [contradiction | exact IH].
Qed.

(** X1.  Get returns the first entry of the given name and fails with
    [ErrPwNotFound] when the store has no entry of that name. *)
Theorem Get_contract (fs : FS) (filename name : string) (data : slice PasswordEntry) :
  pw.read fs filename = Ok data ->
  (Forall (fun e => Name e <> name) (elems data) ->
     pw.Get fs filename name = Err pw.ErrPwNotFound)
  /\ (forall l1 x l2,
        elems data = (l1 ++ x :: l2)%list ->
        Forall (fun e => Name e <> name) l1 -> Name x = name ->
        pw.Get fs filename name = Ok x).
Proof.
  intro Hread. pose proof (read_some_path _ _ _ Hread) as Ef.
  unfold pw.Get. rewrite Ef, Hread. split.
  - intro Hnone. rewrite (get_loop_none _ _ Hnone). reflexivity.
  - intros l1 x l2 -> Hl Hx. rewrite (get_loop_first _ _ _ _ Hl Hx). reflexivity.
Qed.

(** The errors of [read]. *)
Lemma read_errors (fs : FS) (f : string) (e : pw.error) :
  pw.read fs f = Err e ->
  e = pw.ErrPwFileNotFound \/ e = pw.ErrStat \/ e = pw.ErrIsDirectory
  \/ e = pw.ErrScryptDec \/ exists j, e = pw.ErrInvalidJSON j.
Proof.
  unfold pw.read.
  destruct (os.Stat fs f) as [[|]| |]; try (intro E; inversion E; tauto).
  destruct (run_scrypt_dec fs f); [|intro E; inversion E; tauto].
  destruct (json.Unmarshal s); intro E; inversion E. right; right; right; right; eauto.
Qed.

(** X2.  A store that cannot be read is not written: on a non-empty
    path, when the file is missing, is a directory, cannot be decrypted or
    does not hold the JSON of a store, every operation returns the error
    of reading and Add, Update and Remove leave the file system as it is. *)
Theorem unreadable_store_untouched (fs : FS) (filename name : string)
  (R : PasswordEntry) (e : pw.error) :
  filename <> EmptyString -> pw.read fs filename = Err e ->
  pw.Get fs filename name = Err e
  /\ pw.List fs filename = Err e
  /\ pw.Add fs filename R = (fs, Some e)
  /\ pw.Update fs filename R = (fs, Some e)
  /\ pw.Remove fs filename name = (fs, Some e)
  /\ (e = pw.ErrPwFileNotFound \/ e = pw.ErrStat \/ e = pw.ErrIsDirectory
      \/ e = pw.ErrScryptDec \/ exists j, e = pw.ErrInvalidJSON j).
Proof.
  intros Hne Hread.
  assert (Ef : (String.length filename =? 0)%nat = false).
  { destruct (String.length filename =? 0)%nat eqn:E; [|reflexivity].
    apply length_eqb_0 in E. contradiction. }
  unfold pw.Get, pw.List, pw.Add, pw.Update, pw.Remove. rewrite Ef, Hread.
  repeat split. eapply read_errors; eassumption.
Qed.

End MoreStoreFacts.

Lemma Get_contract_witness :
  pw.Get fs_ABC "pw.scrypt" "B" = Ok entry_B
  /\ pw.Get fs_ABC "pw.scrypt" "Z" = Err pw.ErrPwNotFound.
Proof.
  assert (Hread : pw.read fs_ABC "pw.scrypt" = Ok (Elems [entry_A; entry_B; entry_C]))
    by (vm_compute; reflexivity).
  split.
  - apply (proj2 (Get_contract fs_ABC "pw.scrypt" "B" _ Hread) [entry_A] entry_B [entry_C]);
      [reflexivity | repeat constructor; discriminate | reflexivity].
  - apply (proj1 (Get_contract fs_ABC "pw.scrypt" "Z" _ Hread)).
    repeat constructor; discriminate.
Defined.

Lemma unreadable_store_untouched_witness :
  pw.Add fs_dir "pw.scrypt" entry_A = (fs_dir, Some pw.ErrIsDirectory).
Proof.
  apply (unreadable_store_untouched fs_dir "pw.scrypt" "A" entry_A pw.ErrIsDirectory);
    [discriminate | reflexivity].
Defined.


Section ComposedOperations.
Context `{Platform}.

Lemma stored_path (fs : FS) (f : string) (d : slice PasswordEntry) :
  stored fs f d -> (String.length f =? 0)%nat = false.
Proof.
  intros (c & Hc & _). unfold entry in Hc.
  destruct (String.length f =? 0)%nat; [discriminate | reflexivity].
Qed.

(** Reading back what [write] wrote. *)
Lemma read_back (fs fs' : FS) (f : string) (d : slice PasswordEntry) :
  faithful_scrypt -> forallb valid_entry (elems d) = true ->
  pw.write fs f d = (fs', None) ->
  pw.read fs' f = Ok d /\ pw.List fs' f = Ok d.
Proof.
  intros Hde Hv Hw. destruct (write_ok _ _ _ _ Hw) as [Hst _].
  pose proof (read_stored fs' f d Hde Hst Hv) as Hr.
  split; [exact Hr|]. unfold pw.List. rewrite (stored_path _ _ _ Hst). exact Hr.
Qed.

Lemma Add_success (fs fs' : FS) (f : string) (data : slice PasswordEntry)
  (R : PasswordEntry) :
  pw.read fs f = Ok data -> pw.Add fs f R = (fs', None) ->
  Forall (fun e => Name e <> Name R) (elems data)
  /\ pw.write fs f (Elems (elems data ++ [R])%list) = (fs', None).
Proof.
  intros Hread Ha. pose proof (read_some_path _ _ _ Hread) as Ef.
  unfold pw.Add in Ha. rewrite Ef, Hread, exists_loop_existsb in Ha.
  destruct (existsb _ _) eqn:Ex; [discriminate|]. split; [|exact Ha].
  apply Forall_forall. intros e He Hn.
  assert (C : existsb (fun e => (Name e =? Name R)%string) (elems data) = true).
  { apply existsb_exists. exists e. split; [exact He|]. rewrite Hn. apply String.eqb_refl. }
  congruence.
Qed.

Lemma update_loop_found (data : list PasswordEntry) (R : PasswordEntry) :
  forall d', pw.update_loop data R = (d', true) ->
  exists l1 x l2, data = (l1 ++ x :: l2)%list
    /\ Forall (fun e => Name e <> Name R) l1 /\ Name x = Name R
    /\ d' = (l1 ++ R :: l2)%list.
Proof.
  induction data as [|e l IH]; intros d' Hu; simpl in Hu; [discriminate|].
  destruct (String.eqb_spec (Name e) (Name R)) as [En|En].
  - inversion Hu; subst. exists [], e, l. repeat split; auto.
  - destruct (pw.update_loop l R) as [rest found] eqn:Er.
    inversion Hu; subst. destruct (IH rest eq_refl) as (l1 & x & l2 & -> & Hl & Hx & ->).
    exists (e :: l1), x, l2. repeat split; auto.
Qed.

Lemma Update_success (fs fs' : FS) (f : string) (data : slice PasswordEntry)
  (R : PasswordEntry) :
  pw.read fs f = Ok data -> pw.Update fs f R = (fs', None) ->
  exists l1 x l2, elems data = (l1 ++ x :: l2)%list
    /\ Forall (fun e => Name e <> Name R) l1 /\ Name x = Name R
    /\ pw.write fs f (Elems (l1 ++ R :: l2)%list) = (fs', None).
Proof.
  intros Hread Hu. pose proof (read_some_path _ _ _ Hread) as Ef.
  unfold pw.Update in Hu. rewrite Ef, Hread in Hu.
  destruct (pw.update_loop (elems data) R) as [d' [|]] eqn:El; simpl in Hu;
    [|discriminate].
  destruct (update_loop_found _ _ _ El) as (l1 & x & l2 & Hd & Hl & Hx & ->).
  exists l1, x, l2. auto.
Qed.

Lemma Remove_success (fs fs' : FS) (f name : string) (data : slice PasswordEntry) :
  pw.read fs f = Ok data -> pw.Remove fs f name = (fs', None) ->
  pw.write fs f (Elems (filter (other_name name) (elems data))) = (fs', None).
Proof.
  intros Hread Hr. pose proof (read_some_path _ _ _ Hread) as Ef.
  unfold pw.Remove in Hr. rewrite Ef, Hread, remove_loop_spec in Hr.
  destruct (existsb _ _); simpl in Hr; [exact Hr | discriminate].
Qed.

Lemma forallb_valid_split (l1 l2 : list PasswordEntry) (x : PasswordEntry) :
  forallb valid_entry (l1 ++ x :: l2) = true ->
  forall R, valid_entry R = true -> forallb valid_entry (l1 ++ R :: l2) = true.
Proof.
  intros Hv R HR. rewrite forallb_app in *. simpl in *.
  apply andb_true_iff in Hv. destruct Hv as [H1 H2].
  apply andb_true_iff in H2. destruct H2 as [_ H2].
  rewrite H1, HR, H2. reflexivity.
Qed.

Lemma forallb_valid_filter (p : PasswordEntry -> bool) (l : list PasswordEntry) :
  forallb valid_entry l = true -> forallb valid_entry (filter p l) = true.
Proof.
  induction l as [|e l IH]; simpl; [reflexivity|]. intro Hv.
  apply andb_true_iff in Hv. destruct Hv as [He Hl].
  destruct (p e); simpl; [rewrite He|]; auto.
Qed.

Lemma filter_other_name_none (name : string) (l : list PasswordEntry) :
  Forall (fun e => Name e <> name) (filter (other_name name) l).
Proof.
  apply Forall_forall. intros e He. apply filter_In in He. destruct He as [_ Ho].
  unfold other_name in Ho. apply negb_true_iff in Ho.
  apply String.eqb_neq. exact Ho.
Qed.

(** X4.  A successful Init found neither a file nor a directory at the
    path and leaves the encoding of the empty sequence there.  A second
    Init fails with [ErrPwFileAlreadyExists]; when [scrypt] decrypts what
    it encrypted, List returns the empty sequence, which is not nil, and
    Get finds no entry. *)
Theorem Init_contract (fs fs' : FS) (filename : string) :
  pw.Init fs filename = (fs', None) ->
  (forall isDir, os.Stat fs filename <> os.StatOk isDir)
  /\ stored fs' filename (Elems [])
  /\ pw.Init fs' filename = (fs', Some pw.ErrPwFileAlreadyExists)
  /\ (faithful_scrypt ->
      pw.List fs' filename = Ok (Elems [])
      /\ forall name, pw.Get fs' filename name = Err pw.ErrPwNotFound).
Proof.
  intro Hi. unfold pw.Init in Hi.
  destruct (String.length filename =? 0)%nat eqn:Ef; [discriminate|].
  assert (Hw : pw.write fs filename (Elems []) = (fs', None)
               /\ forall isDir, os.Stat fs filename <> os.StatOk isDir).
  { destruct (os.Stat fs filename); [discriminate| |]; split; auto; discriminate. }
  destruct Hw as [Hw Hstat]. destruct (write_ok _ _ _ _ Hw) as [Hst _].
  split; [exact Hstat|]. split; [exact Hst|]. split.
  - unfold pw.Init, os.Stat. rewrite Ef. destruct Hst as (c & -> & _). reflexivity.
  - intro Hde. destruct (read_back fs fs' filename (Elems []) Hde eq_refl Hw) as [Hr Hl].
    split; [exact Hl|]. intro name. unfold pw.Get. rewrite Ef, Hr. reflexivity.
Qed.

(** X5.  After a successful Add of an entry with valid UTF-8 fields, List
    returns the old sequence followed by the entry, and adding any entry
    of the same name fails with [ErrPwAlreadyExists]. *)
Theorem Add_then_List (fs fs' : FS) (filename : string)
  (data : slice PasswordEntry) (R : PasswordEntry) :
  faithful_scrypt -> valid_entry R = true ->
  pw.read fs filename = Ok data -> pw.Add fs filename R = (fs', None) ->
  pw.List fs' filename = Ok (Elems (elems data ++ [R])%list)
  /\ forall R', Name R' = Name R ->
       pw.Add fs' filename R' = (fs', Some pw.ErrPwAlreadyExists).
Proof.
  intros Hde HR Hread Ha. destruct (Add_success _ _ _ _ _ Hread Ha) as [Hnone Hw].
  assert (Hv : forallb valid_entry (elems (Elems (elems data ++ [R])%list)) = true)
    by (apply forallb_app_one; [eapply read_valid; eassumption | exact HR]).
  destruct (read_back _ _ _ _ Hde Hv Hw) as [Hr Hl].
  split; [exact Hl|]. intros R' Hn.
  unfold pw.Add. rewrite (read_some_path _ _ _ Hr), Hr, exists_loop_existsb.
  cbn [elems]. rewrite existsb_name_true; [reflexivity|].
  apply Exists_exists. exists R. split; [apply in_or_app; right; left; reflexivity|].
  symmetry. exact Hn.
Qed.

(** X6.  After a successful Update with an entry of valid UTF-8 fields,
    Get of its name returns the entry, and List returns a sequence of the
    same length and the same names, in the same order. *)
Theorem Update_then_Get (fs fs' : FS) (filename : string)
  (data : slice PasswordEntry) (R : PasswordEntry) :
  faithful_scrypt -> valid_entry R = true ->
  pw.read fs filename = Ok data -> pw.Update fs filename R = (fs', None) ->
  pw.Get fs' filename (Name R) = Ok R
  /\ exists data', pw.List fs' filename = Ok (Elems data')
       /\ map Name data' = map Name (elems data)
       /\ List.length data' = List.length (elems data).
Proof.
  intros Hde HR Hread Hu.
  destruct (Update_success _ _ _ _ _ Hread Hu) as (l1 & x & l2 & Hd & Hl & Hx & Hw).
  assert (Hv : forallb valid_entry (elems (Elems (l1 ++ R :: l2)%list)) = true).
  { cbn [elems]. apply (forallb_valid_split l1 l2 x); [|exact HR].
    rewrite <- Hd. eapply read_valid; eassumption. }
  destruct (read_back _ _ _ _ Hde Hv Hw) as [Hr Hlist]. split.
  - unfold pw.Get. rewrite (read_some_path _ _ _ Hr), Hr. cbn [elems].
    rewrite (get_loop_first l1 l2 R (Name R) Hl eq_refl). reflexivity.
  - exists (l1 ++ R :: l2)%list. split; [exact Hlist|]. rewrite Hd.
    rewrite !map_app, !length_app. cbn [map List.length]. rewrite Hx. auto.
Qed.

(** X7.  After a successful Remove, Get of the name fails with
    [ErrPwNotFound], a second Remove of it fails with [ErrPwNotFound], and
    List returns the entries of the other names, in their order. *)
Theorem Remove_then_Get (fs fs' : FS) (filename name : string)
  (data : slice PasswordEntry) :
  faithful_scrypt ->
  pw.read fs filename = Ok data -> pw.Remove fs filename name = (fs', None) ->
  pw.Get fs' filename name = Err pw.ErrPwNotFound
  /\ pw.Remove fs' filename name = (fs', Some pw.ErrPwNotFound)
  /\ pw.List fs' filename = Ok (Elems (filter (other_name name) (elems data))).
Proof.
  intros Hde Hread Hrm. pose proof (Remove_success _ _ _ _ _ Hread Hrm) as Hw.
  assert (Hv : forallb valid_entry
                 (elems (Elems (filter (other_name name) (elems data)))) = true).
  { cbn [elems]. apply forallb_valid_filter. eapply read_valid; eassumption. }
  destruct (read_back _ _ _ _ Hde Hv Hw) as [Hr Hlist].
  pose proof (filter_other_name_none name (elems data)) as Hnone.
  repeat split.
  - unfold pw.Get. rewrite (read_some_path _ _ _ Hr), Hr. cbn [elems].
    rewrite (get_loop_none _ _ Hnone). reflexivity.
  - unfold pw.Remove. rewrite (read_some_path _ _ _ Hr), Hr, remove_loop_spec.
    cbn [elems]. rewrite (existsb_name_false _ _ Hnone). reflexivity.
  - exact Hlist.
Qed.

Lemma get_loop_app_other (l : list PasswordEntry) (R : PasswordEntry) (m : string) :
  m <> Name R -> pw.get_loop (l ++ [R]) m = pw.get_loop l m.
Proof.
  intro Hm. induction l as [|e l IH]; simpl.
  - destruct (String.eqb_spec (Name R) m); [congruence | reflexivity].
  - destruct (Name e =? m)%string; [reflexivity | exact IH].
Qed.

Lemma get_loop_replace_other (l1 l2 : list PasswordEntry) (x R : PasswordEntry)
  (m : string) :
  Name x = Name R -> m <> Name R ->
  pw.get_loop (l1 ++ R :: l2) m = pw.get_loop (l1 ++ x :: l2) m.
Proof.
  intros Hx Hm. induction l1 as [|e l IH]; simpl.
  - rewrite Hx. destruct (String.eqb_spec (Name R) m); [congruence | reflexivity].
  - destruct (Name e =? m)%string; [reflexivity | exact IH].
Qed.

Lemma get_loop_filter_other (l : list PasswordEntry) (name m : string) :
  m <> name ->
  pw.get_loop (filter (other_name name) l) m = pw.get_loop l m.
Proof.
  intro Hm. induction l as [|e l IH]; simpl; [reflexivity|].
  unfold other_name at 1. destruct (String.eqb_spec (Name e) name) as [En|En]; simpl.
  - destruct (String.eqb_spec (Name e) m); [congruence | exact IH].
  - destruct (Name e =? m)%string; [reflexivity | exact IH].
Qed.

(** X8.  A successful Add or Update of an entry (with valid UTF-8
    fields), or Remove of a name, does not change what Get returns for any
    other name. *)
Theorem other_entries_kept (fs fs' : FS) (filename name m : string)
  (R : PasswordEntry) :
  faithful_scrypt ->
  (valid_entry R = true /\ m <> Name R
   /\ (pw.Add fs filename R = (fs', None) \/ pw.Update fs filename R = (fs', None)))
  \/ (m <> name /\ pw.Remove fs filename name = (fs', None)) ->
  pw.Get fs' filename m = pw.Get fs filename m.
Proof.
  intros Hde Hop.
  assert (Hread : exists data, pw.read fs filename = Ok data).
  { destruct (pw.read fs filename) as [d|e] eqn:Hr; [eauto|]. exfalso.
    unfold pw.Add, pw.Update, pw.Remove in Hop. rewrite Hr in Hop.
    destruct (String.length filename =? 0)%nat;
      destruct Hop as [(_ & _ & [C|C])|(_ & C)]; discriminate. }
  destruct Hread as [data Hread]. pose proof (read_some_path _ _ _ Hread) as Ef.
  pose proof (read_valid _ _ _ Hread) as Hvd.
  assert (G : forall d', forallb valid_entry d' = true ->
                pw.write fs filename (Elems d') = (fs', None) ->
                pw.get_loop d' m = pw.get_loop (elems data) m ->
                pw.Get fs' filename m = pw.Get fs filename m).
  { intros d' Hv Hw Hg. destruct (read_back fs fs' filename (Elems d') Hde Hv Hw) as [Hr _].
    unfold pw.Get. rewrite Ef, Hr, Hread. cbn [elems]. rewrite Hg. reflexivity. }
  destruct Hop as [(HR & Hm & [Ha|Hu])|(Hm & Hrm)].
  - destruct (Add_success _ _ _ _ _ Hread Ha) as [_ Hw].
    apply (G _ (forallb_app_one _ _ Hvd HR) Hw). apply get_loop_app_other. exact Hm.
  - destruct (Update_success _ _ _ _ _ Hread Hu) as (l1 & x & l2 & Hd & _ & Hx & Hw).
    rewrite Hd in Hvd.
    apply (G _ (forallb_valid_split _ _ _ Hvd R HR) Hw).
    rewrite Hd. apply get_loop_replace_other; assumption.
  - pose proof (Remove_success _ _ _ _ _ Hread Hrm) as Hw.
    apply (G _ (forallb_valid_filter _ _ Hvd) Hw).
    apply get_loop_filter_other. exact Hm.
Qed.

Lemma NoDup_names_filter (p : PasswordEntry -> bool) (l : list PasswordEntry) :
  NoDup (map Name l) -> NoDup (map Name (filter p l)).
Proof.
  induction l as [|e l IH]; simpl; intro Hn; [constructor|].
  inversion Hn as [|? ? Hnot Hrest]; subst.
  destruct (p e); simpl; [|auto]. constructor; [|auto].
  intro Hin. apply Hnot. apply in_map_iff in Hin. destruct Hin as (y & Hy & Hin).
  apply filter_In in Hin. apply in_map_iff. exists y. tauto.
Qed.

(** X9.  The operations keep the names of a store distinct: when the
    names are distinct before a successful Add or Update (of an entry with
    valid UTF-8 fields) or Remove, the names of the sequence that List
    returns afterwards are distinct. *)
Theorem names_stay_distinct (fs fs' : FS) (filename name : string)
  (data : slice PasswordEntry) (R : PasswordEntry) :
  faithful_scrypt ->
  pw.read fs filename = Ok data -> NoDup (map Name (elems data)) ->
  (valid_entry R = true
   /\ (pw.Add fs filename R = (fs', None) \/ pw.Update fs filename R = (fs', None)))
  \/ pw.Remove fs filename name = (fs', None) ->
  exists data', pw.List fs' filename = Ok data'
                /\ NoDup (map Name (elems data')).
Proof.
  intros Hde Hread Hnd Hop. pose proof (read_valid _ _ _ Hread) as Hvd.
  destruct Hop as [(HR & [Ha|Hu])|Hrm].
  - destruct (Add_success _ _ _ _ _ Hread Ha) as [Hnone Hw].
    destruct (read_back fs fs' filename (Elems _) Hde (forallb_app_one _ _ Hvd HR) Hw) as [_ Hl].
    eexists. split; [exact Hl|]. cbn [elems]. rewrite map_app. cbn [map].
    apply NoDup_app; [exact Hnd | repeat constructor; intros [] |].
    intros n Hin [Hn|[]]. subst n. apply in_map_iff in Hin.
    destruct Hin as (y & Hy & Hin). rewrite Forall_forall in Hnone.
    exact (Hnone y Hin Hy).
  - destruct (Update_success _ _ _ _ _ Hread Hu) as (l1 & x & l2 & Hd & _ & Hx & Hw).
    rewrite Hd in Hvd, Hnd.
    destruct (read_back fs fs' filename (Elems _) Hde (forallb_valid_split _ _ _ Hvd R HR) Hw) as [_ Hl].
    eexists. split; [exact Hl|]. cbn [elems].
    rewrite map_app in *. cbn [map] in *. rewrite <- Hx. exact Hnd.
  - pose proof (Remove_success _ _ _ _ _ Hread Hrm) as Hw.
    destruct (read_back fs fs' filename (Elems _) Hde (forallb_valid_filter _ _ Hvd) Hw) as [_ Hl].
    eexists. split; [exact Hl|]. cbn [elems]. apply NoDup_names_filter. exact Hnd.
Qed.

End ComposedOperations.

(** * The command line *)

Section CommandFacts.
Context {R : Type} `{Platform} `{RandSource R} `{Console}.

Lemma append_not_nil (a b : string) : a <> EmptyString -> a ++ b <> EmptyString.
Proof. destruct a; [contradiction | discriminate]. Qed.

Lemma die_spec (w w' : World R) (text : string) (code : Z) :
  cmd.die w text = (w', code) ->
  code = 1%Z /\ w_stderr w' = w_stderr w ++ text /\ w_stdout w' = w_stdout w
  /\ w_fs w' = w_fs w /\ w_rng w' = w_rng w /\ w_clip w' = w_clip w.
Proof. unfold cmd.die. intro E; inversion E; subst; simpl. tauto. Qed.

Lemma fail_spec (w w' : World R) (e : pw.error) (code : Z) :
  cmd.fail w e = (w', code) ->
  ends_well w w' code /\ code <> 0%Z /\ w_stdout w' = w_stdout w
  /\ w_fs w' = w_fs w /\ w_rng w' = w_rng w /\ w_clip w' = w_clip w
  /\ (pw.is_panic e = false ->
      code = 1%Z /\ w_stderr w' = w_stderr w ++ "Error: " ++ error_text e ++ nl).
Proof.
  unfold cmd.fail, ends_well. destruct (pw.is_panic e) eqn:Ep; intro E.
  - inversion E; subst; simpl. repeat split; try discriminate.
    right; right. split; [reflexivity|]. exists e. split; [exact Ep | reflexivity].
  - apply die_spec in E. destruct E as (-> & -> & -> & -> & -> & ->).
    repeat split; try discriminate.
    right; left. split; [reflexivity|]. eexists. split; [|reflexivity]. discriminate.
Qed.

Lemma fail_panic (w w' : World R) (e : pw.error) (code : Z) :
  cmd.fail w e = (w', code) -> (code = 2%Z <-> pw.is_panic e = true).
Proof.
  unfold cmd.fail, cmd.die. destruct (pw.is_panic e); intro E; inversion E; subst;
    split; intro C; try reflexivity; discriminate.
Qed.

Lemma to_clipboard_spec (w w' : World R) (text : string) (code : Z) :
  cmd.to_clipboard w text = (w', code) ->
  ends_well w w' code /\ w_stdout w' = w_stdout w
  /\ w_fs w' = w_fs w /\ w_rng w' = w_rng w
  /\ (clip_ok text = true -> code = 0%Z /\ w_clip w' = Some text)
  /\ (clip_ok text = false -> code = 1%Z /\ w_clip w' = w_clip w)
  /\ (code = 0%Z -> clip_ok text = true /\ w_clip w' = Some text).
Proof.
  unfold cmd.to_clipboard, ends_well. destruct (clip_ok text); intro E.
  - inversion E; subst; simpl. repeat split; try discriminate; auto.
  - apply die_spec in E. destruct E as (-> & -> & -> & -> & -> & ->).
    repeat split; try discriminate.
    right; left. split; [reflexivity|]. eexists; split; [|reflexivity]. discriminate.
Qed.

Lemma fold_print (l : list PasswordEntry) (f : PasswordEntry -> string) :
  forall w : World R,
    let w' := fold_left (fun w1 entry => cmd.print w1 (f entry)) l w in
    w_stderr w' = w_stderr w /\ w_fs w' = w_fs w /\ w_rng w' = w_rng w
    /\ w_clip w' = w_clip w
    /\ w_stdout w' = w_stdout w ++ String.concat EmptyString (map f l).
Proof.
  induction l as [|e l IH]; intro w; simpl.
  - rewrite append_nil_r. tauto.
  - destruct (IH (cmd.print w (f e))) as (E1 & E2 & E3 & E4 & E5).
    rewrite E1, E2, E3, E4, E5. simpl. repeat split.
    rewrite append_assoc. destruct l; simpl; [rewrite append_nil_r|]; reflexivity.
Qed.

End CommandFacts.

Section CommandStatus.
Context {R : Type} `{Platform} `{RandSource R} `{Console}.

Ltac use_specs :=
  repeat match goal with
         | E : cmd.fail _ _ = (_, _) |- _ =>
           apply fail_spec in E; destruct E as (? & ? & ? & ? & ? & ? & ?)
         | E : cmd.to_clipboard _ _ = (_, _) |- _ =>
           apply to_clipboard_spec in E; destruct E as (? & ? & ? & ? & ? & ? & ?)
         | E : cmd.die _ _ = (_, _) |- _ =>
           apply die_spec in E; destruct E as (? & ? & ? & ? & ? & ?)
         end.

Lemma ends_well_die (w w' : World R) (text : string) (code : Z) :
  text <> EmptyString -> cmd.die w text = (w', code) -> ends_well w w' code.
Proof.
  intros Ht E. apply die_spec in E. destruct E as (-> & E & _).
  right; left. split; [reflexivity|]. exists text. auto.
Qed.

Lemma initCmd_ends (f : string) (w w' : World R) (code : Z) :
  cmd.initCmd f w = (w', code) -> ends_well w w' code.
Proof.
  unfold cmd.initCmd. destruct (pw.Init (w_fs w) f) as [fs' [e|]]; intro E.
  - use_specs. assumption.
  - inversion E; subst. left. split; reflexivity.
Qed.

Lemma getCmd_ends (f name : string) (w w' : World R) (code : Z) :
  cmd.getCmd f name w = (w', code) -> ends_well w w' code.
Proof.
  unfold cmd.getCmd. destruct (pw.Get (w_fs w) f name) as [entry|e]; intro E.
  - use_specs. destruct (negb (Username entry =? EmptyString)%string); assumption.
  - use_specs. assumption.
Qed.

Lemma listCmd_ends (f : string) (w w' : World R) (code : Z) :
  cmd.listCmd f w = (w', code) -> ends_well w w' code.
Proof.
  unfold cmd.listCmd. destruct (pw.List (w_fs w) f) as [entries|e]; intro E.
  - inversion E; subst. left. split; [reflexivity|].
    apply (fold_print (elems entries)
             (fun entry => Name entry ++ ": " ++ Username entry ++ nl) w).
  - use_specs. assumption.
Qed.

Lemma addCmd_ends (len : Z) (chars f name username : string)
  (w w' : World R) (code : Z) :
  cmd.addCmd len chars f name username w = (w', code) -> ends_well w w' code.
Proof.
  unfold cmd.addCmd.
  destruct (pw.GeneratePassword len chars (w_rng w)) as [[p|e] rng']; intro E.
  - destruct (pw.Add _ f _) as [fs' [e|]]; use_specs; assumption.
  - use_specs. assumption.
Qed.

Lemma updateCmd_ends (len : Z) (chars f name username : string)
  (w w' : World R) (code : Z) :
  cmd.updateCmd len chars f name username w = (w', code) -> ends_well w w' code.
Proof.
  unfold cmd.updateCmd.
  destruct (pw.GeneratePassword len chars (w_rng w)) as [[p|e] rng']; intro E.
  - destruct (pw.Update _ f _) as [fs' [e|]]; use_specs; assumption.
  - use_specs. assumption.
Qed.

Lemma removeCmd_ends (f name : string) (w w' : World R) (code : Z) :
  cmd.removeCmd f name w = (w', code) -> ends_well w w' code.
Proof.
  unfold cmd.removeCmd. destruct (pw.Remove (w_fs w) f name) as [fs' [e|]]; intro E.
  - use_specs. assumption.
  - inversion E; subst. left. split; reflexivity.
Qed.

Lemma generateCmd_ends (len : Z) (chars : string) (w w' : World R) (code : Z) :
  cmd.generateCmd len chars w = (w', code) -> ends_well w w' code.
Proof.
  unfold cmd.generateCmd.
  destruct (pw.GeneratePassword len chars (w_rng w)) as [[p|e] rng']; intro E;
    use_specs; assumption.
Qed.

(** How [main] ends once the flags are parsed. *)
Lemma main_ends (filename : string) (len : Z) (chars : string)
  (args : list string) (w w' : World R) (code : Z) :
  cmd.main filename len chars args w = (w', code) ->
  ends_well w w' code
  \/ (code = 1%Z /\ w_stderr w' = w_stderr w
      /\ exists c, is_command c = false
           /\ w_stdout w' = w_stdout w ++ "Unknown command: " ++ c ++ nl).
Proof.
  unfold cmd.main. destruct args as [|c operands].
  { intro E. left. eapply ends_well_die; [|exact E]. unfold cmd.usage. discriminate. }
  destruct (c =? "init")%string eqn:E1; [intro E; left; eapply initCmd_ends; exact E|].
  destruct (c =? "get")%string eqn:E2.
  { destruct operands; intro E; left;
      [eapply ends_well_die; [|exact E]; discriminate | eapply getCmd_ends; exact E]. }
  destruct (c =? "list")%string eqn:E3; [intro E; left; eapply listCmd_ends; exact E|].
  destruct (c =? "add")%string eqn:E4.
  { destruct operands as [|n [|u rest]]; intro E; left;
      first [ eapply addCmd_ends; exact E
            | eapply ends_well_die; [|exact E]; discriminate ]. }
  destruct (c =? "update")%string eqn:E5.
  { destruct operands as [|n [|u rest]]; intro E; left;
      first [ eapply updateCmd_ends; exact E
            | eapply ends_well_die; [|exact E]; discriminate ]. }
  destruct (c =? "remove")%string eqn:E6.
  { destruct operands; intro E; left;
      [eapply ends_well_die; [|exact E]; discriminate | eapply removeCmd_ends; exact E]. }
  destruct (c =? "generate")%string eqn:E7;
    [intro E; left; eapply generateCmd_ends; exact E|].
  intro E. inversion E; subst. right. repeat split.
  exists c. repeat split.
  unfold is_command. simpl. rewrite E1, E2, E3, E4, E5, E6, E7. reflexivity.
Qed.

(** [flag.Parse] ends the program only for help, with status 0 and the
    usage, or at a flag it refuses, with status 2, a message and the
    usage. *)
Lemma Parse_exit (arguments : list string) :
  forall (fl : flag.Flags) (text : string) (code : Z),
    flag.Parse fl arguments = flag.Exit text code ->
    (code = 0%Z /\ text = flag.Usage)
    \/ (code = 2%Z /\ exists msg, text = msg ++ nl ++ flag.Usage).
Proof.
  assert (Hfail : forall msg text code, flag.failf msg = flag.Exit text code ->
            (code = 0%Z /\ text = flag.Usage)
            \/ (code = 2%Z /\ exists msg, text = msg ++ nl ++ flag.Usage)).
  { intros msg text code E. inversion E; subst. right. split; [reflexivity|]. eauto. }
  assert (Hset : forall fl name v stop text code,
            flag.set fl name v = inr stop -> stop = flag.Exit text code ->
            (code = 0%Z /\ text = flag.Usage)
            \/ (code = 2%Z /\ exists msg, text = msg ++ nl ++ flag.Usage)).
  { intros fl name v stop text code Es ->. unfold flag.set in Es.
    destruct (name =? "file")%string; [discriminate|].
    destruct (name =? "password-length")%string; [|discriminate].
    destruct (ParseInt v); [discriminate|].
    assert (Hinr : forall a b : flag.Parsed, @inr flag.Flags _ a = inr b -> a = b)
      by (intros a b X; injection X; auto).
    apply Hinr in Es. eapply Hfail; exact Es. }
  assert (Hind : forall n arguments, (List.length arguments <= n)%nat ->
            forall fl text code, flag.Parse fl arguments = flag.Exit text code ->
            (code = 0%Z /\ text = flag.Usage)
            \/ (code = 2%Z /\ exists msg, text = msg ++ nl ++ flag.Usage));
    [|intros fl text code; apply (Hind (List.length arguments)); lia].
  clear arguments. induction n as [|n IH]; intros arguments Hn fl text code E;
    (destruct arguments as [|s rest]; cbn [flag.Parse] in E; [discriminate|]);
    [simpl in Hn; lia|].
  simpl in Hn.
  destruct s as [|c0 [|c1 t]]; try discriminate.
  destruct (negb (c0 =? "-")%char); [discriminate|].
  destruct ((c1 =? "-")%char && (t =? EmptyString)%string); [discriminate|].
  destruct (if (c1 =? "-")%char then t else String c1 t) as [|n0 name];
    [eapply Hfail; exact E|].
  destruct ((n0 =? "-")%char || (n0 =? "=")%char); [eapply Hfail; exact E|].
  destruct (flag.name_value (String n0 name)) as [name' value].
  destruct (negb (flag.defined name')).
  { destruct ((name' =? "help")%string || (name' =? "h")%string).
    - inversion E; subst. left. split; reflexivity.
    - eapply Hfail; exact E. }
  destruct value as [v|].
  - destruct (flag.set fl name' v) as [fl'|stop] eqn:Es.
    + eapply (IH rest); [lia | exact E].
    + eapply Hset; [exact Es | exact E].
  - destruct rest as [|v rest']; [eapply Hfail; exact E|].
    destruct (flag.set fl name' v) as [fl'|stop] eqn:Es.
    + eapply (IH rest'); [simpl in Hn; lia | exact E].
    + eapply Hset; [exact Es | exact E].
Qed.

(** X10.  Every run of the program ends in one of these ways: with
    status 0 and nothing written to the standard error; with status 1
    and a message on the standard error (for an unknown command, on the
    standard output); with status 2 and the report of a panic; with
    status 0 after the usage that a help flag asks for; or with status 2
    after a message and the usage, at a flag that [flag.Parse] refuses.
    In the last two cases nothing else is touched. *)
Theorem main_exit_status (arguments : list string) (w w' : World R) (code : Z) :
  cmd.run arguments w = (w', code) ->
  ends_well w w' code
  \/ (code = 1%Z /\ w_stderr w' = w_stderr w
      /\ exists c, is_command c = false
           /\ w_stdout w' = w_stdout w ++ "Unknown command: " ++ c ++ nl)
  \/ (code = 0%Z /\ untouched w w' /\ w_stderr w' = w_stderr w ++ flag.Usage)
  \/ (code = 2%Z /\ untouched w w'
      /\ exists msg, w_stderr w' = w_stderr w ++ msg ++ nl ++ flag.Usage).
Proof.
  unfold cmd.run.
  destruct (flag.Parse flag.defaults arguments) as [fl args|text c] eqn:Ep; intro E.
  - destruct (main_ends _ _ _ _ _ _ _ E) as [Hw|Hu]; [left; exact Hw | right; left; exact Hu].
  - inversion E; subst; clear E. unfold untouched. cbn [w_fs w_rng w_clip w_stdout w_stderr].
    destruct (Parse_exit _ _ _ _ Ep) as [[-> ->]|[-> [msg ->]]].
    + right; right; left. repeat split.
    + right; right; right. repeat split. exists msg. reflexivity.
Qed.

(** X11.  An invocation without a command, with an unknown command or
    without the operands of its command ends with status 1 and touches
    neither the file system nor the random source nor the clipboard. *)
Theorem main_rejected (filename : string) (len : Z) (chars : string)
  (args : list string) (w : World R) :
  rejected args = true ->
  snd (cmd.main filename len chars args w) = 1%Z
  /\ w_fs (fst (cmd.main filename len chars args w)) = w_fs w
  /\ w_rng (fst (cmd.main filename len chars args w)) = w_rng w
  /\ w_clip (fst (cmd.main filename len chars args w)) = w_clip w.
Proof.
  unfold rejected, cmd.main, is_command. destruct args as [|c operands];
    [intros _; repeat split|].
  destruct (String.eqb_spec c "init") as [->|N1]; [simpl; discriminate|].
  destruct (String.eqb_spec c "get") as [->|N2].
  { simpl. destruct operands; [intros _; repeat split | discriminate]. }
  destruct (String.eqb_spec c "list") as [->|N3]; [simpl; discriminate|].
  destruct (String.eqb_spec c "add") as [->|N4].
  { simpl. destruct operands as [|n [|u rest]]; try discriminate;
      intros _; repeat split. }
  destruct (String.eqb_spec c "update") as [->|N5].
  { simpl. destruct operands as [|n [|u rest]]; try discriminate;
      intros _; repeat split. }
  destruct (String.eqb_spec c "remove") as [->|N6].
  { simpl. destruct operands; [intros _; repeat split | discriminate]. }
  destruct (String.eqb_spec c "generate") as [->|N7]; [simpl; discriminate|].
  intros _. repeat split.
Qed.

End CommandStatus.

Lemma all_ascii_valid (s : string) : all_ascii s = true -> utf8.ValidString s = true.
Proof.
  induction s as [|c t IH]; [reflexivity|]. simpl. intro Ha.
  apply andb_true_iff in Ha. destruct Ha as [Hc Ht].
  rewrite ValidString_ascii by (apply N.ltb_lt; exact Hc). auto.
Qed.

Lemma byte_guarantee_all_ascii (len : Z) (chars p : string) :
  all_ascii chars = true -> byte_guarantee len chars p -> all_ascii p = true.
Proof.
  intros Hcs [_ Hall]. apply all_ascii_Forall. apply all_ascii_Forall in Hcs.
  rewrite Forall_forall in *. intros c Hc. apply Hcs, Hall, Hc.
Qed.

Section CommandRuns.
Context {R : Type} `{Platform} `{RandSource R} `{Console}.

Lemma Add_reads (fs fs' : FS) (f : string) (E : PasswordEntry) :
  pw.Add fs f E = (fs', None) -> exists data, pw.read fs f = Ok data.
Proof.
  unfold pw.Add. destruct (String.length f =? 0)%nat; [discriminate|].
  destruct (pw.read fs f); [eauto | discriminate].
Qed.

Lemma Update_reads (fs fs' : FS) (f : string) (E : PasswordEntry) :
  pw.Update fs f E = (fs', None) -> exists data, pw.read fs f = Ok data.
Proof.
  unfold pw.Update. destruct (String.length f =? 0)%nat; [discriminate|].
  destruct (pw.read fs f); [eauto | discriminate].
Qed.

Lemma Remove_reads (fs fs' : FS) (f name : string) :
  pw.Remove fs f name = (fs', None) -> exists data, pw.read fs f = Ok data.
Proof.
  unfold pw.Remove. destruct (String.length f =? 0)%nat; [discriminate|].
  destruct (pw.read fs f); [eauto | discriminate].
Qed.

(** After a successful Add or Update of a valid entry, Get returns it. *)
Lemma Get_after_store (fs fs' : FS) (f : string) (E : PasswordEntry) :
  faithful_scrypt -> valid_entry E = true ->
  pw.Add fs f E = (fs', None) \/ pw.Update fs f E = (fs', None) ->
  pw.Get fs' f (Name E) = Ok E.
Proof.
  intros Hde HE [Ha|Hu].
  - destruct (Add_reads _ _ _ _ Ha) as [data Hread].
    destruct (Add_success _ _ _ _ _ Hread Ha) as [Hnone Hw].
    destruct (read_back fs fs' f (Elems _) Hde
                (forallb_app_one _ _ (read_valid _ _ _ Hread) HE) Hw) as [Hr _].
    unfold pw.Get. rewrite (read_some_path _ _ _ Hr), Hr. cbn [elems].
    rewrite (get_loop_last _ _ Hnone). reflexivity.
  - destruct (Update_reads _ _ _ _ Hu) as [data Hread].
    destruct (Update_success _ _ _ _ _ Hread Hu) as (l1 & x & l2 & Hd & Hl & Hx & Hw).
    pose proof (read_valid _ _ _ Hread) as Hvd. rewrite Hd in Hvd.
    destruct (read_back fs fs' f (Elems _) Hde
                (forallb_valid_split _ _ _ Hvd E HE) Hw) as [Hr _].
    unfold pw.Get. rewrite (read_some_path _ _ _ Hr), Hr. cbn [elems].
    rewrite (get_loop_first l1 l2 E (Name E) Hl eq_refl). reflexivity.
Qed.

(** X12.  The command [get] of a name that the store holds prints the
    username, when it is not empty, on the standard output and puts the
    password on the clipboard; it prints the password nowhere and leaves
    the file system as it is.  When the clipboard refuses the text, the
    run ends with status 1. *)
Theorem main_get (filename : string) (len : Z) (chars name : string)
  (rest : list string) (w : World R) (data : slice PasswordEntry)
  (l1 l2 : list PasswordEntry) (x : PasswordEntry) :
  pw.read (w_fs w) filename = Ok data ->
  elems data = (l1 ++ x :: l2)%list ->
  Forall (fun e => Name e <> name) l1 -> Name x = name ->
  let r := cmd.main filename len chars ("get" :: name :: rest) w in
  w_fs (fst r) = w_fs w /\ w_rng (fst r) = w_rng w
  /\ w_stdout (fst r)
     = w_stdout w ++ (if (Username x =? EmptyString)%string then EmptyString
                      else Username x ++ nl)
  /\ (clip_ok (Password x) = true ->
      snd r = 0%Z /\ w_clip (fst r) = Some (Password x) /\ w_stderr (fst r) = w_stderr w)
  /\ (clip_ok (Password x) = false -> snd r = 1%Z /\ w_clip (fst r) = w_clip w).
Proof.
  intros Hread Hd Hl Hx.
  assert (Hg : pw.Get (w_fs w) filename name = Ok x).
  { unfold pw.Get. rewrite (read_some_path _ _ _ Hread), Hread, Hd.
    rewrite (get_loop_first _ _ _ _ Hl Hx). reflexivity. }
  intro r. subst r.
  cbn [cmd.main]. change ("get" =? "init")%string with false.
  change ("get" =? "get")%string with true. cbv iota.
  unfold cmd.getCmd. rewrite Hg.
  destruct (cmd.to_clipboard _ (Password x)) as [w' code] eqn:Ec.
  apply to_clipboard_spec in Ec. destruct Ec as (Hend & Ho & Hf & Hr & Hok & Hno & _).
  cbn [fst snd]. rewrite Hf, Hr, Ho.
  assert (Hout : forall b : bool,
    w_stdout (if negb b then cmd.print w (Username x ++ nl) else w)
    = w_stdout w ++ (if b then EmptyString else Username x ++ nl)
    /\ w_fs (if negb b then cmd.print w (Username x ++ nl) else w) = w_fs w
    /\ w_rng (if negb b then cmd.print w (Username x ++ nl) else w) = w_rng w
    /\ w_clip (if negb b then cmd.print w (Username x ++ nl) else w) = w_clip w
    /\ w_stderr (if negb b then cmd.print w (Username x ++ nl) else w) = w_stderr w).
  { intros [|]; simpl; rewrite ?append_nil_r; repeat split. }
  destruct (Hout (Username x =? EmptyString)%string) as (O1 & O2 & O3 & O4 & O5).
  rewrite O1, O2, O3.
  split; [reflexivity|]. split; [reflexivity|]. split; [reflexivity|]. split.
  - intro Hc. destruct (Hok Hc) as [-> Hclip].
    split; [reflexivity|]. split; [exact Hclip|].
    destruct Hend as [[_ E]|[[C _]|[C _]]]; [|discriminate|discriminate].
    rewrite E. exact O5.
  - intro Hc. destruct (Hno Hc) as [-> Hclip].
    split; [reflexivity|]. rewrite Hclip. exact O4.
Qed.

(** X13.  When [add] or [update] ends with status 0, given a charset of
    ASCII bytes and a name and a username that are valid UTF-8, the
    clipboard holds a password of the asked length over the charset, the
    store holds the entry with that password, and a later [get] of the
    name puts the same password on the clipboard. *)
Theorem main_add_then_get (filename : string) (len : Z) (chars c name username : string)
  (rest : list string) (w w1 : World R) :
  faithful_scrypt -> all_ascii chars = true ->
  utf8.ValidString name = true -> utf8.ValidString username = true ->
  c = "add" \/ c = "update" ->
  cmd.main filename len chars (c :: name :: username :: rest) w = (w1, 0%Z) ->
  exists p,
    byte_guarantee len chars p /\ w_clip w1 = Some p
    /\ pw.Get (w_fs w1) filename name
       = Ok {| Name := name; Username := username; Password := p |}
    /\ forall len' chars' rest',
         snd (cmd.main filename len' chars' ("get" :: name :: rest') w1) = 0%Z
         /\ w_clip (fst (cmd.main filename len' chars' ("get" :: name :: rest') w1))
            = Some p.
Proof.
  intros Hde Hcs Hn Hu Hc Hrun.
  assert (Hcore : exists p rng' fs',
    pw.GeneratePassword len chars (w_rng w) = (Ok p, rng')
    /\ (pw.Add (w_fs w) filename {| Name := name; Username := username; Password := p |}
        = (fs', None)
        \/ pw.Update (w_fs w) filename
             {| Name := name; Username := username; Password := p |} = (fs', None))
    /\ cmd.to_clipboard (cmd.set_fs (cmd.set_rng w rng') fs') p = (w1, 0%Z)).
  { destruct Hc as [-> | ->]; cbn [cmd.main] in Hrun.
    - change ("add" =? "init")%string with false in Hrun.
      change ("add" =? "get")%string with false in Hrun.
      change ("add" =? "list")%string with false in Hrun.
      change ("add" =? "add")%string with true in Hrun. cbv iota in Hrun.
      unfold cmd.addCmd in Hrun.
      destruct (pw.GeneratePassword len chars (w_rng w)) as [[p|e] rng'].
      + cbn [w_fs cmd.set_rng] in Hrun.
        destruct (pw.Add (w_fs w) filename _) as [fs' [e|]] eqn:Ea.
        * apply fail_spec in Hrun. destruct Hrun as (_ & C & _). contradiction.
        * exists p, rng', fs'. auto.
      + apply fail_spec in Hrun. destruct Hrun as (_ & C & _). contradiction.
    - change ("update" =? "init")%string with false in Hrun.
      change ("update" =? "get")%string with false in Hrun.
      change ("update" =? "list")%string with false in Hrun.
      change ("update" =? "add")%string with false in Hrun.
      change ("update" =? "update")%string with true in Hrun. cbv iota in Hrun.
      unfold cmd.updateCmd in Hrun.
      destruct (pw.GeneratePassword len chars (w_rng w)) as [[p|e] rng'].
      + cbn [w_fs cmd.set_rng] in Hrun.
        destruct (pw.Update (w_fs w) filename _) as [fs' [e|]] eqn:Ea.
        * apply fail_spec in Hrun. destruct Hrun as (_ & C & _). contradiction.
        * exists p, rng', fs'. auto.
      + apply fail_spec in Hrun. destruct Hrun as (_ & C & _). contradiction. }
  destruct Hcore as (p & rng' & fs' & Hg & Hop & Hclip).
  apply to_clipboard_spec in Hclip.
  destruct Hclip as (_ & _ & Hfs & _ & _ & _ & Hzero).
  destruct (Hzero eq_refl) as [Hok Hc1]. cbn [w_fs cmd.set_fs] in Hfs.
  pose proof (GeneratePassword_ok_bytes _ _ _ _ _ Hg) as Hbytes.
  assert (HE : valid_entry {| Name := name; Username := username; Password := p |} = true).
  { unfold valid_entry. cbn [Name Username Password]. rewrite Hn, Hu.
    apply all_ascii_valid. eapply byte_guarantee_all_ascii; eassumption. }
  pose proof (Get_after_store _ _ _ _ Hde HE Hop) as Hget. cbn [Name] in Hget.
  exists p. split; [exact Hbytes|]. split; [exact Hc1|]. rewrite Hfs.
  split; [exact Hget|]. intros len' chars' rest'.
  cbn [cmd.main]. change ("get" =? "init")%string with false.
  change ("get" =? "get")%string with true. cbv iota.
  unfold cmd.getCmd. rewrite Hfs, Hget. cbn [Username Password].
  unfold cmd.to_clipboard. rewrite Hok. split; reflexivity.
Qed.

End CommandRuns.

Section MoreCommandRuns.
Context {R : Type} `{Platform} `{RandSource R} `{Console}.

(** X14.  [add] of a name that the store holds, and [update] of a name
    that it does not hold, end with a status other than 0 and leave the
    file system and the clipboard as they are, whatever password was
    generated. *)
Theorem main_store_rejected (filename : string) (len : Z)
  (chars c name username : string) (rest : list string) (w : World R)
  (data : slice PasswordEntry) :
  pw.read (w_fs w) filename = Ok data ->
  (c = "add" /\ Exists (fun e => Name e = name) (elems data))
  \/ (c = "update" /\ Forall (fun e => Name e <> name) (elems data)) ->
  let r := cmd.main filename len chars (c :: name :: username :: rest) w in
  snd r <> 0%Z /\ w_fs (fst r) = w_fs w /\ w_clip (fst r) = w_clip w
  /\ w_stdout (fst r) = w_stdout w.
Proof.
  intros Hread Hc r. subst r. pose proof (read_some_path _ _ _ Hread) as Ef.
  destruct Hc as [[-> Hex]|[-> Hnone]]; cbn [cmd.main].
  - change ("add" =? "init")%string with false.
    change ("add" =? "get")%string with false.
    change ("add" =? "list")%string with false.
    change ("add" =? "add")%string with true. cbv iota.
    unfold cmd.addCmd.
    destruct (pw.GeneratePassword len chars (w_rng w)) as [[p|e] rng'].
    + cbn [w_fs cmd.set_rng].
      assert (Ea : pw.Add (w_fs w) filename
                     {| Name := name; Username := username; Password := p |}
                   = (w_fs w, Some pw.ErrPwAlreadyExists)).
      { unfold pw.Add. rewrite Ef, Hread, exists_loop_existsb. cbn [Name].
        rewrite (existsb_name_true _ _ Hex). reflexivity. }
      rewrite Ea. destruct (cmd.fail _ pw.ErrPwAlreadyExists) as [w' code] eqn:E.
      apply fail_spec in E. destruct E as (_ & Hne & Ho & Hf & _ & Hcl & _).
      cbn [fst snd]. rewrite Hf, Hcl, Ho. repeat split; assumption.
    + destruct (cmd.fail _ e) as [w' code] eqn:E.
      apply fail_spec in E. destruct E as (_ & Hne & Ho & Hf & _ & Hcl & _).
      cbn [fst snd]. rewrite Hf, Hcl, Ho. repeat split; assumption.
  - change ("update" =? "init")%string with false.
    change ("update" =? "get")%string with false.
    change ("update" =? "list")%string with false.
    change ("update" =? "add")%string with false.
    change ("update" =? "update")%string with true. cbv iota.
    unfold cmd.updateCmd.
    destruct (pw.GeneratePassword len chars (w_rng w)) as [[p|e] rng'].
    + cbn [w_fs cmd.set_rng].
      assert (Ea : pw.Update (w_fs w) filename
                     {| Name := name; Username := username; Password := p |}
                   = (w_fs w, Some pw.ErrPwNotFound)).
      { unfold pw.Update. rewrite Ef, Hread.
        rewrite (update_loop_none (elems data)
                   {| Name := name; Username := username; Password := p |} Hnone).
        reflexivity. }
      rewrite Ea. destruct (cmd.fail _ pw.ErrPwNotFound) as [w' code] eqn:E.
      apply fail_spec in E. destruct E as (_ & Hne & Ho & Hf & _ & Hcl & _).
      cbn [fst snd]. rewrite Hf, Hcl, Ho. repeat split; assumption.
    + destruct (cmd.fail _ e) as [w' code] eqn:E.
      apply fail_spec in E. destruct E as (_ & Hne & Ho & Hf & _ & Hcl & _).
      cbn [fst snd]. rewrite Hf, Hcl, Ho. repeat split; assumption.
Qed.

(** X15.  The command [list] prints one line, name and username, for
    each entry in the order of the store and ends with status 0; what it
    prints does not depend on the passwords: two stores with the same
    names and usernames give the same output. *)
Theorem main_list (filename : string) (len : Z) (chars : string)
  (rest : list string) (w : World R) (data : slice PasswordEntry) :
  pw.read (w_fs w) filename = Ok data ->
  let r := cmd.main filename len chars ("list" :: rest) w in
  snd r = 0%Z /\ w_stderr (fst r) = w_stderr w /\ w_fs (fst r) = w_fs w
  /\ w_clip (fst r) = w_clip w
  /\ w_stdout (fst r)
     = w_stdout w ++ String.concat EmptyString
         (map (fun e => Name e ++ ": " ++ Username e ++ nl) (elems data))
  /\ forall (w2 : World R) (data2 : slice PasswordEntry),
       pw.read (w_fs w2) filename = Ok data2 ->
       map (fun e => (Name e, Username e)) (elems data2)
       = map (fun e => (Name e, Username e)) (elems data) ->
       w_stdout w2 = w_stdout w ->
       w_stdout (fst (cmd.main filename len chars ("list" :: rest) w2))
       = w_stdout (fst r).
Proof.
  intros Hread r.
  assert (Hrun : forall (v : World R) (d : slice PasswordEntry),
    pw.read (w_fs v) filename = Ok d ->
    snd (cmd.main filename len chars ("list" :: rest) v) = 0%Z
    /\ w_stderr (fst (cmd.main filename len chars ("list" :: rest) v)) = w_stderr v
    /\ w_fs (fst (cmd.main filename len chars ("list" :: rest) v)) = w_fs v
    /\ w_clip (fst (cmd.main filename len chars ("list" :: rest) v)) = w_clip v
    /\ w_stdout (fst (cmd.main filename len chars ("list" :: rest) v))
       = w_stdout v ++ String.concat EmptyString
           (map (fun e => Name e ++ ": " ++ Username e ++ nl) (elems d))).
  { intros v d Hr. cbn [cmd.main]. change ("list" =? "init")%string with false.
    change ("list" =? "get")%string with false.
    change ("list" =? "list")%string with true. cbv iota.
    unfold cmd.listCmd, pw.List. rewrite (read_some_path _ _ _ Hr), Hr. cbn [fst snd].
    destruct (fold_print (elems d)
                (fun e => Name e ++ ": " ++ Username e ++ nl) v) as (E1 & E2 & _ & E4 & E5).
    repeat split; assumption. }
  subst r. destruct (Hrun w data Hread) as (R1 & R2 & R3 & R4 & R5).
  repeat split; try assumption.
  intros w2 data2 Hread2 Hsame Hout.
  destruct (Hrun w2 data2 Hread2) as (_ & _ & _ & _ & S5).
  rewrite S5, R5, Hout. f_equal. f_equal.
  change (fun e => Name e ++ ": " ++ Username e ++ nl)
    with (fun e => (fun nu : string * string => fst nu ++ ": " ++ snd nu ++ nl)
                     ((fun e => (Name e, Username e)) e)).
  rewrite <- !(map_map (fun e => (Name e, Username e))
                 (fun nu : string * string => fst nu ++ ": " ++ snd nu ++ nl)).
  rewrite Hsame. reflexivity.
Qed.

(** X16.  The command [generate] leaves the file system and the standard
    output as they are; when it ends with status 0 the clipboard holds a
    password of the asked length in bytes, each a byte of the charset. *)
Theorem main_generate (filename : string) (len : Z) (chars : string)
  (rest : list string) (w w' : World R) (code : Z) :
  cmd.main filename len chars ("generate" :: rest) w = (w', code) ->
  w_fs w' = w_fs w /\ w_stdout w' = w_stdout w
  /\ (code = 0%Z -> exists p, w_clip w' = Some p /\ byte_guarantee len chars p).
Proof.
  cbn [cmd.main]. change ("generate" =? "init")%string with false.
  change ("generate" =? "get")%string with false.
  change ("generate" =? "list")%string with false.
  change ("generate" =? "add")%string with false.
  change ("generate" =? "update")%string with false.
  change ("generate" =? "remove")%string with false.
  change ("generate" =? "generate")%string with true. cbv iota.
  unfold cmd.generateCmd.
  destruct (pw.GeneratePassword len chars (w_rng w)) as [[p|e] rng'] eqn:Hg; intro E.
  - apply to_clipboard_spec in E. destruct E as (_ & Ho & Hf & _ & _ & _ & Hz).
    split; [exact Hf|]. split; [exact Ho|]. intro Hc. destruct (Hz Hc) as [_ Hclip].
    exists p. split; [exact Hclip|]. eapply GeneratePassword_ok_bytes; exact Hg.
  - apply fail_spec in E. destruct E as (_ & Hne & Ho & Hf & _).
    split; [exact Hf|]. split; [exact Ho|]. intro Hc. contradiction.
Qed.

(** X17.  When [remove] of a name ends with status 0, a later [get] of
    the name ends with status 1, reports that the password was not found
    and leaves the clipboard as it is. *)
Theorem main_remove_then_get (filename : string) (len : Z) (chars name : string)
  (rest : list string) (w w1 : World R) :
  faithful_scrypt ->
  cmd.main filename len chars ("remove" :: name :: rest) w = (w1, 0%Z) ->
  forall len' chars' rest',
    let r := cmd.main filename len' chars' ("get" :: name :: rest') w1 in
    snd r = 1%Z /\ w_clip (fst r) = w_clip w1
    /\ w_stderr (fst r) = w_stderr w1 ++ "Error: " ++ error_text pw.ErrPwNotFound ++ nl.
Proof.
  intros Hde Hrun len' chars' rest' r. subst r.
  cbn [cmd.main] in Hrun.
  change ("remove" =? "init")%string with false in Hrun.
  change ("remove" =? "get")%string with false in Hrun.
  change ("remove" =? "list")%string with false in Hrun.
  change ("remove" =? "add")%string with false in Hrun.
  change ("remove" =? "update")%string with false in Hrun.
  change ("remove" =? "remove")%string with true in Hrun. cbv iota in Hrun.
  unfold cmd.removeCmd in Hrun.
  destruct (pw.Remove (w_fs w) filename name) as [fs' [e|]] eqn:Hrm.
  { apply fail_spec in Hrun. destruct Hrun as (_ & C & _). contradiction. }
  inversion Hrun; subst w1; clear Hrun.
  destruct (Remove_reads _ _ _ _ Hrm) as [data Hread].
  pose proof (Remove_success _ _ _ _ _ Hread Hrm) as Hw.
  destruct (read_back (w_fs w) fs' filename (Elems _) Hde
              (forallb_valid_filter _ _ (read_valid _ _ _ Hread)) Hw) as [Hr _].
  assert (Hget : pw.Get fs' filename name = Err pw.ErrPwNotFound).
  { unfold pw.Get. rewrite (read_some_path _ _ _ Hr), Hr. cbn [elems].
    rewrite (get_loop_none _ _ (filter_other_name_none name (elems data))).
    reflexivity. }
  cbn [cmd.main]. change ("get" =? "init")%string with false.
  change ("get" =? "get")%string with true. cbv iota.
  unfold cmd.getCmd. cbn [w_fs cmd.set_fs]. rewrite Hget.
  repeat split.
Qed.

End MoreCommandRuns.

(** * The generator over a tape of bytes *)

(** For a bound from 2 to 256, [rand.Int] reads one byte a round and
    clears its bits above the bit length of the bound less one. *)
Lemma Int_small (max : Z) (tape : list Z) :
  (2 <= max <= 256)%Z ->
  rand.Int max tape
  = rand.Int_loop (List.length tape) 1 (Z.ones (rand.BitLen (max - 1))) max tape.
Proof.
  intro Hmax. unfold rand.Int, rand.BitLen.
  replace (max - 1 <=? 0)%Z with false by (symmetry; apply Z.leb_gt; lia).
  assert (HL : (0 <= Z.log2 (max - 1) <= 7)%Z).
  { split; [apply Z.log2_nonneg|].
    change 7%Z with (Z.log2 255). apply Z.log2_le_mono. lia. }
  assert (Hcases : exists L, Z.log2 (max - 1) = L
            /\ (L = 0 \/ L = 1 \/ L = 2 \/ L = 3 \/ L = 4 \/ L = 5 \/ L = 6 \/ L = 7)%Z)
    by (eexists; split; [reflexivity | lia]).
  destruct Hcases as (L & -> & HLc).
  destruct HLc as [->|[->|[->|[->|[->|[->|[->| ->]]]]]]]; reflexivity.
Qed.

Lemma Int_loop_one (mask max : Z) (b : Z) (rest : list Z) (rounds : nat) :
  rand.Int_loop (S rounds) 1 mask max (b :: rest)
  = if (Z.land (b mod 256) mask <? max)%Z then (Some (Z.land (b mod 256) mask), rest)
    else rand.Int_loop rounds 1 mask max rest.
Proof. reflexivity. Qed.

(** One call of [rand.Int] on a tape, in terms of [draws]. *)
Lemma Int_draws (max : Z) :
  (2 <= max <= 256)%Z ->
  forall tape,
    match draws max tape with
    | [] => rand.Int max tape = (None, [])
    | v :: more =>
      (0 <= v < max)%Z
      /\ exists tape', rand.Int max tape = (Some v, tape') /\ draws max tape' = more
    end.
Proof.
  intros Hmax tape. rewrite (Int_small max tape Hmax). unfold draws.
  set (mask := Z.ones (rand.BitLen (max - 1))).
  assert (Hgen : forall rounds, (List.length tape <= rounds)%nat ->
    match filter (fun v => (v <? max)%Z)
                 (map (fun b => Z.land (b mod 256) mask) tape) with
    | [] => rand.Int_loop rounds 1 mask max tape = (None, [])
    | v :: more =>
      (0 <= v < max)%Z
      /\ exists tape', rand.Int_loop rounds 1 mask max tape = (Some v, tape')
           /\ filter (fun v => (v <? max)%Z)
                     (map (fun b => Z.land (b mod 256) mask) tape') = more
    end); [|apply Hgen; lia].
  induction tape as [|b rest IH]; intros rounds Hr.
  - destruct rounds; reflexivity.
  - destruct rounds as [|rounds]; [simpl in Hr; lia|]. simpl in Hr.
    rewrite Int_loop_one. cbn [map filter].
    destruct (Z.ltb_spec (Z.land (b mod 256) mask) max) as [Hlt|Hge].
    + split.
      * split; [|exact Hlt]. apply Z.land_nonneg. left. apply Z.mod_pos_bound. lia.
      * exists rest. split; reflexivity.
    + apply IH. lia.
Qed.

Section TapeFacts.
Context `{Platform}.

(** The loop of the generator over a tape of bytes. *)
Lemma generate_loop_draws (charset : string) :
  (2 <= String.length charset <= 256)%nat ->
  forall (n : nat) (tape : list Z),
    let ds := draws (Z.of_nat (String.length charset)) tape in
    ((n <= List.length ds)%nat ->
     exists tape', pw.generate_loop n charset tape
                   = (Ok (pick charset (firstn n ds)), tape'))
    /\ ((List.length ds < n)%nat ->
        pw.generate_loop n charset tape = (Err pw.ErrRand, [])).
Proof.
  intros Hlen.
  assert (Hmax : (2 <= Z.of_nat (String.length charset) <= 256)%Z) by lia.
  assert (Hrand : forall tape,
            rand_Int (Z.of_nat (String.length charset)) tape
            = rand.Int (Z.of_nat (String.length charset)) tape).
  { intro tape. cbn [rand_Int tape_rng].
    replace (Z.of_nat (String.length charset) <=? 0)%Z with false
      by (symmetry; apply Z.leb_gt; lia). reflexivity. }
  induction n as [|n IH]; intros tape ds.
  - split; [intros _; exists tape; reflexivity | simpl; lia].
  - subst ds. cbn [pw.generate_loop]. rewrite Hrand.
    pose proof (Int_draws _ Hmax tape) as Hd.
    destruct (draws (Z.of_nat (String.length charset)) tape) as [|v more] eqn:Ed.
    + rewrite Hd. split; [simpl; lia | reflexivity].
    + destruct Hd as (Hv & tape' & -> & Hmore).
      replace (v <? 0)%Z with false by (symmetry; apply Z.ltb_ge; lia).
      destruct (get_some charset (Z.to_nat v) ltac:(lia)) as [c Hc].
      rewrite Hc. cbn [firstn pick List.length]. rewrite Hc.
      destruct (IH tape') as [Hok Hshort]. rewrite Hmore in Hok, Hshort. split.
      * intro Hn. destruct (Hok ltac:(lia)) as (tape'' & ->). eauto.
      * intro Hn. rewrite (Hshort ltac:(lia)). reflexivity.
Qed.

(** With a charset of one byte nothing is drawn. *)
Lemma generate_loop_one_byte (c : ascii) (n : nat) (tape : list Z) :
  pw.generate_loop n (String c EmptyString) tape
  = (Ok (string_of_list_ascii (repeat c n)), tape).
Proof.
  induction n as [|n IH]; [reflexivity|].
  cbn [pw.generate_loop]. change (rand_Int _ tape) with (Some 0%Z, tape).
  cbn. rewrite IH. reflexivity.
Qed.

(** X18.  Over [crypto/rand.Int] on a reader that replays a tape of
    bytes, and for a length that [make] can allocate: with a charset of
    one byte GeneratePassword returns that byte [length] times and reads
    nothing; with a charset of 2 to 256 bytes it fills the password with
    the bytes of the charset at the first [length] draws that [rand.Int]
    accepts, passing over the others, and returns the error of the reader
    when the tape ends before that. *)
Theorem GeneratePassword_tape (length : Z) (charset : string) (tape : list Z) :
  (0 < length <= alloc_limit)%Z ->
  (forall c, charset = String c EmptyString ->
     pw.GeneratePassword length charset tape
     = (Ok (string_of_list_ascii (repeat c (Z.to_nat length))), tape))
  /\ ((2 <= String.length charset <= 256)%nat ->
      let ds := draws (Z.of_nat (String.length charset)) tape in
      ((Z.to_nat length <= List.length ds)%nat ->
       fst (pw.GeneratePassword length charset tape)
       = Ok (pick charset (firstn (Z.to_nat length) ds)))
      /\ ((List.length ds < Z.to_nat length)%nat ->
          pw.GeneratePassword length charset tape = (Err pw.ErrRand, [])))%list.
Proof.
  intros Hl. unfold pw.GeneratePassword.
  replace (length <=? 0)%Z with false by (symmetry; apply Z.leb_gt; lia).
  replace (alloc_limit <? length)%Z with false by (symmetry; apply Z.ltb_ge; lia).
  split.
  - intros c ->. cbn [String.length Nat.eqb]. apply generate_loop_one_byte.
  - intros Hlen.
    replace (String.length charset =? 0)%nat with false
      by (symmetry; apply Nat.eqb_neq; lia).
    destruct (generate_loop_draws charset Hlen (Z.to_nat length) tape) as [Hok Hshort].
    split; intro Hn.
    + destruct (Hok Hn) as (tape' & ->). reflexivity.
    + apply Hshort, Hn.
Qed.

End TapeFacts.

(** * Where the program panics *)

Section Panics.
Context {R : Type} `{Platform} `{RandSource R} `{Console}.

(** [write] panics only when [scrypt enc] has closed its input, and does
    so whenever [scrypt enc] fails that way. *)
Lemma write_panics (fs fs' : FS) (f : string) (d : slice PasswordEntry) (e : pw.error) :
  pw.write fs f d = (fs', Some e) -> pw.is_panic e = true ->
  e = pw.PanicNilDereference /\ enc_refuses_input (json.Marshal d) = true.
Proof.
  intros E Hp.
  destruct (enc_refuses_input (json.Marshal d)) eqn:Er.
  - destruct (write_errors _ _ _ _ _ E) as [-> | [-> | ->]]; try discriminate. auto.
  - exfalso. revert E. unfold pw.write, run_scrypt_enc. rewrite Er.
    destruct (String.length f =? 0)%nat; [intro E; inversion E; subst; discriminate|].
    destruct (walk fs (ancestors f));
      try (intro E; inversion E; subst; discriminate).
    destruct (fs f) as [[c0 p0|p0|]|];
      try (intro E; inversion E; subst; discriminate);
      (destruct (scrypt_enc (json.Marshal d));
       [|intro E; inversion E; subst; discriminate]);
      (destruct (os.Chmod _ f pw.mode_0600); intro E; inversion E; subst; discriminate).
Qed.

Lemma write_refused (fs : FS) (f : string) (d : slice PasswordEntry) :
  scrypt_enc (json.Marshal d) = None -> enc_refuses_input (json.Marshal d) = true ->
  snd (pw.write fs f d) = Some pw.PanicNilDereference.
Proof.
  intros He Hr. unfold pw.write, run_scrypt_enc. rewrite Hr, He.
  destruct (String.length f =? 0)%nat; [reflexivity|].
  destruct (walk fs (ancestors f)); try reflexivity.
  destruct (fs f) as [[c0 p0|p0|]|]; reflexivity.
Qed.

Lemma read_no_panic (fs : FS) (f : string) (e : pw.error) :
  pw.read fs f = Err e -> pw.is_panic e = false.
Proof.
  intro Hr. destruct (read_errors _ _ _ Hr) as [->|[->|[->|[->|[j ->]]]]]; reflexivity.
Qed.

(** The store operations panic only in [write]. *)
Lemma store_panics (fs fs' : FS) (f name : string) (E : PasswordEntry) (e : pw.error) :
  pw.Init fs f = (fs', Some e) \/ pw.Add fs f E = (fs', Some e)
  \/ pw.Update fs f E = (fs', Some e) \/ pw.Remove fs f name = (fs', Some e) ->
  pw.is_panic e = true ->
  exists data, enc_refuses_input (json.Marshal data) = true.
Proof.
  intros Hop Hp.
  assert (W : forall d, pw.write fs f d = (fs', Some e) ->
                        exists data, enc_refuses_input (json.Marshal data) = true).
  { intros d Hw. exists d. apply (write_panics _ _ _ _ _ Hw Hp). }
  assert (Rd : forall e0, pw.read fs f = Err e0 -> e0 = e -> False).
  { intros e0 Hr ->. rewrite (read_no_panic _ _ _ Hr) in Hp. discriminate. }
  assert (D : forall e0, e0 = e -> pw.is_panic e0 = false -> False).
  { intros e0 -> C. rewrite C in Hp. discriminate. }
  revert Hop. unfold pw.Init, pw.Add, pw.Update, pw.Remove.
  destruct (String.length f =? 0)%nat.
  { intros [C|[C|[C|C]]]; inversion C; exfalso; eapply D; eauto. }
  intros [C|[C|[C|C]]].
  - destruct (os.Stat fs f); [inversion C; exfalso; eapply D; eauto | eauto | eauto].
  - destruct (pw.read fs f) as [d|e0] eqn:Hr.
    + destruct (pw.exists_loop _ _); [inversion C; exfalso; eapply D; eauto | eauto].
    + inversion C; subst. exfalso. eapply Rd; eauto.
  - destruct (pw.read fs f) as [d|e0] eqn:Hr.
    + destruct (pw.update_loop _ _) as [d' [|]]; simpl in C;
        [eauto | inversion C; exfalso; eapply D; eauto].
    + inversion C; subst. exfalso. eapply Rd; eauto.
  - destruct (pw.read fs f) as [d|e0] eqn:Hr.
    + destruct (pw.remove_loop _ _) as [d' [|]]; simpl in C;
        [eauto | inversion C; exfalso; eapply D; eauto].
    + inversion C; subst. exfalso. eapply Rd; eauto.
Qed.

Lemma lookup_no_panic (fs : FS) (f name : string) (e : pw.error) :
  pw.Get fs f name = Err e \/ pw.List fs f = Err e -> pw.is_panic e = false.
Proof.
  unfold pw.Get, pw.List. destruct (String.length f =? 0)%nat.
  { intros [C|C]; inversion C; reflexivity. }
  destruct (pw.read fs f) as [d|e0] eqn:Hr.
  - intros [C|C]; [|discriminate].
    destruct (pw.get_loop _ _); inversion C; reflexivity.
  - intros [C|C]; inversion C; subst; eapply read_no_panic; eauto.
Qed.

(** Over a source that keeps its contract the generator panics only in
    [make]. *)
Lemma generate_panics (len : Z) (chars : string) (rng rng' : R) (e : pw.error) :
  (forall max r v r', (0 < max)%Z -> rand_Int max r = (Some v, r') ->
                      (0 <= v < max)%Z) ->
  pw.GeneratePassword len chars rng = (Err e, rng') -> pw.is_panic e = true ->
  (alloc_limit < len)%Z.
Proof.
  intros Hrange. unfold pw.GeneratePassword.
  destruct (len <=? 0)%Z; [intro C; inversion C; subst; discriminate|].
  destruct (String.length chars =? 0)%nat eqn:E0;
    [intro C; inversion C; subst; discriminate|].
  destruct (Z.ltb_spec alloc_limit len) as [Hbig|Hroom]; [intros; exact Hbig|].
  intros Hg Hp.
  assert (Hne : chars <> EmptyString) by (intros ->; discriminate).
  rewrite (generate_loop_errors chars _ Hrange Hne _ _ _ Hg) in Hp. discriminate.
Qed.

Lemma generate_beyond_limit (len : Z) (chars : string) (rng : R) :
  (0 < len)%Z -> chars <> EmptyString -> (alloc_limit < len)%Z ->
  pw.GeneratePassword len chars rng = (Err pw.PanicMakeslice, rng).
Proof.
  intros Hl Hne Hbig. unfold pw.GeneratePassword.
  replace (len <=? 0)%Z with false by (symmetry; apply Z.leb_gt; lia).
  destruct (String.length chars =? 0)%nat eqn:E0.
  { apply length_eqb_0 in E0. contradiction. }
  replace (alloc_limit <? len)%Z with true by (symmetry; apply Z.ltb_lt; lia).
  reflexivity.
Qed.

Lemma fail_status (w w' : World R) (e : pw.error) (code : Z) :
  cmd.fail w e = (w', code) ->
  (code = 1%Z /\ pw.is_panic e = false) \/ (code = 2%Z /\ pw.is_panic e = true).
Proof.
  unfold cmd.fail, cmd.die. destruct (pw.is_panic e); intro E; inversion E; auto.
Qed.

Lemma to_clipboard_status (w w' : World R) (text : string) (code : Z) :
  cmd.to_clipboard w text = (w', code) -> code = 0%Z \/ code = 1%Z.
Proof.
  unfold cmd.to_clipboard, cmd.die. destruct (clip_ok text); intro E; inversion E; auto.
Qed.

(** X19.  With a random source that keeps the contract of [rand.Int], a
    run of [main] ends with status 0, 1 or 2, and with status 2, in a
    panic, in two cases only: [add], [update] or [generate] was asked for
    a password longer than [make] can allocate, or [init], [add],
    [update] or [remove] ran [scrypt enc] and it closed its input.  The
    commands [get] and [list] never panic, and no command does when the
    length can be allocated and [scrypt enc] takes its input. *)
Theorem main_no_panic (filename : string) (len : Z) (chars : string)
  (args : list string) (w w' : World R) (code : Z) :
  (forall max r v r', (0 < max)%Z -> rand_Int max r = (Some v, r') ->
                      (0 <= v < max)%Z) ->
  cmd.main filename len chars args w = (w', code) ->
  (code = 0%Z \/ code = 1%Z \/ code = 2%Z)
  /\ (code = 2%Z ->
      exists c operands, args = c :: operands
        /\ (((c = "add" \/ c = "update" \/ c = "generate") /\ (alloc_limit < len)%Z)
            \/ ((c = "init" \/ c = "add" \/ c = "update" \/ c = "remove")
                /\ exists data, enc_refuses_input (json.Marshal data) = true)))
  /\ ((len <= alloc_limit)%Z -> (forall p, enc_refuses_input p = false) ->
      code = 0%Z \/ code = 1%Z).
Proof.
  intros Hrange Hrun.
  assert (Hmain : (code = 0%Z \/ code = 1%Z \/ code = 2%Z)
    /\ (code = 2%Z ->
        exists c operands, args = c :: operands
          /\ (((c = "add" \/ c = "update" \/ c = "generate") /\ (alloc_limit < len)%Z)
              \/ ((c = "init" \/ c = "add" \/ c = "update" \/ c = "remove")
                  /\ exists data, enc_refuses_input (json.Marshal data) = true)))).
  { revert Hrun. unfold cmd.main. destruct args as [|c operands].
    { intro E; inversion E. split; [auto | discriminate]. }
    assert (Hdie : forall (u : World R) text, cmd.die u text = (w', code) ->
      (code = 0%Z \/ code = 1%Z \/ code = 2%Z)
      /\ (code = 2%Z ->
          exists c0 operands0, c :: operands = c0 :: operands0
            /\ (((c0 = "add" \/ c0 = "update" \/ c0 = "generate") /\ (alloc_limit < len)%Z)
                \/ ((c0 = "init" \/ c0 = "add" \/ c0 = "update" \/ c0 = "remove")
                    /\ exists data, enc_refuses_input (json.Marshal data) = true)))).
    { intros u text E. inversion E. split; [auto | discriminate]. }
    assert (Hclip : forall (u : World R) text, cmd.to_clipboard u text = (w', code) ->
      (code = 0%Z \/ code = 1%Z \/ code = 2%Z)
      /\ (code = 2%Z ->
          exists c0 operands0, c :: operands = c0 :: operands0
            /\ (((c0 = "add" \/ c0 = "update" \/ c0 = "generate") /\ (alloc_limit < len)%Z)
                \/ ((c0 = "init" \/ c0 = "add" \/ c0 = "update" \/ c0 = "remove")
                    /\ exists data, enc_refuses_input (json.Marshal data) = true)))).
    { intros u text E. destruct (to_clipboard_status _ _ _ _ E) as [-> | ->];
        (split; [auto | discriminate]). }
    assert (Hstore : forall fs0 fs' e name E0 (u : World R),
      pw.Init fs0 filename = (fs', Some e) \/ pw.Add fs0 filename E0 = (fs', Some e)
      \/ pw.Update fs0 filename E0 = (fs', Some e)
      \/ pw.Remove fs0 filename name = (fs', Some e) ->
      cmd.fail u e = (w', code) ->
      (code = 0%Z \/ code = 1%Z \/ code = 2%Z)
      /\ (code = 2%Z -> exists data, enc_refuses_input (json.Marshal data) = true)).
    { intros fs0 fs' e name E0 u Hop Hf.
      destruct (fail_status _ _ _ _ Hf) as [[-> _] | [-> Hp]].
      - split; [auto | discriminate].
      - split; [auto|]. intros _. eapply store_panics; eassumption. }
    assert (Hgen : forall rng rng' e (u : World R),
      pw.GeneratePassword len chars rng = (Err e, rng') ->
      cmd.fail u e = (w', code) ->
      (code = 0%Z \/ code = 1%Z \/ code = 2%Z)
      /\ (code = 2%Z -> (alloc_limit < len)%Z)).
    { intros rng rng' e u Hg Hf.
      destruct (fail_status _ _ _ _ Hf) as [[-> _] | [-> Hp]].
      - split; [auto | discriminate].
      - split; [auto|]. intros _. eapply generate_panics; eassumption. }
    assert (Hlook : forall fs0 name e (u : World R),
      pw.Get fs0 filename name = Err e \/ pw.List fs0 filename = Err e ->
      cmd.fail u e = (w', code) ->
      (code = 0%Z \/ code = 1%Z \/ code = 2%Z) /\ code <> 2%Z).
    { intros fs0 name e u Hop Hf.
      destruct (fail_status _ _ _ _ Hf) as [[-> _] | [-> Hp]].
      - split; [auto | discriminate].
      - rewrite (lookup_no_panic _ _ _ _ Hop) in Hp. discriminate. }
    destruct (String.eqb_spec c "init") as [->|N1].
    { unfold cmd.initCmd.
      destruct (pw.Init (w_fs w) filename) as [fs' [e|]] eqn:Ei; intro E.
      - destruct (Hstore (w_fs w) fs' e EmptyString json.zero_entry _
                    (or_introl Ei) E) as [Hc Hcause].
        split; [exact Hc|]. intro C. exists "init", operands. split; [reflexivity|].
        right. split; [auto | exact (Hcause C)].
      - inversion E. split; [auto | discriminate]. }
    destruct (String.eqb_spec c "get") as [->|N2].
    { destruct operands as [|name rest]; [apply Hdie|].
      unfold cmd.getCmd. destruct (pw.Get (w_fs w) filename name) as [x|e] eqn:Eg; intro E.
      - eapply Hclip; exact E.
      - destruct (Hlook (w_fs w) name e _ (or_introl Eg) E) as [Hc Hn].
        split; [exact Hc | intro C; contradiction]. }
    destruct (String.eqb_spec c "list") as [->|N3].
    { unfold cmd.listCmd. destruct (pw.List (w_fs w) filename) as [d|e] eqn:El; intro E.
      - inversion E. split; [auto | discriminate].
      - destruct (Hlook (w_fs w) EmptyString e _ (or_intror El) E) as [Hc Hn].
        split; [exact Hc | intro C; contradiction]. }
    destruct (String.eqb_spec c "add") as [->|N4].
    { destruct operands as [|name [|username rest]]; try apply Hdie.
      unfold cmd.addCmd.
      destruct (pw.GeneratePassword len chars (w_rng w)) as [[p|e] rng'] eqn:Eg.
      - cbn [w_fs cmd.set_rng].
        destruct (pw.Add (w_fs w) filename _) as [fs' [e|]] eqn:Ea; intro E.
        + destruct (Hstore (w_fs w) fs' e EmptyString _ _
                      (or_intror (or_introl Ea)) E) as [Hc Hcause].
          split; [exact Hc|]. intro C. eexists "add", _. split; [reflexivity|].
          right. split; [auto | exact (Hcause C)].
        + eapply Hclip; exact E.
      - intro E. destruct (Hgen _ _ _ _ Eg E) as [Hc Hcause].
        split; [exact Hc|]. intro C. eexists "add", _. split; [reflexivity|].
        left. split; [auto | exact (Hcause C)]. }
    destruct (String.eqb_spec c "update") as [->|N5].
    { destruct operands as [|name [|username rest]]; try apply Hdie.
      unfold cmd.updateCmd.
      destruct (pw.GeneratePassword len chars (w_rng w)) as [[p|e] rng'] eqn:Eg.
      - cbn [w_fs cmd.set_rng].
        destruct (pw.Update (w_fs w) filename _) as [fs' [e|]] eqn:Ea; intro E.
        + destruct (Hstore (w_fs w) fs' e EmptyString _ _
                      (or_intror (or_intror (or_introl Ea))) E) as [Hc Hcause].
          split; [exact Hc|]. intro C. eexists "update", _. split; [reflexivity|].
          right. split; [auto | exact (Hcause C)].
        + eapply Hclip; exact E.
      - intro E. destruct (Hgen _ _ _ _ Eg E) as [Hc Hcause].
        split; [exact Hc|]. intro C. eexists "update", _. split; [reflexivity|].
        left. split; [auto | exact (Hcause C)]. }
    destruct (String.eqb_spec c "remove") as [->|N6].
    { destruct operands as [|name rest]; [apply Hdie|].
      unfold cmd.removeCmd.
      destruct (pw.Remove (w_fs w) filename name) as [fs' [e|]] eqn:Er; intro E.
      - destruct (Hstore (w_fs w) fs' e name json.zero_entry _
                    (or_intror (or_intror (or_intror Er))) E) as [Hc Hcause].
        split; [exact Hc|]. intro C. eexists "remove", _. split; [reflexivity|].
        right. split; [auto | exact (Hcause C)].
      - inversion E. split; [auto | discriminate]. }
    destruct (String.eqb_spec c "generate") as [->|N7].
    { unfold cmd.generateCmd.
      destruct (pw.GeneratePassword len chars (w_rng w)) as [[p|e] rng'] eqn:Eg; intro E.
      - eapply Hclip; exact E.
      - destruct (Hgen _ _ _ _ Eg E) as [Hc Hcause].
        split; [exact Hc|]. intro C. eexists "generate", _. split; [reflexivity|].
        left. split; [auto | exact (Hcause C)]. }
    intro E; inversion E. split; [auto | discriminate]. }
  destruct Hmain as [Hcodes Hcause]. split; [exact Hcodes|]. split; [exact Hcause|].
  intros Hroom Hinput. destruct Hcodes as [C|[C|C]]; auto. exfalso.
  destruct (Hcause C) as (c & operands & _ & [[_ Hbig] | [_ [data Hd]]]).
  - lia.
  - rewrite Hinput in Hd. discriminate.
Qed.

(** X21.  The two panics happen.  Asked for a password longer than
    [make] can allocate, with a non-empty charset, [generate], [add] and
    [update] end with status 2 before any draw and any write: nothing but
    the standard error is touched.  And when [scrypt enc] fails on the
    encoding of the empty store having closed its input, [init] of a
    path that [stat] does not find ends with status 2 instead of
    reporting an error. *)
Theorem main_panics (filename : string) (len : Z) (chars : string) (w : World R) :
  ((0 < len)%Z -> chars <> EmptyString -> (alloc_limit < len)%Z ->
   forall args,
     (exists rest, args = "generate" :: rest)
     \/ (exists c name username rest,
           (c = "add" \/ c = "update") /\ args = c :: name :: username :: rest) ->
     snd (cmd.main filename len chars args w) = 2%Z
     /\ untouched w (fst (cmd.main filename len chars args w)))
  /\ (filename <> EmptyString ->
      (forall isDir, os.Stat (w_fs w) filename <> os.StatOk isDir) ->
      scrypt_enc (json.Marshal (Elems [])) = None ->
      enc_refuses_input (json.Marshal (Elems [])) = true ->
      forall rest, snd (cmd.main filename len chars ("init" :: rest) w) = 2%Z).
Proof.
  split.
  - intros Hl Hne Hbig args Hargs.
    pose proof (generate_beyond_limit len chars (w_rng w) Hl Hne Hbig) as Hg.
    destruct Hargs as [[rest ->] | (c & name & username & rest & [-> | ->] & ->)];
      cbn; unfold cmd.generateCmd, cmd.addCmd, cmd.updateCmd; rewrite Hg;
      unfold cmd.fail, untouched; cbn; repeat split.
  - intros Hne Hstat He Hr rest. cbn. unfold cmd.initCmd.
    assert (Ef : (String.length filename =? 0)%nat = false).
    { destruct (String.length filename =? 0)%nat eqn:E; [|reflexivity].
      apply length_eqb_0 in E. contradiction. }
    assert (Hi : pw.Init (w_fs w) filename = pw.write (w_fs w) filename (Elems [])).
    { unfold pw.Init. rewrite Ef.
      destruct (os.Stat (w_fs w) filename) as [isDir| |] eqn:Es; try reflexivity.
      exfalso. apply (Hstat isDir). reflexivity. }
    rewrite Hi. pose proof (write_refused (w_fs w) filename (Elems []) He Hr) as Hw.
    destruct (pw.write (w_fs w) filename (Elems [])) as [fs' r]. simpl in Hw. subst r.
    reflexivity.
Qed.

End Panics.

(** * Concrete runs *)

Lemma plain_scrypt_faithful : faithful_scrypt.
Proof. intros p c E. simpl in *. symmetry. exact E. Qed.

Lemma read_ABC : pw.read fs_ABC "pw.scrypt" = Ok (Elems [entry_A; entry_B; entry_C]).
Proof. vm_compute. reflexivity. Qed.

Lemma Init_contract_witness :
  pw.List (fst (pw.Init empty_fs "pw.scrypt")) "pw.scrypt" = Ok (Elems []).
Proof.
  assert (Hi : pw.Init empty_fs "pw.scrypt"
               = (fst (pw.Init empty_fs "pw.scrypt"), None))
    by (vm_compute; reflexivity).
  apply (proj2 (proj2 (proj2 (Init_contract empty_fs _ "pw.scrypt" Hi)))).
  exact plain_scrypt_faithful.
Defined.

Lemma Add_then_List_witness :
  pw.List (fst (pw.Add (fs_with [entry_A]) "pw.scrypt" entry_B)) "pw.scrypt"
  = Ok (Elems [entry_A; entry_B]).
Proof.
  apply (Add_then_List (fs_with [entry_A]) _ "pw.scrypt" (Elems [entry_A]) entry_B
           plain_scrypt_faithful); vm_compute; reflexivity.
Defined.

Lemma Update_then_Get_witness :
  pw.Get (fst (pw.Update fs_ABC "pw.scrypt" entry_B')) "pw.scrypt" "B" = Ok entry_B'.
Proof.
  apply (Update_then_Get fs_ABC _ "pw.scrypt" _ entry_B' plain_scrypt_faithful
           eq_refl read_ABC).
  vm_compute. reflexivity.
Defined.

Lemma Remove_then_Get_witness :
  pw.Get (fst (pw.Remove fs_ABC "pw.scrypt" "B")) "pw.scrypt" "B" = Err pw.ErrPwNotFound.
Proof.
  apply (Remove_then_Get fs_ABC _ "pw.scrypt" "B" _ plain_scrypt_faithful read_ABC).
  vm_compute. reflexivity.
Defined.

Lemma other_entries_kept_witness :
  pw.Get (fst (pw.Remove fs_ABC "pw.scrypt" "B")) "pw.scrypt" "C"
  = pw.Get fs_ABC "pw.scrypt" "C".
Proof.
  apply (other_entries_kept fs_ABC _ "pw.scrypt" "B" "C" entry_A plain_scrypt_faithful).
  right. split; [discriminate | vm_compute; reflexivity].
Defined.

Lemma names_stay_distinct_witness :
  exists data', pw.List (fst (pw.Add fs_ABC "pw.scrypt" (mk_entry "D" "dave" "pd")))
                  "pw.scrypt" = Ok data'
                /\ NoDup (map Name (elems data')).
Proof.
  apply (names_stay_distinct fs_ABC _ "pw.scrypt" "D" _ (mk_entry "D" "dave" "pd")
           plain_scrypt_faithful read_ABC).
  - repeat constructor; simpl; intuition discriminate.
  - left. split; [reflexivity|]. left. vm_compute. reflexivity.
Defined.

Lemma main_exit_status_witness :
  (ends_well world_ABC
     (fst (cmd.run ["-password-length"; "4"; "get"; "Z"] world_ABC)) 1
   \/ (1%Z = 1%Z
       /\ w_stderr (fst (cmd.run ["-password-length"; "4"; "get"; "Z"] world_ABC))
          = w_stderr world_ABC
       /\ exists c, is_command c = false
            /\ w_stdout (fst (cmd.run ["-password-length"; "4"; "get"; "Z"] world_ABC))
               = w_stdout world_ABC ++ "Unknown command: " ++ c ++ nl)
   \/ (1%Z = 0%Z
       /\ untouched world_ABC
            (fst (cmd.run ["-password-length"; "4"; "get"; "Z"] world_ABC))
       /\ w_stderr (fst (cmd.run ["-password-length"; "4"; "get"; "Z"] world_ABC))
          = w_stderr world_ABC ++ flag.Usage)
   \/ (1%Z = 2%Z
       /\ untouched world_ABC
            (fst (cmd.run ["-password-length"; "4"; "get"; "Z"] world_ABC))
       /\ exists msg,
            w_stderr (fst (cmd.run ["-password-length"; "4"; "get"; "Z"] world_ABC))
            = w_stderr world_ABC ++ msg ++ nl ++ flag.Usage))
  /\ snd (cmd.run ["-password-length"; "four"; "get"; "Z"] world_ABC) = 2%Z.
Proof.
  split.
  - apply (main_exit_status ["-password-length"; "4"; "get"; "Z"] world_ABC).
    vm_compute. reflexivity.
  - vm_compute. reflexivity.
Defined.

Lemma main_rejected_witness :
  snd (cmd.main "pw.scrypt" 4 "abcdef" ["add"; "D"] world_ABC) = 1%Z
  /\ w_fs (fst (cmd.main "pw.scrypt" 4 "abcdef" ["add"; "D"] world_ABC)) = w_fs world_ABC
  /\ w_rng (fst (cmd.main "pw.scrypt" 4 "abcdef" ["add"; "D"] world_ABC)) = w_rng world_ABC
  /\ w_clip (fst (cmd.main "pw.scrypt" 4 "abcdef" ["add"; "D"] world_ABC))
     = w_clip world_ABC.
Proof.
  apply (main_rejected "pw.scrypt" 4 "abcdef" ["add"; "D"] world_ABC). reflexivity.
Defined.

Lemma main_get_witness :
  snd (cmd.main "pw.scrypt" 4 "abcdef" ["get"; "B"] world_ABC) = 0%Z
  /\ w_clip (fst (cmd.main "pw.scrypt" 4 "abcdef" ["get"; "B"] world_ABC)) = Some "pb"
  /\ w_stderr (fst (cmd.main "pw.scrypt" 4 "abcdef" ["get"; "B"] world_ABC))
     = w_stderr world_ABC.
Proof.
  assert (Hl : Forall (fun e => Name e <> "B") [entry_A])
    by (repeat constructor; discriminate).
  apply (proj1 (proj2 (proj2 (proj2
           (main_get "pw.scrypt" 4 "abcdef" "B" [] world_ABC _ [entry_A] [entry_C] entry_B
              read_ABC eq_refl Hl eq_refl))))).
  reflexivity.
Defined.

Lemma main_add_then_get_witness :
  exists p,
    byte_guarantee 4 "abcdef" p
    /\ w_clip (fst (cmd.main "pw.scrypt" 4 "abcdef" ["add"; "D"; "dave"] world_ABC)) = Some p
    /\ pw.Get (w_fs (fst (cmd.main "pw.scrypt" 4 "abcdef" ["add"; "D"; "dave"] world_ABC)))
         "pw.scrypt" "D" = Ok {| Name := "D"; Username := "dave"; Password := p |}
    /\ forall len' chars' rest',
         snd (cmd.main "pw.scrypt" len' chars' ("get" :: "D" :: rest')
                (fst (cmd.main "pw.scrypt" 4 "abcdef" ["add"; "D"; "dave"] world_ABC)))
         = 0%Z
         /\ w_clip (fst (cmd.main "pw.scrypt" len' chars' ("get" :: "D" :: rest')
                      (fst (cmd.main "pw.scrypt" 4 "abcdef" ["add"; "D"; "dave"] world_ABC))))
            = Some p.
Proof.
  apply (main_add_then_get "pw.scrypt" 4 "abcdef" "add" "D" "dave" [] world_ABC _
           plain_scrypt_faithful eq_refl eq_refl eq_refl (or_introl eq_refl)).
  vm_compute. reflexivity.
Defined.

Lemma main_store_rejected_witness :
  snd (cmd.main "pw.scrypt" 4 "abcdef" ["add"; "B"; "bob"] world_ABC) <> 0%Z
  /\ w_fs (fst (cmd.main "pw.scrypt" 4 "abcdef" ["add"; "B"; "bob"] world_ABC))
     = w_fs world_ABC
  /\ w_clip (fst (cmd.main "pw.scrypt" 4 "abcdef" ["add"; "B"; "bob"] world_ABC))
     = w_clip world_ABC
  /\ w_stdout (fst (cmd.main "pw.scrypt" 4 "abcdef" ["add"; "B"; "bob"] world_ABC))
     = w_stdout world_ABC.
Proof.
  apply (main_store_rejected "pw.scrypt" 4 "abcdef" "add" "B" "bob" [] world_ABC _ read_ABC).
  left. split; [reflexivity|]. apply Exists_cons_tl, Exists_cons_hd. reflexivity.
Defined.

Lemma main_list_witness :
  snd (cmd.main "pw.scrypt" 4 "abcdef" ["list"] world_ABC) = 0%Z
  /\ w_stdout (fst (cmd.main "pw.scrypt" 4 "abcdef" ["list"] world_ABC))
     = "A: alice" ++ nl ++ "B: bob" ++ nl ++ "C: carol" ++ nl.
Proof.
  destruct (main_list "pw.scrypt" 4 "abcdef" [] world_ABC _ read_ABC)
    as (Hc & _ & _ & _ & Ho & _).
  split; [exact Hc | exact Ho].
Defined.

Lemma main_generate_witness :
  w_fs (fst (cmd.main "pw.scrypt" 4 "abcdef" ["generate"] world_ABC)) = w_fs world_ABC
  /\ exists p, w_clip (fst (cmd.main "pw.scrypt" 4 "abcdef" ["generate"] world_ABC)) = Some p
               /\ byte_guarantee 4 "abcdef" p.
Proof.
  assert (Hrun : cmd.main "pw.scrypt" 4 "abcdef" ["generate"] world_ABC
                 = (fst (cmd.main "pw.scrypt" 4 "abcdef" ["generate"] world_ABC), 0%Z))
    by (vm_compute; reflexivity).
  destruct (main_generate "pw.scrypt" 4 "abcdef" [] world_ABC _ 0%Z Hrun)
    as (Hf & _ & Hp).
  split; [exact Hf | exact (Hp eq_refl)].
Defined.

Lemma main_remove_then_get_witness :
  snd (cmd.main "pw.scrypt" 4 "abcdef" ["get"; "B"]
         (fst (cmd.main "pw.scrypt" 4 "abcdef" ["remove"; "B"] world_ABC))) = 1%Z.
Proof.
  assert (Hrun : cmd.main "pw.scrypt" 4 "abcdef" ["remove"; "B"] world_ABC
                 = (fst (cmd.main "pw.scrypt" 4 "abcdef" ["remove"; "B"] world_ABC), 0%Z))
    by (vm_compute; reflexivity).
  apply (main_remove_then_get "pw.scrypt" 4 "abcdef" "B" [] world_ABC _
           plain_scrypt_faithful Hrun 4%Z "abcdef" []).
Defined.

Lemma GeneratePassword_tape_witness :
  pw.GeneratePassword 3 "a" ([] : list Z) = (Ok "aaa", [])
  /\ fst (pw.GeneratePassword 3 "abc" [2; 0; 4; 7]%Z) = Ok "caa"
  /\ pw.GeneratePassword 3 "abc" [2; 7]%Z = (Err pw.ErrRand, []).
Proof.
  assert (Hl : (0 < 3 <= alloc_limit)%Z) by (cbn; lia).
  assert (Hlen : (2 <= String.length "abc" <= 256)%nat) by (cbn; lia).
  split; [|split].
  - exact (proj1 (GeneratePassword_tape 3 "a" [] Hl) "a"%char eq_refl).
  - assert (Hn : (Z.to_nat 3 <= List.length (draws 3 [2; 0; 4; 7]%Z))%nat)
      by (vm_compute; lia).
    exact (proj1 (proj2 (GeneratePassword_tape 3 "abc" [2; 0; 4; 7]%Z Hl) Hlen) Hn).
  - assert (Hn : (List.length (draws 3 [2; 7]%Z) < Z.to_nat 3)%nat)
      by (vm_compute; lia).
    exact (proj2 (proj2 (GeneratePassword_tape 3 "abc" [2; 7]%Z Hl) Hlen) Hn).
Defined.

Lemma main_no_panic_witness :
  snd (cmd.main "pw.scrypt" 4 "abcdef" ["generate"] world_ABC) = 0%Z
  \/ snd (cmd.main "pw.scrypt" 4 "abcdef" ["generate"] world_ABC) = 1%Z.
Proof.
  assert (Hrun : cmd.main "pw.scrypt" 4 "abcdef" ["generate"] world_ABC
                 = (fst (cmd.main "pw.scrypt" 4 "abcdef" ["generate"] world_ABC),
                    snd (cmd.main "pw.scrypt" 4 "abcdef" ["generate"] world_ABC)))
    by (vm_compute; reflexivity).
  apply (proj2 (proj2
           (main_no_panic "pw.scrypt" 4 "abcdef" ["generate"] world_ABC _ _
              tape_rng_range Hrun))).
  - cbn. lia.
  - intro p. reflexivity.
Defined.

Lemma main_panics_witness :
  snd (@cmd.main (list Z) (with_limit 3) tape_rng plain_console
         "pw.scrypt" 4 "abcdef" ["generate"] world_ABC) = 2%Z
  /\ snd (@cmd.main (list Z) refusing_scrypt tape_rng plain_console
            "pw.scrypt" 4 "abcdef" ["init"] (world_of empty_fs [])) = 2%Z.
Proof.
  split.
  - apply (proj1 (@main_panics (list Z) (with_limit 3) tape_rng plain_console
                    "pw.scrypt" 4 "abcdef" world_ABC)); try (cbn; lia).
    + discriminate.
    + left. exists []. reflexivity.
  - apply (proj2 (@main_panics (list Z) refusing_scrypt tape_rng plain_console
                    "pw.scrypt" 4 "abcdef" (world_of empty_fs []))); try reflexivity.
    + discriminate.
    + intros isDir. vm_compute. discriminate.
Defined.

(** * The command [init] *)

Section InitRuns.
Context {R : Type} `{Platform} `{RandSource R} `{Console}.

Lemma Init_success (fs fs' : FS) (f : string) :
  pw.Init fs f = (fs', None) ->
  (String.length f =? 0)%nat = false /\ pw.write fs f (Elems []) = (fs', None).
Proof.
  intro Hi. unfold pw.Init in Hi.
  destruct (String.length f =? 0)%nat; [discriminate|]. split; [reflexivity|].
  destruct (os.Stat fs f); [discriminate | exact Hi | exact Hi].
Qed.

(** X20.  When [init] ends with status 0 it has printed the path followed
    by [initialized] and left the clipboard and the random source as they
    were; a later [list] ends with status 0 and prints nothing, and a
    second [init] ends with status 1, reports that the password file
    already exists and leaves the file as it is. *)
Theorem main_init_then_list (filename : string) (len : Z) (chars : string)
  (rest : list string) (w w1 : World R) :
  faithful_scrypt ->
  cmd.main filename len chars ("init" :: rest) w = (w1, 0%Z) ->
  w_stdout w1 = w_stdout w ++ filename ++ " initialized" ++ nl
  /\ w_clip w1 = w_clip w /\ w_rng w1 = w_rng w
  /\ forall len' chars' rest',
       (let r := cmd.main filename len' chars' ("list" :: rest') w1 in
        snd r = 0%Z /\ w_stdout (fst r) = w_stdout w1 /\ w_fs (fst r) = w_fs w1)
       /\ (let r := cmd.main filename len' chars' ("init" :: rest') w1 in
           snd r = 1%Z /\ w_fs (fst r) = w_fs w1 /\ w_stdout (fst r) = w_stdout w1
           /\ w_stderr (fst r)
              = w_stderr w1 ++ "Error: " ++ error_text pw.ErrPwFileAlreadyExists ++ nl).
Proof.
  intros Hde Hrun.
  cbn [cmd.main] in Hrun.
  change ("init" =? "init")%string with true in Hrun. cbv iota in Hrun.
  unfold cmd.initCmd in Hrun.
  destruct (pw.Init (w_fs w) filename) as [fs' [e|]] eqn:Hi.
  { apply fail_spec in Hrun. destruct Hrun as (_ & C & _). contradiction. }
  inversion Hrun; subst w1; clear Hrun.
  destruct (Init_success _ _ _ Hi) as [Ef Hw].
  destruct (write_ok _ _ _ _ Hw) as [Hst _].
  destruct (read_back (w_fs w) fs' filename (Elems []) Hde eq_refl Hw) as [_ Hl].
  split; [reflexivity|]. split; [reflexivity|]. split; [reflexivity|].
  intros len' chars' rest'. split.
  - intro r. subst r. cbn [cmd.main].
    change ("list" =? "init")%string with false.
    change ("list" =? "get")%string with false.
    change ("list" =? "list")%string with true. cbv iota.
    unfold cmd.listCmd. cbn [w_fs cmd.print cmd.set_fs]. rewrite Hl.
    cbn. repeat split.
  - intro r. subst r. cbn [cmd.main].
    change ("init" =? "init")%string with true. cbv iota.
    unfold cmd.initCmd. cbn [w_fs cmd.print cmd.set_fs].
    assert (Hi2 : pw.Init fs' filename = (fs', Some pw.ErrPwFileAlreadyExists)).
    { unfold pw.Init, os.Stat. rewrite Ef. destruct Hst as (c & -> & _). reflexivity. }
    rewrite Hi2. cbn. repeat split.
Qed.

End InitRuns.

Lemma main_init_then_list_witness :
  w_stdout (fst (cmd.main "pw.scrypt" 4 "abcdef" ["init"] (world_of empty_fs [])))
  = "pw.scrypt initialized" ++ nl.
Proof.
  assert (Hrun : cmd.main "pw.scrypt" 4 "abcdef" ["init"] (world_of empty_fs [])
                 = (fst (cmd.main "pw.scrypt" 4 "abcdef" ["init"] (world_of empty_fs [])),
                    0%Z))
    by (vm_compute; reflexivity).
  apply (proj1 (main_init_then_list "pw.scrypt" 4 "abcdef" [] (world_of empty_fs []) _
                  plain_scrypt_faithful Hrun)).
Defined.
